(** * unwise-backend: settlement, validation and sanitising logic

    A shallow embedding of the money-handling services of the backend
    (package [services], with the pieces of [errors], [repository] and
    the Go runtime they rest on) and the properties stated about them.

    Amounts are Go [float64] values: they are modelled by Rocq's
    primitive binary64 floats, whose operations are the IEEE 754 ones
    the Go compiler emits.  Go maps are finite maps ([gmap]) together
    with an explicit iteration order, because [range] over a map visits
    the entries in an order the language leaves unspecified.  Calls to
    the logger are left out: they return nothing and change no state.
    The file has two parts: the program, then its properties. *)

From Stdlib Require Import ZArith Lia Floats Uint63 String Ascii List Permutation.
From stdpp Require Import base option list gmap strings.

Set Warnings "-inexact-float,-register-all".
Local Open Scope string_scope.
Local Open Scope list_scope.

(** ** Go runtime: [float64] and package [math] *)

Module GoMath.

Local Open Scope float_scope.

(** Go's [a > b] on [float64]. *)
Definition gtb (a b : float) : bool := b <? a.

(** [math.Abs]. *)
Definition Abs (x : float) : float := abs x.

(** [math.Round]: the nearest integer, halves away from zero; zeros,
    infinities and NaN are returned unchanged.  A finite non-zero
    [x] is [(-1)^s * m * 2^e]; for [e >= 0] it is already an integer,
    otherwise the magnitude is [floor (m * 2^e + 1/2)], which is at
    most [2^52 + 1] and hence converts exactly. *)
Definition Round (x : float) : float :=
  match Prim2SF x with
  | S754_finite s m e =>
      if (0 <=? e)%Z then x
      else
        let n := Z.shiftr (Zpos m + Z.shiftl 1 (- e - 1)) (- e) in
        let r := of_uint63 (Uint63.of_Z n) in
        if s then - r else r
  | _ => x
  end.

(** [math.IsInf(x, -1)] and [math.Signbit]. *)
Definition IsNegInf (x : float) : bool := x =? neg_infinity.
Definition Signbit (x : float) : bool := get_sign x.

(** [math.Min], with the special cases of the Go library. *)
Definition Min (x y : float) : float :=
  if IsNegInf x || IsNegInf y then neg_infinity
  else if is_nan x || is_nan y then nan
  else if (x =? 0) && (x =? y) then (if Signbit x then x else y)
  else if x <? y then x else y.

End GoMath.

(** ** services/constants.go *)

Definition BalanceThreshold : float := 0.01%float.
Definition AmountTolerance : float := 0.001%float.
Definition RoundingFactor : float := 100.0%float.

(** The expression [math.Round(x*RoundingFactor) / RoundingFactor] that
    every service uses to bring an amount to two decimals. *)
Definition round2 (x : float) : float :=
  (GoMath.Round (x * RoundingFactor) / RoundingFactor)%float.

(** ** Go maps and [range]

    [range m] yields every entry of [m] exactly once, in an order that
    may differ from one loop to the next.  The order is an oracle: it
    takes the name of the loop (so that two loops over equal maps are
    free to disagree) and returns a permutation of the entries. *)

Class MapOrder := {
  range : forall {V : Type}, string -> gmap string V -> list (string * V);
  range_perm : forall (V : Type) (site : string) (m : gmap string V),
      range site m ≡ₚ map_to_list m
}.

(** The order in which [gmap] itself lists the entries is one oracle. *)
#[export] Instance canonical_order : MapOrder :=
  {| range := fun V _ m => map_to_list m;
     range_perm := fun V _ m => reflexivity _ |}.

(** ** Package errors *)

Inductive ErrorType :=
  | ErrorTypeUnauthorized | ErrorTypeForbidden | ErrorTypeBadRequest
  | ErrorTypeNotFound | ErrorTypeConflict | ErrorTypeUnprocessable
  | ErrorTypeInternal | ErrorTypeServiceUnavailable.

(** A message is kept as its pieces: text, and amounts printed with
    the verb [%.2f]. *)
Inductive msgPart := Text (s : string) | Fixed2 (x : float).

(** [AppError], over the type of the wrapped cause [Err]. *)
Record AppErrorOf (E : Type) := {
  Type_ : ErrorType;
  Code : string;
  Message : list msgPart;
  Details : string;
  Err : option E
}.
Arguments Type_ {E} _.
Arguments Code {E} _.
Arguments Message {E} _.
Arguments Details {E} _.
Arguments Err {E} _.

(** A Go [error] value: a plain error with its text (what [fmt.Errorf]
    and the database driver produce), or an [AppError]. *)
Inductive error := errorString (s : string) | appError (e : AppErrorOf error).

Definition AppError := AppErrorOf error.

Inductive result (T : Type) := Ok (v : T) | Fail (e : error).
Arguments Ok {T} v.
Arguments Fail {T} e.

Definition NotGroupMember : AppError :=
  {| Type_ := ErrorTypeForbidden; Code := "AUTH_005";
     Message := [Text "You are not a member of this group."];
     Details := ""; Err := None |}.

Definition AmountMismatch (splitTotal expectedTotal : float) (splitType : string) : AppError :=
  {| Type_ := ErrorTypeBadRequest; Code := "VALIDATION_005";
     Message := [Text "Sum of "; Text splitType; Text " amounts ("; Fixed2 splitTotal;
                 Text ") does not equal total amount ("; Fixed2 expectedTotal; Text ")."];
     Details := ""; Err := None |}.

Definition UserNotFoundByEmail (email : string) : AppError :=
  {| Type_ := ErrorTypeNotFound; Code := "NOT_FOUND_002";
     Message := [Text "No user found with email '"; Text email; Text "'."];
     Details := "Please check the email address or ask them to sign up first.";
     Err := None |}.

Definition ExpenseNotFound : AppError :=
  {| Type_ := ErrorTypeNotFound; Code := "NOT_FOUND_004";
     Message := [Text "Expense not found."]; Details := ""; Err := None |}.

Definition AlreadyFriends : AppError :=
  {| Type_ := ErrorTypeConflict; Code := "CONFLICT_004";
     Message := [Text "You are already friends with this user."];
     Details := ""; Err := None |}.

Definition CannotAddSelf (action : string) : AppError :=
  {| Type_ := ErrorTypeConflict; Code := "CONFLICT_005";
     Message := [Text "You cannot "; Text action; Text " yourself."];
     Details := ""; Err := None |}.

Definition CannotDeleteGroupWithDebts : AppError :=
  {| Type_ := ErrorTypeUnprocessable; Code := "BUSINESS_003";
     Message := [Text "Cannot delete group while there are outstanding balances."];
     Details := "Please settle all debts before deleting this group.";
     Err := None |}.

Definition DatabaseError (operation : string) (err : error) : AppError :=
  {| Type_ := ErrorTypeInternal; Code := "DATABASE_001";
     Message := [Text "A database error occurred. Please try again."];
     Details := operation; Err := Some err |}.

(** [containsHelper]: the loop [for i := 0; i <= len(s)-len(substr); i++]
    comparing [s[i:i+len(substr)]] with [substr]. *)
Fixpoint containsFrom (fuel i : nat) (s substr : string) : bool :=
  match fuel with
  | O => false
  | S fuel' =>
      if String.eqb (substring i (String.length substr) s) substr then true
      else containsFrom fuel' (S i) s substr
  end.

Definition containsHelper (s substr : string) : bool :=
  if (String.length s <? String.length substr)%nat then false
  else containsFrom (String.length s - String.length substr + 1) 0 s substr.

Definition contains (s substr : string) : bool :=
  (String.length substr <=? String.length s)%nat &&
  (String.eqb s substr || ((0 <? String.length s)%nat && containsHelper s substr)).

(** [IsNotFoundError] and [IsDuplicateError], on the text [err.Error()]
    of a non-nil error; the services apply them to what a repository
    returned, a plain error. *)
Definition IsNotFoundError (errStr : string) : bool :=
  contains errStr "no rows" || contains errStr "not found".

Definition IsDuplicateError (errStr : string) : bool :=
  contains errStr "duplicate key" || contains errStr "unique constraint".

(** ** container/heap over [balanceHeap] (services/group_service.go) *)

Record personBalance := { userID : string; balance : float }.

Abbreviation balanceHeap := (list personBalance).

Module Heap.

(** [Less(i, j)] is [h[i].balance > h[j].balance]: a max-heap. *)
Definition Less (h : balanceHeap) (i j : nat) : bool :=
  match h !! i, h !! j with
  | Some a, Some b => GoMath.gtb (balance a) (balance b)
  | _, _ => false
  end.

Definition Swap (h : balanceHeap) (i j : nat) : balanceHeap :=
  match h !! i, h !! j with
  | Some a, Some b => <[i := b]> (<[j := a]> h)
  | _, _ => h
  end.

(** [heap.up]: the parent of [j] is [(j - 1) / 2]; at the root Go's
    truncating division gives [(0 - 1) / 2 = 0], as does the
    truncating subtraction on [nat]. *)
Fixpoint up (fuel : nat) (h : balanceHeap) (j : nat) : balanceHeap :=
  match fuel with
  | O => h
  | S fuel' =>
      let i := (j - 1) / 2 in
      if (i =? j)%nat || negb (Less h j i) then h
      else up fuel' (Swap h i j) i
  end.

(** [heap.down] on the first [n] elements, starting at [i]. *)
Fixpoint down (fuel : nat) (h : balanceHeap) (i n : nat) : balanceHeap :=
  match fuel with
  | O => h
  | S fuel' =>
      let j1 := 2 * i + 1 in
      if (n <=? j1)%nat then h
      else
        let j2 := j1 + 1 in
        let j := if (j2 <? n)%nat && Less h j2 j1 then j2 else j1 in
        if negb (Less h j i) then h
        else down fuel' (Swap h i j) j n
  end.

(** [heap.Push]: append, then sift up from the last index. *)
Definition Push (h : balanceHeap) (x : personBalance) : balanceHeap :=
  let h' := h ++ [x] in
  up (length h') h' (length h' - 1).

(** [heap.Pop]: swap the root with the last element, sift the new root
    down in the shortened prefix, and remove the last element.  On an
    empty heap Go panics; the callers test [Len() > 0] first. *)
Definition Pop (h : balanceHeap) : option (personBalance * balanceHeap) :=
  let n := length h - 1 in
  let h' := down (length h) (Swap h 0 n) 0 n in
  match h' !! n with
  | Some x => Some (x, take n h')
  | None => None
  end.

End Heap.

(** ** Settlement service (services/group_service.go) *)

Record Settlement := {
  FromUserID : string;
  ToUserID : string;
  Amount : float;
  Currency : string
}.

Record settleState := {
  creditorHeap : balanceHeap;
  debtorHeap : balanceHeap;
  settlements : list Settlement
}.

(** The first loop of [calculateSettlementsForCurrency]: one map entry. *)
Definition partitionEntry (st : balanceHeap * balanceHeap) (kv : string * float)
  : balanceHeap * balanceHeap :=
  let roundedBalance := round2 (snd kv) in
  if GoMath.gtb roundedBalance BalanceThreshold then
    (Heap.Push (fst st) {| userID := fst kv; balance := roundedBalance |}, snd st)
  else if (roundedBalance <? - BalanceThreshold)%float then
    (fst st, Heap.Push (snd st) {| userID := fst kv; balance := GoMath.Abs roundedBalance |})
  else st.

(** One iteration of the second loop; [None] when the loop condition
    [creditorHeap.Len() > 0 && debtorHeap.Len() > 0] is false. *)
Definition settleStep (currency : string) (st : settleState) : option settleState :=
  match Heap.Pop (creditorHeap st), Heap.Pop (debtorHeap st) with
  | Some (creditor, ch), Some (debtor, dh) =>
      let amount := GoMath.Min (balance creditor) (balance debtor) in
      let roundedAmount := round2 amount in
      let out :=
        if GoMath.gtb roundedAmount BalanceThreshold then
          settlements st ++
            [ {| FromUserID := userID debtor; ToUserID := userID creditor;
                 Amount := roundedAmount; Currency := currency |} ]
        else settlements st in
      let cb := round2 (balance creditor - amount) in
      let db := round2 (balance debtor - amount) in
      let ch' := if GoMath.gtb cb BalanceThreshold
                 then Heap.Push ch {| userID := userID creditor; balance := cb |} else ch in
      let dh' := if GoMath.gtb db BalanceThreshold
                 then Heap.Push dh {| userID := userID debtor; balance := db |} else dh in
      Some {| creditorHeap := ch'; debtorHeap := dh'; settlements := out |}
  | _, _ => None
  end.

Fixpoint settleLoop (fuel : nat) (currency : string) (st : settleState) : settleState :=
  match fuel with
  | O => st
  | S fuel' =>
      match settleStep currency st with
      | Some st' => settleLoop fuel' currency st'
      | None => st
      end
  end.

(** [iterations currency st n st'] : the loop goes from [st] to [st']
    in exactly [n] iterations. *)
Inductive iterations (currency : string) : settleState -> nat -> settleState -> Prop :=
  | iterations_none st : iterations currency st 0 st
  | iterations_more st st1 st2 n :
      settleStep currency st = Some st1 ->
      iterations currency st1 n st2 ->
      iterations currency st (S n) st2.

(** A heap entry is an amount brought to two decimals: what [round2]
    returned, or its magnitude. *)
Definition twoDecimals (p : personBalance) : Prop :=
  exists x, balance p = round2 x \/ balance p = GoMath.Abs (round2 x).

(** The heaps as the first loop leaves them, for the entries in the
    order [range] produced them. *)
Definition initialState (entries : list (string * float)) : settleState :=
  let hs := fold_left partitionEntry entries ([], []) in
  {| creditorHeap := fst hs; debtorHeap := snd hs; settlements := [] |}.

Definition heapEntries (st : settleState) : nat :=
  length (creditorHeap st) + length (debtorHeap st).

(** The second loop runs until a heap is empty; [heapEntries] bounds the
    number of its iterations (theorem [settle_loop_terminates]). *)
Definition settleEntries (entries : list (string * float)) (currency : string)
  : list Settlement :=
  let st := initialState entries in
  settlements (settleLoop (heapEntries st) currency st).

Definition calculateSettlementsForCurrency `{MapOrder}
    (balances : gmap string float) (currency : string) : list Settlement :=
  settleEntries (range ("calculateSettlementsForCurrency:" ++ currency) balances) currency.

(** ** Repository interfaces (package repository)

    The services hold their repositories behind Go interfaces.  A
    repository is a set of operations on a store [St]: a query returns
    its rows or the text of its error, a command returns the new store
    too. *)

Class GroupRepository (St : Type) := {
  IsMember : string -> string -> St -> string + bool;
  GroupDelete : string -> St -> option string * St
}.

Class BalanceRepository (St : Type) := {
  GetGroupMemberBalances : string -> St -> string + gmap string (gmap string float)
}.

(** services/auth_helpers.go *)
Definition RequireGroupMembership {St} `{GroupRepository St}
    (groupID userID : string) (s : St) : option AppError :=
  match IsMember groupID userID s with
  | inl err => Some (DatabaseError "checking membership" (errorString err))
  | inr false => Some NotGroupMember
  | inr true => None
  end.

(** The regrouping loop of [CalculateSettlements]:
    [currencyBalances[currency][userID] = balance]. *)
Definition regroupEntry (userID : string)
    (acc : gmap string (gmap string float)) (kv : string * float)
  : gmap string (gmap string float) :=
  <[fst kv := <[userID := snd kv]> (default ∅ (acc !! fst kv))]> acc.

Definition regroupUser `{MapOrder}
    (acc : gmap string (gmap string float)) (ukv : string * gmap string float)
  : gmap string (gmap string float) :=
  fold_left (regroupEntry (fst ukv)) (range ("currencyMap:" ++ fst ukv) (snd ukv)) acc.

Definition currencyBalances `{MapOrder}
    (balancesByCurrency : gmap string (gmap string float))
  : gmap string (gmap string float) :=
  fold_left regroupUser (range "balancesByCurrency" balancesByCurrency) ∅.

(** The balance recorded for member [u] in the bucket of [cur]. *)
Definition bucketOf (acc : gmap string (gmap string float)) (cur u : string) : option float :=
  acc !! cur ≫= (.!! u).

(** No bucket is empty. *)
Definition noEmptyBucket (acc : gmap string (gmap string float)) : Prop :=
  forall cur ub, acc !! cur = Some ub -> ub <> ∅.

Definition settleBucket `{MapOrder} (cb : string * gmap string float) : list Settlement :=
  calculateSettlementsForCurrency (snd cb) (fst cb).

Definition CalculateSettlements {St} `{MapOrder} `{GroupRepository St} `{BalanceRepository St}
    (groupID userID : string) (s : St) : result (list Settlement) :=
  match RequireGroupMembership groupID userID s with
  | Some err => Fail (appError err)
  | None =>
      match GetGroupMemberBalances groupID s with
      | inl err => Fail (appError (DatabaseError "getting group member balances" (errorString err)))
      | inr balancesByCurrency =>
          Ok (concat (map settleBucket
                (range "currencyBalances" (currencyBalances balancesByCurrency))))
      end
  end.

(** ** Group service: deleting a group (services/group_service.go) *)

Record Balance := { BalanceUserID : string; OwedAmount : float }.

Definition balancesOfUser `{MapOrder} (ukv : string * gmap string float) : list Balance :=
  flat_map (fun kv : string * float =>
      let roundedBalance := round2 (snd kv) in
      if GoMath.gtb (GoMath.Abs roundedBalance) BalanceThreshold
      then [ {| BalanceUserID := fst ukv; OwedAmount := roundedBalance |} ]
      else [])
    (range ("currencyMap:" ++ fst ukv) (snd ukv)).

Definition calculateBalances {St} `{MapOrder} `{BalanceRepository St}
    (groupID : string) (s : St) : result (list Balance) :=
  match GetGroupMemberBalances groupID s with
  | inl err => Fail (appError (DatabaseError "getting group member balances" (errorString err)))
  | inr balancesByCurrency =>
      Ok (flat_map balancesOfUser (range "balancesByCurrency" balancesByCurrency))
  end.

Definition GroupServiceDelete {St} `{MapOrder} `{GroupRepository St} `{BalanceRepository St}
    (groupID userID : string) (s : St) : option error * St :=
  match RequireGroupMembership groupID userID s with
  | Some err => (Some (appError err), s)
  | None =>
      match calculateBalances groupID s with
      | Fail err => (Some (appError (DatabaseError "calculating balances" err)), s)
      | Ok balances =>
          if (0 <? length balances)%nat
          then (Some (appError CannotDeleteGroupWithDebts), s)
          else
            match GroupDelete groupID s with
            | (Some err, s') => (Some (appError (DatabaseError "deleting group" (errorString err))), s')
            | (None, s') => (None, s')
            end
      end
  end.

(** ** Expense service (package services) *)

(** What the service takes from outside the program: the strings
    [uuid.New().String()] returns, in the order of the calls, the clock,
    and [time.Time.Format].  A [time.Time] is an instant counted from
    the zero time, so [IsZero] is a test against 0. *)
Definition GoTime := Z.

Record Runtime := {
  uuid : nat -> string;
  now : GoTime;
  format : string -> GoTime -> string
}.

Definition IsZero (t : GoTime) : bool := (t =? 0)%Z.

Module Payer.
Record t := { ID : string; ExpenseID : string; UserID : string; AmountPaid : float }.
End Payer.

Module Split.
Record t := { ID : string; ExpenseID : string; UserID : string; Amount : float }.
End Split.

Module Assignment.
Record t := { ID : string; ReceiptItemID : string; UserID : string }.
End Assignment.

Module Item.
Record t := { ID : string; ExpenseID : string; Name : string; Price : float;
              Assignments : list Assignment.t }.
End Item.

(** [models.Expense]; the columns the service only carries along
    (receipt image, tax breakdown, explanation, row timestamps) are
    left out. *)
Module Expense.
Record t := {
  ID : string;
  GroupID : string;
  PaidByUserID : option string;
  TotalAmount : float;
  Description : string;
  Type_ : string;
  Category : string;
  DateISO : GoTime;
  Date : string;
  Time : string;
  Payers : list Payer.t;
  ReceiptItems : list Item.t
}.
End Expense.

Definition TransactionCategoryExpense : string := "EXPENSE".
Definition ExpenseTypeEqual : string := "EQUAL".

Class ExpenseRepository (St : Type) := {
  ExpenseGetByID : string -> St -> string + Expense.t;
  ExpenseCreate : Expense.t -> St -> option string * St;
  ExpenseUpdate : Expense.t -> St -> option string * St;
  CreatePayer : Payer.t -> St -> option string * St;
  DeletePayers : string -> St -> option string * St;
  CreateSplit : Split.t -> St -> option string * St;
  DeleteSplits : string -> St -> option string * St;
  CreateReceiptItem : Item.t -> St -> option string * St;
  DeleteReceiptItems : string -> St -> option string * St;
  CreateReceiptItemAssignment : Assignment.t -> St -> option string * St
}.

(** *** Transactions (package database)

    A unit of work is a command on the store that may fail; [WithTx]
    commits its effect when it succeeds and restores the store when it
    fails.  Failures of [Begin] and [Commit] themselves are outside the
    model. *)
Definition Tx (St : Type) := St -> option error * St.

Definition txDone {St} : Tx St := fun s => (None, s).

Definition txThen {St} (m k : Tx St) : Tx St :=
  fun s => match m s with
           | (Some e, s') => (Some e, s')
           | (None, s') => k s'
           end.

Notation "m ;;; k" := (txThen m k) (at level 90, right associativity).

(** A repository command whose failure is wrapped in [DatabaseError]. *)
Definition repoCall {St} (op : St -> option string * St) (operation : string) : Tx St :=
  fun s => match op s with
           | (Some err, s') => (Some (appError (DatabaseError operation (errorString err))), s')
           | (None, s') => (None, s')
           end.

Definition WithTx {St} (fn : Tx St) (s : St) : option error * St :=
  match fn s with
  | (Some e, _) => (Some e, s)
  | (None, s') => (None, s')
  end.

Definition sumPaid (payers : list Payer.t) : float :=
  fold_left (fun acc p => (acc + Payer.AmountPaid p)%float) payers 0%float.

Definition sumSplit (splits : list Split.t) : float :=
  fold_left (fun acc sp => (acc + Split.Amount sp)%float) splits 0%float.

Definition validateExpenseAmounts (expense : Expense.t) (splits : list Split.t)
  : option AppError :=
  let totalPaid := sumPaid (Expense.Payers expense) in
  let roundedTotalPaid := round2 totalPaid in
  let roundedTotalAmount := round2 (Expense.TotalAmount expense) in
  if GoMath.gtb (GoMath.Abs (roundedTotalPaid - roundedTotalAmount)) AmountTolerance
  then Some (AmountMismatch roundedTotalPaid roundedTotalAmount "payer")
  else
    let totalSplit := sumSplit splits in
    let roundedTotalSplit := round2 totalSplit in
    if GoMath.gtb (GoMath.Abs (roundedTotalSplit - roundedTotalAmount)) AmountTolerance
    then Some (AmountMismatch roundedTotalSplit roundedTotalAmount "split")
    else None.

(** The loops of the unit of work; [n] counts the identifiers drawn. *)
Fixpoint createPayers {St} `{ExpenseRepository St} (rt : Runtime) (n : nat)
    (expenseID : string) (payers : list Payer.t) : Tx St :=
  match payers with
  | [] => txDone
  | p :: rest =>
      repoCall (CreatePayer {| Payer.ID := uuid rt n; Payer.ExpenseID := expenseID;
                               Payer.UserID := Payer.UserID p;
                               Payer.AmountPaid := Payer.AmountPaid p |})
               "creating expense payer" ;;;
      createPayers rt (S n) expenseID rest
  end.

Fixpoint createSplits {St} `{ExpenseRepository St} (rt : Runtime) (n : nat)
    (expenseID : string) (splits : list Split.t) : Tx St :=
  match splits with
  | [] => txDone
  | sp :: rest =>
      repoCall (CreateSplit {| Split.ID := uuid rt n; Split.ExpenseID := expenseID;
                               Split.UserID := Split.UserID sp;
                               Split.Amount := Split.Amount sp |})
               "creating expense split" ;;;
      createSplits rt (S n) expenseID rest
  end.

Fixpoint createAssignments {St} `{ExpenseRepository St} (rt : Runtime) (n : nat)
    (itemID : string) (assignments : list Assignment.t) : Tx St :=
  match assignments with
  | [] => txDone
  | a :: rest =>
      repoCall (CreateReceiptItemAssignment
                  {| Assignment.ID := uuid rt n; Assignment.ReceiptItemID := itemID;
                     Assignment.UserID := Assignment.UserID a |})
               "creating receipt item assignment" ;;;
      createAssignments rt (S n) itemID rest
  end.

Fixpoint createReceiptItems {St} `{ExpenseRepository St} (rt : Runtime) (n : nat)
    (expenseID : string) (items : list Item.t) : Tx St :=
  match items with
  | [] => txDone
  | it :: rest =>
      repoCall (CreateReceiptItem
                  {| Item.ID := uuid rt n; Item.ExpenseID := expenseID;
                     Item.Name := Item.Name it; Item.Price := Item.Price it;
                     Item.Assignments := Item.Assignments it |})
               "creating receipt item" ;;;
      createAssignments rt (S n) (uuid rt n) (Item.Assignments it) ;;;
      createReceiptItems rt (S n + length (Item.Assignments it)) expenseID rest
  end.

Definition withID (e : Expense.t) (id groupID : string) : Expense.t :=
  {| Expense.ID := id; Expense.GroupID := groupID;
     Expense.PaidByUserID := Expense.PaidByUserID e;
     Expense.TotalAmount := Expense.TotalAmount e;
     Expense.Description := Expense.Description e;
     Expense.Type_ := Expense.Type_ e; Expense.Category := Expense.Category e;
     Expense.DateISO := Expense.DateISO e; Expense.Date := Expense.Date e;
     Expense.Time := Expense.Time e; Expense.Payers := Expense.Payers e;
     Expense.ReceiptItems := Expense.ReceiptItems e |}.

Definition withCategoryType (e : Expense.t) (category type_ : string) : Expense.t :=
  {| Expense.ID := Expense.ID e; Expense.GroupID := Expense.GroupID e;
     Expense.PaidByUserID := Expense.PaidByUserID e;
     Expense.TotalAmount := Expense.TotalAmount e;
     Expense.Description := Expense.Description e;
     Expense.Type_ := type_; Expense.Category := category;
     Expense.DateISO := Expense.DateISO e; Expense.Date := Expense.Date e;
     Expense.Time := Expense.Time e; Expense.Payers := Expense.Payers e;
     Expense.ReceiptItems := Expense.ReceiptItems e |}.

Definition withDate (e : Expense.t) (iso : GoTime) (date time : string) : Expense.t :=
  {| Expense.ID := Expense.ID e; Expense.GroupID := Expense.GroupID e;
     Expense.PaidByUserID := Expense.PaidByUserID e;
     Expense.TotalAmount := Expense.TotalAmount e;
     Expense.Description := Expense.Description e;
     Expense.Type_ := Expense.Type_ e; Expense.Category := Expense.Category e;
     Expense.DateISO := iso; Expense.Date := date; Expense.Time := time;
     Expense.Payers := Expense.Payers e;
     Expense.ReceiptItems := Expense.ReceiptItems e |}.

Definition withPayers (e : Expense.t) (paidBy : option string) (payers : list Payer.t)
  : Expense.t :=
  {| Expense.ID := Expense.ID e; Expense.GroupID := Expense.GroupID e;
     Expense.PaidByUserID := paidBy;
     Expense.TotalAmount := Expense.TotalAmount e;
     Expense.Description := Expense.Description e;
     Expense.Type_ := Expense.Type_ e; Expense.Category := Expense.Category e;
     Expense.DateISO := Expense.DateISO e; Expense.Date := Expense.Date e;
     Expense.Time := Expense.Time e; Expense.Payers := payers;
     Expense.ReceiptItems := Expense.ReceiptItems e |}.

Definition orDefault (v dflt : string) : string :=
  if String.eqb v "" then dflt else v.

(** The single payer both [Create] and [Update] make up when the
    request names none. *)
Definition soloPayer (id expenseID userID : string) (amount : float) : Payer.t :=
  {| Payer.ID := id; Payer.ExpenseID := expenseID; Payer.UserID := userID;
     Payer.AmountPaid := amount |}.

(** [Create], up to the validation: the expense as it is validated and
    the number of identifiers drawn so far. *)
Definition prepareCreate (rt : Runtime) (userID : string) (expense : Expense.t)
  : Expense.t * nat :=
  let e1 := withID expense (uuid rt 0) (Expense.GroupID expense) in
  let e2 := if IsZero (Expense.DateISO e1)
            then withDate e1 (now rt) (format rt "2006-01-02" (now rt))
                          (format rt "15:04" (now rt))
            else e1 in
  let e3 := withCategoryType e2
              (orDefault (Expense.Category e2) TransactionCategoryExpense)
              (orDefault (Expense.Type_ e2) ExpenseTypeEqual) in
  match Expense.Payers e3 with
  | [] =>
      let paidBy := default userID (Expense.PaidByUserID e3) in
      (withPayers e3 (Some paidBy)
         [soloPayer (uuid rt 1) (Expense.ID e3) paidBy (Expense.TotalAmount e3)], 2)
  | _ :: _ => (e3, 1)
  end.

Definition ExpenseServiceCreate {St} `{GroupRepository St} `{ExpenseRepository St}
    (rt : Runtime) (userID : string) (expense : Expense.t) (splits : list Split.t)
    (s : St) : result Expense.t * St :=
  match RequireGroupMembership (Expense.GroupID expense) userID s with
  | Some err => (Fail (appError err), s)
  | None =>
      let '(e, n) := prepareCreate rt userID expense in
      match validateExpenseAmounts e splits with
      | Some err => (Fail (appError err), s)
      | None =>
          let work :=
            repoCall (ExpenseCreate e) "creating expense" ;;;
            createPayers rt n (Expense.ID e) (Expense.Payers e) ;;;
            createSplits rt (n + length (Expense.Payers e)) (Expense.ID e) splits ;;;
            createReceiptItems rt (n + length (Expense.Payers e) + length splits)
              (Expense.ID e) (Expense.ReceiptItems e) in
          match WithTx work s with
          | (Some err, s') => (Fail err, s')
          | (None, s') =>
              match ExpenseGetByID (Expense.ID e) s' with
              | inl err => (Fail (errorString err), s')
              | inr stored => (Ok stored, s')
              end
          end
      end
  end.

(** [Update], from the stored expense up to the validation. *)
Definition prepareUpdate (rt : Runtime) (expenseID : string)
    (existingExpense expense : Expense.t) : Expense.t * nat :=
  let e1 := withID expense expenseID (Expense.GroupID existingExpense) in
  let e2 := withCategoryType e1
              (orDefault (Expense.Category e1) (Expense.Category existingExpense))
              (orDefault (Expense.Type_ e1) (Expense.Type_ existingExpense)) in
  let e3 := if IsZero (Expense.DateISO e2)
            then withDate e2 (Expense.DateISO existingExpense)
                          (Expense.Date existingExpense) (Expense.Time existingExpense)
            else e2 in
  match Expense.Payers e3 with
  | [] =>
      let paidBy :=
        match Expense.PaidByUserID e3 with
        | None => Expense.PaidByUserID existingExpense
        | Some u => Some u
        end in
      match paidBy with
      | Some u =>
          (withPayers e3 paidBy
             [soloPayer (uuid rt 0) (Expense.ID e3) u (Expense.TotalAmount e3)], 1)
      | None => (withPayers e3 None [], 0)
      end
  | _ :: _ => (e3, 0)
  end.

Definition ExpenseServiceUpdate {St} `{GroupRepository St} `{ExpenseRepository St}
    (rt : Runtime) (expenseID userID : string) (expense : Expense.t)
    (splits : list Split.t) (s : St) : result Expense.t * St :=
  match ExpenseGetByID expenseID s with
  | inl err =>
      if IsNotFoundError err then (Fail (appError ExpenseNotFound), s)
      else (Fail (appError (DatabaseError "getting expense" (errorString err))), s)
  | inr existingExpense =>
      match RequireGroupMembership (Expense.GroupID existingExpense) userID s with
      | Some err => (Fail (appError err), s)
      | None =>
          let '(e, n) := prepareUpdate rt expenseID existingExpense expense in
          match validateExpenseAmounts e splits with
          | Some err => (Fail (appError err), s)
          | None =>
              let work :=
                repoCall (ExpenseUpdate e) "updating expense" ;;;
                repoCall (DeletePayers expenseID) "deleting existing payers" ;;;
                createPayers rt n expenseID (Expense.Payers e) ;;;
                repoCall (DeleteSplits expenseID) "deleting existing splits" ;;;
                createSplits rt (n + length (Expense.Payers e)) expenseID splits ;;;
                repoCall (DeleteReceiptItems expenseID) "deleting existing receipt items" ;;;
                createReceiptItems rt (n + length (Expense.Payers e) + length splits)
                  expenseID (Expense.ReceiptItems e) in
              match WithTx work s with
              | (Some err, s') => (Fail err, s')
              | (None, s') =>
                  match ExpenseGetByID expenseID s' with
                  | inl err => (Fail (errorString err), s')
                  | inr stored => (Ok stored, s')
                  end
              end
          end
      end
  end.

(** ** Import service: one Splitwise expense row (services/import_service.go) *)

Record SplitwiseRow := {
  RowDate : GoTime;
  RowDescription : string;
  RowCategory : string;
  Cost : float;
  RowCurrency : string;
  Balances : gmap string float
}.

(** First loop: [totalOwed += math.Abs(balance)] for the balances below
    [-AmountTolerance]. *)
Definition owedStep (totalOwed : float) (kv : string * float) : float :=
  if (snd kv <? - AmountTolerance)%float then (totalOwed + GoMath.Abs (snd kv))%float
  else totalOwed.

Definition totalOwedOf (entries : list (string * float)) : float :=
  fold_left owedStep entries 0%float.

(** Second loop: the payers and splits collected so far, and the number
    of identifiers drawn. *)
Record rowAcc := {
  accPayers : list Payer.t;
  accSplits : list Split.t;
  accDrawn : nat
}.

Definition memberStep (rt : Runtime) (expenseID : string) (payerShare : float)
    (memberMapping : gmap string string) (acc : rowAcc) (kv : string * float) : rowAcc :=
  match memberMapping !! fst kv with
  | None => acc
  | Some userID =>
      let balance := snd kv in
      let n := accDrawn acc in
      if GoMath.gtb balance AmountTolerance then
        let payers := accPayers acc ++
          [ {| Payer.ID := uuid rt n; Payer.ExpenseID := expenseID;
               Payer.UserID := userID; Payer.AmountPaid := (balance + payerShare)%float |} ] in
        if GoMath.gtb payerShare AmountTolerance then
          {| accPayers := payers;
             accSplits := accSplits acc ++
               [ {| Split.ID := uuid rt (S n); Split.ExpenseID := expenseID;
                    Split.UserID := userID; Split.Amount := payerShare |} ];
             accDrawn := S (S n) |}
        else {| accPayers := payers; accSplits := accSplits acc; accDrawn := S n |}
      else if (balance <? - AmountTolerance)%float then
        {| accPayers := accPayers acc;
           accSplits := accSplits acc ++
             [ {| Split.ID := uuid rt n; Split.ExpenseID := expenseID;
                  Split.UserID := userID; Split.Amount := GoMath.Abs balance |} ];
           accDrawn := S n |}
      else acc
  end.

(** Third loop, run when no payer was found: [maxPayer] and
    [maxBalance], which start as the empty string and 0. *)
Definition maxStep (acc : string * float) (kv : string * float) : string * float :=
  if GoMath.gtb (snd kv) (snd acc) then kv else acc.

Definition fallbackPayers (rt : Runtime) (n : nat) (expenseID : string) (cost : float)
    (memberMapping : gmap string string) (entries : list (string * float)) : list Payer.t :=
  let maxPayer := fst (fold_left maxStep entries ("", 0%float)) in
  if String.eqb maxPayer "" then []
  else
    match memberMapping !! maxPayer with
    | Some userID =>
        [ {| Payer.ID := uuid rt n; Payer.ExpenseID := expenseID;
             Payer.UserID := userID; Payer.AmountPaid := cost |} ]
    | None => []
    end.

(** The payers and splits [importExpenseRow] hands to the repository. *)
Definition rowPayersSplits `{MapOrder} (rt : Runtime) (row : SplitwiseRow)
    (memberMapping : gmap string string) : list Payer.t * list Split.t :=
  let expenseID := uuid rt 0 in
  let totalOwed := totalOwedOf (range "importExpenseRow:totalOwed" (Balances row)) in
  let payerShare := (Cost row - totalOwed)%float in
  let acc := fold_left (memberStep rt expenseID payerShare memberMapping)
               (range "importExpenseRow:members" (Balances row))
               {| accPayers := []; accSplits := []; accDrawn := 1 |} in
  let payers :=
    match accPayers acc with
    | [] => fallbackPayers rt (accDrawn acc) expenseID (Cost row) memberMapping
              (range "importExpenseRow:maxPayer" (Balances row))
    | _ :: _ => accPayers acc
    end in
  (payers, accSplits acc).

Fixpoint storePayers {St} `{ExpenseRepository St} (payers : list Payer.t) (s : St)
  : option string * St :=
  match payers with
  | [] => (None, s)
  | p :: rest =>
      match CreatePayer p s with
      | (Some err, s') => (Some ("creating payer: " ++ err)%string, s')
      | (None, s') => storePayers rest s'
      end
  end.

Fixpoint storeSplits {St} `{ExpenseRepository St} (splits : list Split.t) (s : St)
  : option string * St :=
  match splits with
  | [] => (None, s)
  | sp :: rest =>
      match CreateSplit sp s with
      | (Some err, s') => (Some ("creating split: " ++ err)%string, s')
      | (None, s') => storeSplits rest s'
      end
  end.

Definition importExpenseRow {St} `{MapOrder} `{ExpenseRepository St}
    (rt : Runtime) (groupID : string) (row : SplitwiseRow)
    (memberMapping : gmap string string) (s : St) : option string * St :=
  let '(payers, splits) := rowPayersSplits rt row memberMapping in
  let expense :=
    {| Expense.ID := uuid rt 0; Expense.GroupID := groupID;
       Expense.PaidByUserID := None; Expense.TotalAmount := Cost row;
       Expense.Description := RowDescription row;
       Expense.Type_ := ExpenseTypeEqual; Expense.Category := TransactionCategoryExpense;
       Expense.DateISO := RowDate row;
       Expense.Date := format rt "2006-01-02" (RowDate row);
       Expense.Time := "12:00"; Expense.Payers := payers;
       Expense.ReceiptItems := [] |} in
  match ExpenseCreate expense s with
  | (Some err, s') => (Some ("creating expense: " ++ err)%string, s')
  | (None, s1) =>
      match storePayers payers s1 with
      | (Some err, s') => (Some err, s')
      | (None, s2) => storeSplits splits s2
      end
  end.

(** ** Receipt service: cleaning the model's answer (services/import_service.go)

    The sanitiser indexes its argument byte by byte, so a Go string is
    the list of its bytes here. *)

Abbreviation bytes := (list ascii).

Definition backtick : ascii := "`"%char.
Definition backslash : ascii := "\"%char.
Definition dquote : ascii := Eval cbv in ascii_of_nat 34.
Definition space : ascii := " "%char.
Definition newline : ascii := Eval cbv in ascii_of_nat 10.
Definition tab : ascii := Eval cbv in ascii_of_nat 9.
Definition creturn : ascii := Eval cbv in ascii_of_nat 13.

Definition fence : bytes := [backtick; backtick; backtick].
Definition fenceJSON : bytes := fence ++ list_ascii_of_string "json".

(** [findString]: the first index at which [substr] occurs, or -1. *)
Fixpoint findFrom (fuel i : nat) (s substr : bytes) : Z :=
  match fuel with
  | O => (-1)%Z
  | S fuel' =>
      if bool_decide (take (length substr) (drop i s) = substr) then Z.of_nat i
      else findFrom fuel' (S i) s substr
  end.

Definition findString (s substr : bytes) : Z :=
  if (length s <? length substr)%nat then (-1)%Z
  else findFrom (length s - length substr + 1) 0 s substr.

(** [for len(text) > 0 && text[0] == '`' { text = text[1:] }] *)
Fixpoint trimLeading (text : bytes) : bytes :=
  match text with
  | c :: rest => if bool_decide (c = backtick) then trimLeading rest else text
  | [] => []
  end.

(** [for len(text) > 0 && text[len(text)-1] == '`' { text = text[:len(text)-1] }] *)
Fixpoint trimTrailing (fuel : nat) (text : bytes) : bytes :=
  match fuel with
  | O => text
  | S fuel' =>
      match last text with
      | Some c => if bool_decide (c = backtick)
                  then trimTrailing fuel' (take (length text - 1) text)
                  else text
      | None => text
      end
  end.

Definition removeMarkdownCodeBlocks (text : bytes) : bytes :=
  let idxJSON := findString text fenceJSON in
  let start :=
    if negb (idxJSON =? -1)%Z then Z.to_nat (idxJSON + 7)
    else
      let idx := findString text fence in
      if negb (idx =? -1)%Z then Z.to_nat (idx + 3) else 0 in
  let idxEnd := findString (drop start text) fence in
  let end_ := if negb (idxEnd =? -1)%Z then start + Z.to_nat idxEnd else length text in
  let text1 := take (end_ - start) (drop start text) in
  let text2 := trimLeading text1 in
  trimTrailing (length text2) text2.

Record wsState := { wsResult : bytes; inString : bool; escapeNext : bool }.

Definition isSpace (char : ascii) : bool :=
  bool_decide (char = space) || bool_decide (char = newline)
  || bool_decide (char = tab) || bool_decide (char = creturn).

(** One iteration of the loop of [removeWhitespace]. *)
Definition wsStep (st : wsState) (char : ascii) : wsState :=
  if escapeNext st then
    {| wsResult := wsResult st ++ [char]; inString := inString st; escapeNext := false |}
  else if bool_decide (char = backslash) then
    {| wsResult := wsResult st ++ [char]; inString := inString st; escapeNext := true |}
  else if bool_decide (char = dquote) then
    {| wsResult := wsResult st ++ [char]; inString := negb (inString st);
       escapeNext := false |}
  else if inString st then
    {| wsResult := wsResult st ++ [char]; inString := true; escapeNext := false |}
  else if negb (isSpace char) then
    {| wsResult := wsResult st ++ [char]; inString := false; escapeNext := false |}
  else st.

Definition removeWhitespace (text : bytes) : bytes :=
  wsResult (fold_left wsStep text
              {| wsResult := []; inString := false; escapeNext := false |}).


(** *** The sanitiser as the specification describes it

    The scan of the specification: every byte is marked with whether it
    lies inside a double-quoted string literal and whether it is escaped
    by the backslash before it.  The quotes that open and close a
    literal count as part of it. *)
Record mark := { markByte : ascii; inLiteral : bool; escaped : bool }.

Fixpoint scan (inStr esc : bool) (text : bytes) : list mark :=
  match text with
  | [] => []
  | c :: rest =>
      if esc then
        {| markByte := c; inLiteral := inStr; escaped := true |} :: scan inStr false rest
      else if bool_decide (c = backslash) then
        {| markByte := c; inLiteral := inStr; escaped := false |} :: scan inStr true rest
      else if bool_decide (c = dquote) then
        {| markByte := c; inLiteral := true; escaped := false |} :: scan (negb inStr) false rest
      else
        {| markByte := c; inLiteral := inStr; escaped := false |} :: scan inStr false rest
  end.



(** As the code does it: an escaped byte is kept wherever it stands. *)
Definition codeKeeps (m : mark) : bool :=
  inLiteral m || escaped m || negb (isSpace (markByte m)).

Definition keptBytes (text : bytes) : bytes :=
  map markByte (filter (fun m => codeKeeps m = true) (scan false false text)).

(** ** The tables behind the friend and comment repositories

    What the SQL of these repositories reads and writes, with the
    constraints of the migrations that decide its outcome.  The
    statements are assumed to reach the database: failures of the
    connection are outside the model. *)

Module User.
Record t := { ID : string; Email : string }.
End User.

Module Comment.
Record t := { ID : string; ExpenseID : string; UserID : string; CommentText : string }.
End Comment.

Module Reaction.
Record t := { ID : string; CommentID : string; UserID : string; Emoji : string }.
End Reaction.

Record Database := {
  users : list User.t;
  friends : list (string * string);
  group_members : list (string * string);
  expenses : list Expense.t;
  comments : list Comment.t;
  comment_reactions : list Reaction.t
}.

(** The text of a driver error: [ERROR: <message> (SQLSTATE <code>)]. *)
Definition pgError (message code : string) : string :=
  ("ERROR: " ++ message ++ " (SQLSTATE " ++ code ++ ")")%string.

Definition quoted (name : string) : string :=
  (String dquote name ++ String dquote EmptyString)%string.

Definition uniqueViolation (constraint : string) : string :=
  pgError ("duplicate key value violates unique constraint " ++ quoted constraint) "23505".

Definition foreignKeyViolation (table constraint : string) : string :=
  pgError ("insert or update on table " ++ quoted table
           ++ " violates foreign key constraint " ++ quoted constraint) "23503".

Definition checkViolation (table constraint : string) : string :=
  pgError ("new row for relation " ++ quoted table
           ++ " violates check constraint " ++ quoted constraint) "23514".

Definition ErrNoRows : string := "no rows in result set".

Definition userExists (db : Database) (id : string) : bool :=
  existsb (fun u => String.eqb (User.ID u) id) (users db).

(** *** repository: users and friends *)

(** [SELECT ... FROM users WHERE email = $1] *)
Definition userGetByEmail (email : string) (db : Database) : string + User.t :=
  match find (fun u => String.eqb (User.Email u) email) (users db) with
  | Some u => inr u
  | None => inl ("getting user by email: " ++ ErrNoRows)%string
  end.

Definition isFriendRow (userID friendID : string) (row : string * string) : bool :=
  String.eqb (fst row) userID && String.eqb (snd row) friendID.

(** [INSERT INTO friends (user_id, friend_id) VALUES ($1, $2)
    ON CONFLICT DO NOTHING]: the check constraint [different_users]
    first, then the primary key, on which a conflict skips the row, and
    the foreign keys to [users] for a row that was inserted. *)
Definition friendAdd (userID friendID : string) (db : Database) : option string * Database :=
  if String.eqb userID friendID then
    (Some ("adding friend: " ++ checkViolation "friends" "different_users")%string, db)
  else if existsb (isFriendRow userID friendID) (friends db) then (None, db)
  else if negb (userExists db userID) then
    (Some ("adding friend: " ++ foreignKeyViolation "friends" "friends_user_id_fkey")%string, db)
  else if negb (userExists db friendID) then
    (Some ("adding friend: " ++ foreignKeyViolation "friends" "friends_friend_id_fkey")%string, db)
  else
    (None, {| users := users db; friends := friends db ++ [(userID, friendID)];
              group_members := group_members db; expenses := expenses db;
              comments := comments db; comment_reactions := comment_reactions db |}).

(** *** Friend service (services/friend_service.go) *)

Definition AddFriendByEmail (userID email : string) (db : Database)
  : option AppError * Database :=
  match userGetByEmail email db with
  | inl err =>
      if IsNotFoundError err then (Some (UserNotFoundByEmail email), db)
      else (Some (DatabaseError "finding user by email" (errorString err)), db)
  | inr friendUser =>
      if String.eqb (User.ID friendUser) userID then
        (Some (CannotAddSelf "add as a friend"), db)
      else
        match friendAdd userID (User.ID friendUser) db with
        | (Some err, db') =>
            if IsDuplicateError err then (Some AlreadyFriends, db')
            else (Some (DatabaseError "adding friend" (errorString err)), db')
        | (None, db') => (None, db')
        end
  end.

(** *** repository: comments and reactions *)

(** [SELECT ... FROM comments WHERE id = $1] *)
Definition GetCommentByID (commentID : string) (db : Database) : string + Comment.t :=
  match find (fun c => String.eqb (Comment.ID c) commentID) (comments db) with
  | Some c => inr c
  | None => inl ("getting comment: " ++ ErrNoRows)%string
  end.

Definition sameReaction (commentID userID emoji : string) (r : Reaction.t) : bool :=
  String.eqb (Reaction.CommentID r) commentID && String.eqb (Reaction.UserID r) userID
  && String.eqb (Reaction.Emoji r) emoji.

(** [INSERT INTO comment_reactions ...]: the primary key, the
    uniqueness of (comment, user, emoji), then the foreign keys. *)
Definition reactionInsert (reaction : Reaction.t) (db : Database) : option string * Database :=
  if existsb (fun r => String.eqb (Reaction.ID r) (Reaction.ID reaction)) (comment_reactions db)
  then (Some ("adding reaction: " ++ uniqueViolation "comment_reactions_pkey")%string, db)
  else if existsb (sameReaction (Reaction.CommentID reaction) (Reaction.UserID reaction)
                     (Reaction.Emoji reaction)) (comment_reactions db)
  then (Some ("adding reaction: "
              ++ uniqueViolation "comment_reactions_comment_id_user_id_emoji_key")%string, db)
  else if negb (existsb (fun c => String.eqb (Comment.ID c) (Reaction.CommentID reaction))
                  (comments db))
  then (Some ("adding reaction: "
              ++ foreignKeyViolation "comment_reactions"
                   "comment_reactions_comment_id_fkey")%string, db)
  else if negb (userExists db (Reaction.UserID reaction))
  then (Some ("adding reaction: "
              ++ foreignKeyViolation "comment_reactions"
                   "comment_reactions_user_id_fkey")%string, db)
  else
    (None, {| users := users db; friends := friends db;
              group_members := group_members db; expenses := expenses db;
              comments := comments db;
              comment_reactions := comment_reactions db ++ [reaction] |}).

(** [DELETE FROM comment_reactions WHERE comment_id = $1 AND user_id = $2
    AND emoji = $3]: deleting no row is no error. *)
Definition reactionDelete (commentID userID emoji : string) (db : Database)
  : option string * Database :=
  (None, {| users := users db; friends := friends db;
            group_members := group_members db; expenses := expenses db;
            comments := comments db;
            comment_reactions :=
              List.filter (fun r => negb (sameReaction commentID userID emoji r))
                          (comment_reactions db) |}).

(** [SELECT ... FROM expenses WHERE id = $1] and
    [SELECT EXISTS(SELECT 1 FROM group_members WHERE ...)] *)
Definition dbExpenseGetByID (id : string) (db : Database) : string + Expense.t :=
  match find (fun e => String.eqb (Expense.ID e) id) (expenses db) with
  | Some e => inr e
  | None => inl ("getting expense by id: " ++ ErrNoRows)%string
  end.

Definition dbIsMember (groupID userID : string) (db : Database) : string + bool :=
  inr (existsb (fun m => String.eqb (fst m) groupID && String.eqb (snd m) userID)
               (group_members db)).

(** *** Comment service (services/comment_service.go) *)

Definition checkAccess (expenseID userID : string) (db : Database) : option AppError :=
  match dbExpenseGetByID expenseID db with
  | inl err =>
      if IsNotFoundError err then Some ExpenseNotFound
      else Some (DatabaseError "finding expense" (errorString err))
  | inr expense =>
      match dbIsMember (Expense.GroupID expense) userID db with
      | inl err => Some (DatabaseError "checking membership" (errorString err))
      | inr false => Some NotGroupMember
      | inr true => None
      end
  end.

(** [newID] is the string [uuid.New().String()] returned. *)
Definition AddReaction (newID commentID userID emoji : string) (db : Database)
  : option AppError * Database :=
  match GetCommentByID commentID db with
  | inl err => (Some (DatabaseError "finding comment" (errorString err)), db)
  | inr comment =>
      match checkAccess (Comment.ExpenseID comment) userID db with
      | Some err => (Some err, db)
      | None =>
          let reaction := {| Reaction.ID := newID; Reaction.CommentID := commentID;
                             Reaction.UserID := userID; Reaction.Emoji := emoji |} in
          match reactionInsert reaction db with
          | (Some err, db') =>
              if IsDuplicateError err then (None, db')
              else (Some (DatabaseError "adding reaction" (errorString err)), db')
          | (None, db') => (None, db')
          end
      end
  end.

Definition RemoveReaction (commentID userID emoji : string) (db : Database)
  : option AppError * Database :=
  match reactionDelete commentID userID emoji db with
  | (Some err, db') => (Some (DatabaseError "removing reaction" (errorString err)), db')
  | (None, db') => (None, db')
  end.

(** The members a heap entry or a settlement may name, and the currency
    a settlement carries. *)
Definition knownMember (K : list string) (p : personBalance) : Prop := userID p ∈ K.

Definition edgeWithin (K : list string) (currency : string) (e : Settlement) : Prop :=
  Currency e = currency /\ FromUserID e ∈ K /\ ToUserID e ∈ K.

(** ** In-memory repositories, as the mocks of the test suites *)

Record mockStore := {
  mockMember : bool;
  mockBalances : gmap string (gmap string float);
  mockExpenses : list Expense.t;
  mockSplits : list Split.t;
  mockDeleted : list string
}.

Definition mockWith (s : mockStore) (es : list Expense.t) (sps : list Split.t) : mockStore :=
  {| mockMember := mockMember s; mockBalances := mockBalances s;
     mockExpenses := es; mockSplits := sps; mockDeleted := mockDeleted s |}.

#[export] Instance mockGroupRepo : GroupRepository mockStore :=
  {| IsMember := fun _ _ s => inr (mockMember s);
     GroupDelete := fun groupID s =>
       (None, {| mockMember := mockMember s; mockBalances := mockBalances s;
                 mockExpenses := mockExpenses s; mockSplits := mockSplits s;
                 mockDeleted := groupID :: mockDeleted s |}) |}.

#[export] Instance mockBalanceRepo : BalanceRepository mockStore :=
  {| GetGroupMemberBalances := fun _ s => inr (mockBalances s) |}.

Definition mockFind (id : string) (s : mockStore) : string + Expense.t :=
  match find (fun e => String.eqb (Expense.ID e) id) (mockExpenses s) with
  | Some e => inr e
  | None => inl "getting expense by id: no rows in result set"
  end.

#[export] Instance mockExpenseRepo : ExpenseRepository mockStore :=
  {| ExpenseGetByID := mockFind;
     ExpenseCreate := fun e s => (None, mockWith s (mockExpenses s ++ [e]) (mockSplits s));
     ExpenseUpdate := fun e s =>
       (None, mockWith s
                (map (fun old => if String.eqb (Expense.ID old) (Expense.ID e) then e else old)
                     (mockExpenses s)) (mockSplits s));
     CreatePayer := fun _ s => (None, s);
     DeletePayers := fun _ s => (None, s);
     CreateSplit := fun sp s => (None, mockWith s (mockExpenses s) (mockSplits s ++ [sp]));
     DeleteSplits := fun id s =>
       (None, mockWith s (mockExpenses s)
                (List.filter (fun sp => negb (String.eqb (Split.ExpenseID sp) id)) (mockSplits s)));
     CreateReceiptItem := fun _ s => (None, s);
     DeleteReceiptItems := fun _ s => (None, s);
     CreateReceiptItemAssignment := fun _ s => (None, s) |}.

Definition mockOf (balances : gmap string (gmap string float)) : mockStore :=
  {| mockMember := true; mockBalances := balances; mockExpenses := [];
     mockSplits := []; mockDeleted := [] |}.

(** ** Data of the test suites

    services/settlement_service_test.go and
    services/expense_service_test.go. *)
Definition simpleCase : gmap string float :=
  <["A" := 10.00%float]> (<["B" := (-10.00)%float]> ∅).

Definition residueCase : gmap string float :=
  <["A" := 0.0000000000000001%float]> (<["B" := (-0.0000000000000001)%float]> ∅).

Definition multiCurrencyCase : gmap string (gmap string float) :=
  <["A" := <["INR" := 100.00%float]> (<["USD" := 50.00%float]> ∅)]>
    (<["B" := <["INR" := (-100.00)%float]> (<["USD" := (-50.00)%float]> ∅)]> ∅).

(** A balance of magnitude below the threshold of 0.01. *)
Definition belowThreshold (b : float) : Prop := (abs b <? 0.01)%float = true.

Definition edge (from to : string) (amount : float) (currency : string) : Settlement :=
  {| FromUserID := from; ToUserID := to; Amount := amount; Currency := currency |}.

(** Two rounded amounts agree within the tolerance of 0.001. *)
Definition withinTolerance (a b : float) : Prop :=
  (abs (a - b) <=? AmountTolerance)%float = true.

Definition testPayer (userID : string) (amount : float) : Payer.t :=
  {| Payer.ID := ""; Payer.ExpenseID := ""; Payer.UserID := userID; Payer.AmountPaid := amount |}.

Definition testSplit (userID : string) (amount : float) : Split.t :=
  {| Split.ID := ""; Split.ExpenseID := ""; Split.UserID := userID; Split.Amount := amount |}.

Definition testExpense (total : float) (paidBy : option string) (payers : list Payer.t)
  : Expense.t :=
  {| Expense.ID := ""; Expense.GroupID := ""; Expense.PaidByUserID := paidBy;
     Expense.TotalAmount := total; Expense.Description := "";
     Expense.Type_ := ""; Expense.Category := ""; Expense.DateISO := 0%Z;
     Expense.Date := ""; Expense.Time := ""; Expense.Payers := payers;
     Expense.ReceiptItems := [] |}.

Definition onePays10 : Expense.t := testExpense 10.00%float None [testPayer "A" 10.00%float].

Definition twoPay999 : Expense.t :=
  testExpense 10.00%float None [testPayer "A" 5.00%float; testPayer "B" 4.99%float].

Definition thirds : list Split.t :=
  [testSplit "A" 3.33%float; testSplit "B" 3.33%float; testSplit "C" 3.34%float].

Definition thirdsShort : list Split.t :=
  [testSplit "A" 3.33%float; testSplit "B" 3.33%float; testSplit "C" 3.33%float].

Definition halves : list Split.t := [testSplit "A" 5.00%float; testSplit "B" 5.00%float].

Definition testRuntime : Runtime :=
  {| uuid := fun n => String (ascii_of_nat (48 + n)) EmptyString;
     now := 1%Z; format := fun layout _ => layout |}.

(** A stored expense without a paid-by user, and an update that names
    neither payers nor a paid-by user. *)
Definition orphanExpense : Expense.t :=
  {| Expense.ID := "e1"; Expense.GroupID := "g1"; Expense.PaidByUserID := None;
     Expense.TotalAmount := 10.00%float; Expense.Description := "dinner";
     Expense.Type_ := "EQUAL"; Expense.Category := "EXPENSE"; Expense.DateISO := 1%Z;
     Expense.Date := "2024-01-01"; Expense.Time := "12:00"; Expense.Payers := [];
     Expense.ReceiptItems := [] |}.

Definition orphanStore : mockStore :=
  {| mockMember := true; mockBalances := ∅; mockExpenses := [orphanExpense];
     mockSplits := []; mockDeleted := [] |}.

(** Balances that are settled up to a cent, and balances that are not. *)
Definition settledCase : gmap string (gmap string float) :=
  <["A" := <["INR" := 0.004%float]> ∅]> (<["B" := <["INR" := (-0.004)%float]> ∅]> ∅).





(** The position of a number in the order of the floats: its class
    (infinities, negative, zero, positive), then exponent and mantissa,
    negated for negative numbers. *)
Definition orderKey (x : spec_float) : Z * Z * Z :=
  match x with
  | S754_zero _ => (0, 0, 0)
  | S754_infinity true => (-2, 0, 0)
  | S754_infinity false => (2, 0, 0)
  | S754_nan => (3, 0, 0)
  | S754_finite true m e => (-1, - e, - Zpos m)
  | S754_finite false m e => (1, e, Zpos m)
  end%Z.

Definition keyLt (a b : Z * Z * Z) : Prop :=
  (fst (fst a) < fst (fst b) \/
   (fst (fst a) = fst (fst b) /\
    (snd (fst a) < snd (fst b) \/ (snd (fst a) = snd (fst b) /\ snd a < snd b))))%Z.

(** A database with two users, a group, an expense and a comment. *)
Definition demoDB : Database :=
  {| users := [ {| User.ID := "u1"; User.Email := "ann@example.org" |};
                {| User.ID := "u2"; User.Email := "bob@example.org" |} ];
     friends := [];
     group_members := [("g1", "u1"); ("g1", "u2")];
     expenses := [orphanExpense];
     comments := [ {| Comment.ID := "c1"; Comment.ExpenseID := "e1";
                      Comment.UserID := "u2"; Comment.CommentText := "thanks" |} ];
     comment_reactions := [] |}.

Definition thumbsUp : string := "+1".

(** [id] is the identifier of no stored reaction, as for a string
    [uuid.New()] has just returned. *)
Definition freshReactionID (id : string) (db : Database) : Prop :=
  existsb (fun r => String.eqb (Reaction.ID r) id) (comment_reactions db) = false.

Definition hasReaction (commentID userID emoji : string) (db : Database) : Prop :=
  existsb (sameReaction commentID userID emoji) (comment_reactions db) = true.

Definition befriendedDB : Database :=
  {| users := users demoDB; friends := [("u1", "u2")];
     group_members := group_members demoDB; expenses := expenses demoDB;
     comments := comments demoDB; comment_reactions := [] |}.

Definition reactedDB : Database :=
  {| users := users demoDB; friends := [];
     group_members := group_members demoDB; expenses := expenses demoDB;
     comments := comments demoDB;
     comment_reactions := [ {| Reaction.ID := "r1"; Reaction.CommentID := "c1";
                               Reaction.UserID := "u2"; Reaction.Emoji := thumbsUp |} ] |}.

(** [substr] occurs in [s] at index [i]. *)
Definition occursAt (substr s : bytes) (i : nat) : Prop :=
  take (length substr) (drop i s) = substr.



(** ** Who may appear in a settlement

    The members the first loop of [calculateSettlementsForCurrency]
    puts on the creditor heap and on the debtor heap. *)
Definition isCreditor (balances : gmap string float) (u : string) : Prop :=
  exists b, balances !! u = Some b /\ GoMath.gtb (round2 b) BalanceThreshold = true.

Definition isDebtor (balances : gmap string float) (u : string) : Prop :=
  exists b, balances !! u = Some b /\ (round2 b <? - BalanceThreshold)%float = true.

(** A settlement from a debtor to a creditor, of a two-decimal amount
    above the threshold. *)
Definition properEdge (C D : string -> Prop) (currency : string) (e : Settlement) : Prop :=
  D (FromUserID e) /\ C (ToUserID e) /\ Currency e = currency /\
  GoMath.gtb (Amount e) BalanceThreshold = true /\ exists x, Amount e = round2 x.

(** Three members: A is owed 30, B and C owe 20 and 10. *)
Definition threeMembers : gmap string float :=
  <["A" := 30.00%float]> (<["B" := (-20.00)%float]> (<["C" := (-10.00)%float]> ∅)).

(** A request that names neither payers nor a paid-by user. *)
Definition lunchRequest : Expense.t := testExpense 12.50%float None [].

(** ** Group service: reading a group and removing a member
    (services/group_service.go) *)

Definition GroupNotFound : AppError :=
  {| Type_ := ErrorTypeNotFound; Code := "NOT_FOUND_003";
     Message := [Text "Group not found."]; Details := ""; Err := None |}.

Definition CannotRemoveMemberWithBalance (balance : float) : AppError :=
  {| Type_ := ErrorTypeUnprocessable; Code := "BUSINESS_004";
     Message := [Text "Cannot remove member with outstanding balance of $";
                 Fixed2 balance; Text "."];
     Details := "This balance must be settled first."; Err := None |}.

(** [models.User] and [models.Group], with the fields the service
    reads or writes. *)
Module Member.
Record t := { ID : string; Name : string; Balance : float }.
End Member.

Module Group.
Record t := {
  ID : string;
  Name : string;
  Members : list Member.t;
  Balances : list Balance;
  TotalSpend : float;
  HasDebts : bool
}.
End Group.

(** The other operations of the group and expense repositories that
    these two services call. *)
Class GroupDetailRepository (St : Type) := {
  GroupGetByID : string -> St -> string + Group.t;
  GroupRemoveMember : string -> string -> St -> option string * St;
  GetGroupTotalSpend : string -> St -> string + float
}.

(** The inner loop of [GetByID]: the first balance of the member, if
    there is one, becomes the member's balance. *)
Definition withMemberBalance (balances : list Balance) (m : Member.t) : Member.t :=
  match find (fun b => String.eqb (BalanceUserID b) (Member.ID m)) balances with
  | Some b => {| Member.ID := Member.ID m; Member.Name := Member.Name m;
                 Member.Balance := OwedAmount b |}
  | None => m
  end.

Definition GroupServiceGetByID {St} `{MapOrder} `{GroupRepository St} `{BalanceRepository St}
    `{GroupDetailRepository St} (groupID userID : string) (s : St) : result Group.t :=
  match RequireGroupMembership groupID userID s with
  | Some err => Fail (appError err)
  | None =>
      match GroupGetByID groupID s with
      | inl err =>
          if IsNotFoundError err then Fail (appError GroupNotFound)
          else Fail (appError (DatabaseError "getting group" (errorString err)))
      | inr group =>
          match calculateBalances groupID s with
          | Fail err => Fail (appError (DatabaseError "calculating balances" err))
          | Ok balances =>
              match GetGroupTotalSpend groupID s with
              | inl err =>
                  Fail (appError (DatabaseError "getting total spend" (errorString err)))
              | inr totalSpend =>
                  Ok {| Group.ID := Group.ID group; Group.Name := Group.Name group;
                        Group.Members := map (withMemberBalance balances) (Group.Members group);
                        Group.Balances := balances;
                        Group.TotalSpend := round2 totalSpend;
                        Group.HasDebts :=
                          existsb (fun b => GoMath.gtb (GoMath.Abs (OwedAmount b))
                                                       BalanceThreshold) balances |}
              end
          end
      end
  end.

Definition GroupServiceRemoveMember {St} `{MapOrder} `{GroupRepository St}
    `{BalanceRepository St} `{GroupDetailRepository St}
    (groupID userID memberToRemoveID : string) (s : St) : option error * St :=
  match RequireGroupMembership groupID userID s with
  | Some err => (Some (appError err), s)
  | None =>
      match calculateBalances groupID s with
      | Fail err => (Some (appError (DatabaseError "calculating balances" err)), s)
      | Ok balances =>
          match find (fun b => String.eqb (BalanceUserID b) memberToRemoveID
                               && GoMath.gtb (GoMath.Abs (OwedAmount b)) BalanceThreshold)
                     balances with
          | Some b => (Some (appError (CannotRemoveMemberWithBalance (OwedAmount b))), s)
          | None =>
              match GroupRemoveMember groupID memberToRemoveID s with
              | (Some err, s') =>
                  (Some (appError (DatabaseError "removing member" (errorString err))), s')
              | (None, s') => (None, s')
              end
          end
      end
  end.

#[export] Instance mockGroupDetailRepo : GroupDetailRepository mockStore :=
  {| GroupGetByID := fun groupID _ =>
       inr {| Group.ID := groupID; Group.Name := "flat";
              Group.Members := [ {| Member.ID := "A"; Member.Name := "Ann";
                                    Member.Balance := 0%float |};
                                 {| Member.ID := "B"; Member.Name := "Bob";
                                    Member.Balance := 0%float |} ];
              Group.Balances := []; Group.TotalSpend := 0%float; Group.HasDebts := false |};
     GroupRemoveMember := fun _ memberID s =>
       (None, {| mockMember := mockMember s; mockBalances := mockBalances s;
                 mockExpenses := mockExpenses s; mockSplits := mockSplits s;
                 mockDeleted := memberID :: mockDeleted s |});
     GetGroupTotalSpend := fun _ _ => inr 200.00%float |}.

(** A owes nothing in USD and is owed 100 in INR by B. *)
Definition oneDebtCase : gmap string (gmap string float) :=
  <["A" := <["INR" := 100.00%float]> ∅]> (<["B" := <["INR" := (-100.00)%float]> ∅]> ∅).

(** ** Comments (repository/comment_repository.go,
    services/comment_service.go) *)

Definition Unauthorized (message : string) : AppError :=
  {| Type_ := ErrorTypeUnauthorized; Code := "AUTH_001";
     Message := [Text message]; Details := ""; Err := None |}.

(** The condition of [CreateComment]'s insert:
    [EXISTS (SELECT 1 FROM expenses e JOIN group_members gm
             ON gm.group_id = e.group_id WHERE e.id = $2 AND gm.user_id = $3)]. *)
Definition memberOfExpense (expenseID userID : string) (db : Database) : bool :=
  existsb (fun e => String.eqb (Expense.ID e) expenseID
                    && existsb (fun gm => String.eqb (fst gm) (Expense.GroupID e)
                                          && String.eqb (snd gm) userID)
                               (group_members db))
          (expenses db).

(** [CreateComment]: no row is inserted, and none returned, when the
    condition fails; a row that is inserted must have a new primary key
    and a user that exists (its expense exists by the condition). *)
Definition commentInsert (comment : Comment.t) (db : Database) : option string * Database :=
  if negb (memberOfExpense (Comment.ExpenseID comment) (Comment.UserID comment) db)
  then (Some "user not authorized or expense not found", db)
  else if existsb (fun c => String.eqb (Comment.ID c) (Comment.ID comment)) (comments db)
  then (Some ("creating comment: " ++ uniqueViolation "comments_pkey")%string, db)
  else if negb (userExists db (Comment.UserID comment))
  then (Some ("creating comment: "
              ++ foreignKeyViolation "comments" "comments_user_id_fkey")%string, db)
  else
    (None, {| users := users db; friends := friends db;
              group_members := group_members db; expenses := expenses db;
              comments := comments db ++ [comment];
              comment_reactions := comment_reactions db |}).

(** [DELETE FROM comments WHERE id = $1]; the reactions of a deleted
    comment go with it ([ON DELETE CASCADE]). *)
Definition commentDelete (commentID : string) (db : Database) : option string * Database :=
  (None, {| users := users db; friends := friends db;
            group_members := group_members db; expenses := expenses db;
            comments := List.filter (fun c => negb (String.eqb (Comment.ID c) commentID))
                                    (comments db);
            comment_reactions :=
              List.filter (fun r => negb (String.eqb (Reaction.CommentID r) commentID))
                          (comment_reactions db) |}).

Definition AddComment (newID expenseID userID text : string) (db : Database)
  : result Comment.t * Database :=
  match checkAccess expenseID userID db with
  | Some err => (Fail (appError err), db)
  | None =>
      let comment := {| Comment.ID := newID; Comment.ExpenseID := expenseID;
                        Comment.UserID := userID; Comment.CommentText := text |} in
      match commentInsert comment db with
      | (Some err, db') =>
          (Fail (appError (DatabaseError "creating comment" (errorString err))), db')
      | (None, db') => (Ok comment, db')
      end
  end.

Definition DeleteComment (commentID userID : string) (db : Database)
  : option AppError * Database :=
  match GetCommentByID commentID db with
  | inl err => (Some (DatabaseError "finding comment" (errorString err)), db)
  | inr comment =>
      if negb (String.eqb (Comment.UserID comment) userID)
      then (Some (Unauthorized "You can only delete your own comments"), db)
      else
        match commentDelete commentID db with
        | (Some err, db') => (Some (DatabaseError "deleting comment" (errorString err)), db')
        | (None, db') => (None, db')
        end
  end.

(** No stored comment has the identifier [id]. *)
Definition freshCommentID (id : string) (db : Database) : Prop :=
  existsb (fun c => String.eqb (Comment.ID c) id) (comments db) = false.

(** A database in which a third user, Cy, is in no group. *)
Definition outsiderDB : Database :=
  {| users := users demoDB ++ [ {| User.ID := "u3"; User.Email := "cy@example.org" |} ];
     friends := []; group_members := group_members demoDB; expenses := expenses demoDB;
     comments := comments demoDB; comment_reactions := [] |}.

(** ** Import service: one Splitwise payment row
    (services/import_service.go) *)





(** A mapped member of the row whose balance is above the tolerance, or
    below its negation. *)
Definition paidBy (row : SplitwiseRow) (memberMapping : gmap string string) (u : string) : Prop :=
  exists name b, Balances row !! name = Some b /\ memberMapping !! name = Some u /\
                 GoMath.gtb b AmountTolerance = true.


(** ** Group service: adding a member (services/group_service.go)

    The tables of the friend and comment repositories, with the
    identifiers of the stored groups beside them. *)

Definition AlreadyMember : AppError :=
  {| Type_ := ErrorTypeConflict; Code := "CONFLICT_003";
     Message := [Text "User is already a member of this group."];
     Details := ""; Err := None |}.

Record GroupTables := { tables : Database; groups : list string }.

Definition isMemberRow (groupID userID : string) (row : string * string) : bool :=
  String.eqb (fst row) groupID && String.eqb (snd row) userID.

(** [INSERT INTO group_members (group_id, user_id, created_at)
    VALUES ($1, $2, NOW()) ON CONFLICT (group_id, user_id) DO NOTHING]:
    a conflict on the primary key skips the row; a row that is inserted
    must name a stored group and a stored user. *)
Definition groupAddMember (groupID userID : string) (g : GroupTables)
  : option string * GroupTables :=
  if existsb (isMemberRow groupID userID) (group_members (tables g)) then (None, g)
  else if negb (existsb (String.eqb groupID) (groups g)) then
    (Some ("adding member to group: "
           ++ foreignKeyViolation "group_members" "group_members_group_id_fkey")%string, g)
  else if negb (userExists (tables g) userID) then
    (Some ("adding member to group: "
           ++ foreignKeyViolation "group_members" "group_members_user_id_fkey")%string, g)
  else
    (None, {| tables :=
                {| users := users (tables g); friends := friends (tables g);
                   group_members := group_members (tables g) ++ [(groupID, userID)];
                   expenses := expenses (tables g); comments := comments (tables g);
                   comment_reactions := comment_reactions (tables g) |};
              groups := groups g |}).

Definition GroupServiceAddMember (groupID userID newMemberEmail : string) (g : GroupTables)
  : option AppError * GroupTables :=
  match dbIsMember groupID userID (tables g) with
  | inl err => (Some (DatabaseError "checking membership" (errorString err)), g)
  | inr false => (Some NotGroupMember, g)
  | inr true =>
      match userGetByEmail newMemberEmail (tables g) with
      | inl err =>
          if IsNotFoundError err then (Some (UserNotFoundByEmail newMemberEmail), g)
          else (Some (DatabaseError "finding user by email" (errorString err)), g)
      | inr user =>
          match groupAddMember groupID (User.ID user) g with
          | (Some err, g') =>
              if IsDuplicateError err then (Some AlreadyMember, g')
              else (Some (DatabaseError "adding member" (errorString err)), g')
          | (None, g') => (None, g')
          end
      end
  end.

Definition demoGroups : GroupTables := {| tables := demoDB; groups := ["g1"] |}.

(** ** Friends: reading and removing (package repository,
    services/friend_service.go) *)

(** [SELECT EXISTS(SELECT 1 FROM friends WHERE user_id = $1 AND friend_id = $2)] *)
Definition friendIsFriend (userID friendID : string) (db : Database) : string + bool :=
  inr (existsb (isFriendRow userID friendID) (friends db)).

(** [DELETE FROM friends WHERE user_id = $1 AND friend_id = $2] *)
Definition friendRemove (userID friendID : string) (db : Database) : option string * Database :=
  (None, {| users := users db;
            friends := List.filter (fun row => negb (isFriendRow userID friendID row))
                                   (friends db);
            group_members := group_members db; expenses := expenses db;
            comments := comments db; comment_reactions := comment_reactions db |}).

Definition RemoveFriend (userID friendID : string) (db : Database)
  : option AppError * Database :=
  match friendRemove userID friendID db with
  | (Some err, db') => (Some (DatabaseError "removing friend" (errorString err)), db')
  | (None, db') => (None, db')
  end.

(** ** The order of the balance heaps *)

(** The balance at index [k] of a heap, NaN past its end: [Heap.Less h i j]
    compares [balanceAt h i] with [balanceAt h j]. *)
Definition balanceAt (h : balanceHeap) (k : nat) : float :=
  match h !! k with
  | Some x => balance x
  | None => nan
  end.

(** The index [heap.up] compares with. *)
Definition parent (j : nat) : nat := (j - 1) / 2.

(** The first [n] entries are in heap order: none is above its parent. *)
Definition heapOrdered (h : balanceHeap) (n : nat) : Prop :=
  forall c, 0 < c < n -> GoMath.gtb (balanceAt h c) (balanceAt h (parent c)) = false.

(** What [heap.up] at [j] starts from: heap order but for the entry at [j],
    whose children are not above its parent. *)
Definition orderedButUp (h : balanceHeap) (j n : nat) : Prop :=
  (forall c, 0 < c < n -> c <> j ->
     GoMath.gtb (balanceAt h c) (balanceAt h (parent c)) = false) /\
  (forall c, 0 < c < n -> parent c = j -> 0 < j ->
     GoMath.gtb (balanceAt h c) (balanceAt h (parent j)) = false).

(** What [heap.down] at [i] starts from: heap order but for the children
    of [i], which are not above the parent of [i]. *)
Definition orderedButDown (h : balanceHeap) (i n : nat) : Prop :=
  (forall c, 0 < c < n -> parent c <> i ->
     GoMath.gtb (balanceAt h c) (balanceAt h (parent c)) = false) /\
  (forall c, 0 < c < n -> parent c = i -> 0 < i ->
     GoMath.gtb (balanceAt h c) (balanceAt h (parent i)) = false).

Definition isNumber (p : personBalance) : Prop := Prim2SF (balance p) <> S754_nan.

(** A heap of numbers in heap order. *)
Definition maxHeap (h : balanceHeap) : Prop :=
  Forall isNumber h /\ heapOrdered h (length h).

(** [x] is an entry of [h] that no entry of [h] is above. *)
Definition largestOf (h : balanceHeap) (x : personBalance) : Prop :=
  In x h /\ forall y, In y h -> GoMath.gtb (balance y) (balance x) = false.

(** An amount of 1e307 paid for by 5e306 and split as 2e306: each of the
    three, times 100, is beyond the largest [float64]. *)
Definition overflowExpense : Expense.t :=
  testExpense 1e307%float None [testPayer "A" 5e306%float].

Definition overflowSplits : list Split.t := [testSplit "B" 2e306%float].

(** Two rounded amounts whose difference is not a number: one of them is
    not a number, or both are the same infinity. *)
Definition notComparable (a b : float) : Prop :=
  Prim2SF a = S754_nan \/ Prim2SF b = S754_nan \/
  exists s, Prim2SF a = S754_infinity s /\ Prim2SF b = S754_infinity s.

(** ** The segment the sanitiser keeps *)






(** ** Constants of the binary64 format used in the proofs

    The mantissas of the floats 0.01 and 100 (their exponents are -59
    and -46), and the exponent by which values are scaled to integers. *)
Definition m001 : positive := 5764607523034235.
Definition m100 : positive := 7036874417766400.
Definition SC : Z := 1200.

(** * Properties *)

(** ** Binary64 arithmetic

    Facts about the specification of the primitive floats
    ([SpecFloat]): shifting, rounding and the size of mantissas. *)

Section Binary64.

Local Open Scope Z_scope.

Lemma digits2_size p : digits2_pos p = Pos.size p.
Proof. induction p; simpl; congruence. Qed.

Lemma shr_1_m mrs : 0 <= shr_m mrs -> shr_m (shr_1 mrs) = Z.div2 (shr_m mrs).
Proof.
  destruct mrs as [m r s]; simpl. intros Hm.
  destruct m as [|p|p]; [reflexivity| |lia].
  destruct p; reflexivity.
Qed.

Lemma iter_shr_m p : forall mrs, 0 <= shr_m mrs ->
  shr_m (SpecFloat.iter_pos shr_1 p mrs) = Z.shiftr (shr_m mrs) (Zpos p).
Proof.
  induction p as [p IH|p IH|]; intros mrs Hm; simpl SpecFloat.iter_pos.
  - assert (H1 : 0 <= shr_m (shr_1 mrs)).
    { rewrite shr_1_m by assumption. rewrite Z.div2_nonneg. assumption. }
    assert (H2 : 0 <= shr_m (SpecFloat.iter_pos shr_1 p (shr_1 mrs))).
    { rewrite IH by assumption. apply Z.shiftr_nonneg. assumption. }
    rewrite IH by assumption. rewrite IH by assumption.
    rewrite shr_1_m by assumption. rewrite Z.div2_spec.
    rewrite !Z.shiftr_shiftr by lia. f_equal. lia.
  - assert (H2 : 0 <= shr_m (SpecFloat.iter_pos shr_1 p mrs)).
    { rewrite IH by assumption. apply Z.shiftr_nonneg. assumption. }
    rewrite IH by assumption. rewrite IH by assumption.
    rewrite !Z.shiftr_shiftr by lia. f_equal. lia.
  - rewrite shr_1_m by assumption. apply Z.div2_spec.
Qed.

Lemma shr_m_e mrs e n : 0 <= shr_m mrs -> 0 <= n ->
  exists mrs', shr mrs e n = (mrs', e + n) /\ shr_m mrs' = Z.shiftr (shr_m mrs) n.
Proof.
  intros Hm Hn. destruct n as [|p|p]; simpl.
  - eexists; split; [rewrite Z.add_0_r; reflexivity | reflexivity].
  - eexists; split; [reflexivity | apply iter_shr_m; assumption].
  - lia.
Qed.

Lemma shr_m_neg mrs e n : n <= 0 -> shr mrs e n = (mrs, e).
Proof. destruct n; simpl; auto; lia. Qed.

Lemma rne_bounds m l : m <= round_nearest_even m l <= m + 1.
Proof. destruct l as [|[| |]]; simpl; try lia. destruct (Z.even m); lia. Qed.

Lemma shiftr_mul_le m k : 0 <= m -> 0 <= k -> Z.shiftr m k * 2 ^ k <= m.
Proof.
  intros Hm Hk. rewrite Z.shiftr_div_pow2 by assumption.
  assert (0 < 2 ^ k) by (apply Z.pow_pos_nonneg; lia).
  rewrite Z.mul_comm. apply Z.mul_div_le. assumption.
Qed.


(** What [binary_round_aux] returns on a positive mantissa: some mantissa
    and exponent whose value exceeds the exact value by at most one unit
    in the last place. *)
Lemma bra_bound s P E :
  let e1 := Z.max (Zpos (Pos.size P) + E - 53) (-1074) in
  - SC <= E -> E <= e1 ->
  exists m3 e3, 0 <= m3 /\ e1 <= e3 /\
    m3 * 2 ^ (e3 + SC) <= Zpos P * 2 ^ (E + SC) + 2 ^ (e1 + SC) /\
    binary_round_aux prec emax s (Zpos P) E loc_Exact =
      match m3 with
      | Z0 => S754_zero s
      | Zpos m => if e3 <=? emax - prec then S754_finite s m e3 else S754_infinity s
      | Zneg _ => S754_nan
      end.
Proof.
  intros e1 HE Hk.
  unfold binary_round_aux, shr_fexp.
  assert (Hfexp : fexp prec emax (Zdigits2 (Zpos P) + E) - E = e1 - E).
  { unfold fexp, SpecFloat.emin, Zdigits2. rewrite digits2_size. reflexivity. }
  rewrite Hfexp. simpl shr_record_of_loc.
  destruct (shr_m_e {| shr_m := Zpos P; shr_r := false; shr_s := false |} E (e1 - E))
    as (mrs' & Hshr & Hm1); [simpl; lia | lia |].
  rewrite Hshr. replace (E + (e1 - E)) with e1 by lia. simpl in Hm1.
  set (m1 := shr_m mrs') in *.
  assert (Hm1pos : 0 <= m1) by (rewrite Hm1; apply Z.shiftr_nonneg; lia).
  set (m2 := round_nearest_even m1 (loc_of_shr_record mrs')).
  pose proof (rne_bounds m1 (loc_of_shr_record mrs')) as Hm2. fold m2 in Hm2.
  set (k2 := fexp prec emax (Zdigits2 m2 + e1) - e1).
  assert (exists mrs'' , shr {| shr_m := m2; shr_r := false; shr_s := false |} e1 k2
            = (mrs'', e1 + Z.max k2 0) /\ shr_m mrs'' = Z.shiftr m2 (Z.max k2 0))
    as (mrs'' & Hshr2 & Hm3).
  { destruct (Z.le_gt_cases 0 k2) as [Hk2|Hk2].
    - rewrite Z.max_l by lia. apply shr_m_e; simpl; lia.
    - rewrite Z.max_r by lia. rewrite shr_m_neg by lia.
      eexists; split; [rewrite Z.add_0_r; reflexivity | reflexivity]. }
  rewrite Hshr2.
  exists (shr_m mrs''), (e1 + Z.max k2 0).
  assert (H0 : 0 <= Z.max k2 0) by lia.
  assert (Hm3pos : 0 <= shr_m mrs'') by (rewrite Hm3; apply Z.shiftr_nonneg; lia).
  pose proof (eq_refl (e1 + Z.max k2 0)) as He3.
  split; [assumption|]. split; [lia|]. split.
  - (* value bound *)
    replace (e1 + Z.max k2 0 + SC) with (Z.max k2 0 + (e1 + SC)) by lia.
    assert (Hs : 0 <= e1 + SC) by (unfold SC in *; lia).
    rewrite Z.pow_add_r by lia.
    assert (Hp1 : 0 < 2 ^ (e1 + SC)) by (apply Z.pow_pos_nonneg; lia).
    assert (Ha : shr_m mrs'' * 2 ^ Z.max k2 0 <= m2).
    { rewrite Hm3. apply shiftr_mul_le; lia. }
    assert (Hb : m1 * 2 ^ (e1 - E) <= Zpos P).
    { rewrite Hm1. apply shiftr_mul_le; lia. }
    assert (Hp2 : 0 < 2 ^ (E + SC)) by (apply Z.pow_pos_nonneg; unfold SC in *; lia).
    assert (Hc : m1 * 2 ^ (e1 + SC) <= Zpos P * 2 ^ (E + SC)).
    { replace (e1 + SC) with ((e1 - E) + (E + SC)) by lia.
      rewrite Z.pow_add_r by (unfold SC in *; lia).
      rewrite Z.mul_assoc. apply Z.mul_le_mono_nonneg_r; lia. }
    assert (Hd : shr_m mrs'' * 2 ^ Z.max k2 0 * 2 ^ (e1 + SC) <= m2 * 2 ^ (e1 + SC)).
    { apply Z.mul_le_mono_nonneg_r; lia. }
    assert (He : m2 * 2 ^ (e1 + SC) <= (m1 + 1) * 2 ^ (e1 + SC)).
    { apply Z.mul_le_mono_nonneg_r; lia. }
    rewrite Z.mul_assoc. lia.
  - destruct (shr_m mrs''); reflexivity.
Qed.

Lemma size_bounds (p : positive) :
  2 ^ (Zpos (Pos.size p) - 1) <= Zpos p < 2 ^ Zpos (Pos.size p).
Proof.
  pose proof (Pos.size_gt p) as Hgt. pose proof (Pos.size_le p) as Hle.
  apply Pos2Z.pos_lt_pos in Hgt. apply Pos2Z.pos_le_pos in Hle.
  rewrite Pos2Z.inj_pow in Hgt, Hle. change (Zpos 2) with 2 in *.
  split; [|assumption].
  replace (Zpos (Pos.size p)) with (1 + (Zpos (Pos.size p) - 1)) in Hle by lia.
  rewrite Z.pow_add_r in Hle by lia. change (2 ^ 1) with 2 in Hle. lia.
Qed.

Lemma size_le_of_lt (p : positive) n : 0 <= n -> Zpos p < 2 ^ n -> Zpos (Pos.size p) <= n.
Proof.
  intros Hn Hp. destruct (size_bounds p) as [Hlo _].
  destruct (Z.le_gt_cases (Zpos (Pos.size p)) n) as [|Hgt]; [assumption|exfalso].
  assert (2 ^ n <= 2 ^ (Zpos (Pos.size p) - 1)) by (apply Z.pow_le_mono_r; lia). lia.
Qed.

Lemma size_ge_of_le (p : positive) n : 0 <= n -> 2 ^ n <= Zpos p -> n < Zpos (Pos.size p).
Proof.
  intros Hn Hp. destruct (size_bounds p) as [_ Hhi].
  destruct (Z.lt_ge_cases n (Zpos (Pos.size p))) as [|Hge]; [assumption|exfalso].
  assert (2 ^ Zpos (Pos.size p) <= 2 ^ n) by (apply Z.pow_le_mono_r; lia). lia.
Qed.

(** A valid binary64 mantissa and exponent. *)
Lemma bounded_inv m e : bounded prec emax m e = true ->
  -1074 <= e <= 971 /\ Zpos (Pos.size m) <= 53 /\ (e = -1074 \/ Zpos (Pos.size m) = 53).
Proof.
  unfold bounded, canonical_mantissa, fexp, SpecFloat.emin. rewrite digits2_size.
  intros H. apply andb_prop in H. destruct H as [H1 H2].
  apply Z.eqb_eq in H1. apply Z.leb_le in H2.
  change (emax - prec) with 971 in H2. change prec with 53 in H1. change (3 - emax - 53) with (-1074) in H1.
  lia.
Qed.

Lemma leb_finite_001 s m e :
  SFleb (SFabs (S754_finite s m e)) (S754_finite false m001 (-59)) = true ->
  e < -59 \/ (e = -59 /\ Zpos m <= Zpos m001).
Proof.
  unfold SFleb, SFabs, SFcompare.
  destruct (Z.compare_spec e (-59)) as [He|He|He]; intros H; try discriminate.
  - right. split; [assumption|]. apply Pos2Z.pos_le_pos.
    destruct (Pos.compare_cont Eq m m001) eqn:Hc; try discriminate.
    + apply Pos.compare_eq in Hc. rewrite Hc. apply Pos.le_refl.
    + apply Pos.compare_lt_iff in Hc. apply Pos.lt_le_incl. exact Hc.
  - left. assumption.
Qed.

Lemma pow2_split a b : 0 <= a -> 0 <= b -> 2 ^ (a + b) = 2 ^ a * 2 ^ b.
Proof. intros. apply Z.pow_add_r; assumption. Qed.

(** The exact product of an amount of magnitude at most 0.01 by 100,
    plus one unit in the last place, stays below 1.5. *)
Lemma value_small m e :
  -1074 <= e -> Zpos (Pos.size m) <= 53 ->
  e < -59 \/ (e = -59 /\ Zpos m <= Zpos m001) ->
  let P := (m * m100)%positive in
  let E := e + -46 in
  let e1 := Z.max (Zpos (Pos.size P) + E - 53) (-1074) in
  E <= e1 /\ Zpos P * 2 ^ (E + SC) + 2 ^ (e1 + SC) < 3 * 2 ^ (SC - 1).
Proof.
  intros Hlo Hsz Hcmp P E e1.
  assert (Hm : Zpos m < 2 ^ 53).
  { destruct (size_bounds m) as [_ H].
    assert (2 ^ Zpos (Pos.size m) <= 2 ^ 53) by (apply Z.pow_le_mono_r; lia). lia. }
  assert (HP : Zpos P = Zpos m * Zpos m100) by reflexivity.
  assert (Hm100 : Zpos m100 = 25 * 2 ^ 48) by reflexivity.
  assert (HszP : 53 <= Zpos (Pos.size P) <= 106).
  { split.
    - assert (52 < Zpos (Pos.size P)); [|lia].
      apply size_ge_of_le; [lia|]. rewrite HP, Hm100. 
      assert (1 <= Zpos m) by lia. change (2 ^ 52) with (1 * (16 * 2 ^ 48)). nia.
    - apply size_le_of_lt; [lia|]. rewrite HP, Hm100.
      change (2 ^ 106) with (2 ^ 53 * (32 * 2 ^ 48)). nia. }
  split; [unfold e1, E; lia|].
  set (T := 2 ^ (SC - 106)).
  assert (HT : 0 < T) by (apply Z.pow_pos_nonneg; unfold SC; lia).
  assert (H3 : 3 * 2 ^ (SC - 1) = 3 * 2 ^ 105 * T).
  { unfold T. replace (SC - 1) with (105 + (SC - 106)) by lia.
    rewrite pow2_split by (unfold SC; lia). ring. }
  rewrite H3.
  destruct Hcmp as [He|[He Hle']].
  - assert (Hu : 2 ^ (e1 + SC) <= 2 ^ 53 * T).
    { unfold T. rewrite <- pow2_split by (unfold SC; lia).
      apply Z.pow_le_mono_r; [lia|]. unfold e1, E, SC. lia. }
    assert (Hv : 2 ^ (E + SC) <= T).
    { unfold T. apply Z.pow_le_mono_r; [lia|]. unfold E, SC. lia. }
    assert (Hw : Zpos P * 2 ^ (E + SC) <= Zpos P * T).
    { apply Z.mul_le_mono_nonneg_l; lia. }
    assert (Hx : Zpos P * T <= (2 ^ 53 * (25 * 2 ^ 48)) * T).
    { apply Z.mul_le_mono_nonneg_r; [lia|]. rewrite HP, Hm100. nia. }
    assert (Hy : (2 ^ 53 * (25 * 2 ^ 48)) * T + 2 ^ 53 * T < 3 * 2 ^ 105 * T).
    { rewrite <- Z.mul_add_distr_r. apply Z.mul_lt_mono_pos_r; [assumption|]. reflexivity. }
    lia.
  - assert (Hu : 2 ^ (e1 + SC) <= 2 ^ 54 * T).
    { unfold T. rewrite <- pow2_split by (unfold SC; lia).
      apply Z.pow_le_mono_r; [lia|]. unfold e1, E, SC. lia. }
    assert (Hv : 2 ^ (E + SC) = 2 * T).
    { unfold T, E. subst e. replace (-59 + -46 + SC) with (1 + (SC - 106)) by lia.
      rewrite pow2_split by (unfold SC; lia). reflexivity. }
    rewrite Hv.
    assert (Hx : Zpos P * (2 * T) <= (Zpos m001 * Zpos m100 * 2) * T).
    { rewrite HP. replace (Zpos m * Zpos m100 * (2 * T)) with ((Zpos m * Zpos m100 * 2) * T) by ring.
      apply Z.mul_le_mono_nonneg_r; [lia|].
      apply Z.mul_le_mono_nonneg_r; [lia|]. apply Z.mul_le_mono_nonneg_r; [lia|]. exact Hle'. }
    assert (Hy : (Zpos m001 * Zpos m100 * 2) * T + 2 ^ 54 * T < 3 * 2 ^ 105 * T).
    { rewrite <- Z.mul_add_distr_r. apply Z.mul_lt_mono_pos_r; [assumption|]. reflexivity. }
    lia.
Qed.

Lemma mul100_small v : (abs v <=? 0.01)%float = true ->
  match Prim2SF (v * 100)%float with
  | S754_zero _ => True
  | S754_finite _ m e => e <= -53 \/ (e = -52 /\ Zpos m < 3 * 2 ^ 51)
  | _ => False
  end.
Proof.
  intros H. rewrite FloatAxioms.leb_spec, FloatAxioms.abs_spec in H.
  change (Prim2SF 0.01) with (S754_finite false m001 (-59)) in H.
  pose proof (Prim2SF_valid v) as Hv. pose proof (Prim2SF_valid (v * 100)) as Hy.
  rewrite FloatAxioms.mul_spec in *. change (Prim2SF 100) with (S754_finite false m100 (-46)) in *.
  destruct (Prim2SF v) as [s|s| |s m e]; try discriminate H.
  - exact I.
  - apply leb_finite_001 in H. apply bounded_inv in Hv. destruct Hv as (He & Hsz & _).
    unfold SF64mul, SFmul in *.
    destruct (value_small m e) as [Hk Hb]; [lia|assumption|assumption|].
    destruct (bra_bound (xorb s false) (m * m100) (e + -46)) as (m3 & e3 & H0 & He13 & Hbound & Heq);
      [unfold SC; lia | exact Hk |].
    rewrite Heq in *. clear Heq.
    assert (Hs : 0 <= e3 + SC) by (unfold SC in *; lia).
    destruct m3 as [|p|p]; [exact I| |lia].
    assert (H3 : 3 * 2 ^ (SC - 1) = 3 * 2 ^ 51 * 2 ^ (SC - 52)).
    { replace (SC - 1) with (51 + (SC - 52)) by lia.
      rewrite pow2_split by (unfold SC; lia). ring. }
    assert (HX : 0 < 2 ^ (SC - 52)) by (apply Z.pow_pos_nonneg; unfold SC; lia).
    assert (Hbig : forall c, 0 <= c -> 2 ^ c <= Zpos p -> 1 <= c + e3 -> False).
    { intros c Hc Hp Hge.
      assert (H1 : 2 ^ (SC + 1) <= 2 ^ (c + (e3 + SC))) by (apply Z.pow_le_mono_r; unfold SC; lia).
      assert (H2 : 2 ^ (SC + 1) = 2 ^ 53 * 2 ^ (SC - 52)).
      { replace (SC + 1) with (53 + (SC - 52)) by lia.
        rewrite pow2_split by (unfold SC; lia). reflexivity. }
      rewrite (pow2_split c (e3 + SC)) in H1 by lia.
      assert (H4 : 2 ^ c * 2 ^ (e3 + SC) <= Zpos p * 2 ^ (e3 + SC)).
      { apply Z.mul_le_mono_nonneg_r; [apply Z.pow_nonneg|]; lia. }
      revert H1 H4 Hbound Hb. rewrite H3, H2.
      generalize (Zpos p * 2 ^ (e3 + SC)) (2 ^ c * 2 ^ (e3 + SC)) (2 ^ (SC - 52)) HX. 
      change (2 ^ 53) with 9007199254740992. change (2 ^ 51) with 2251799813685248.
      intros; lia. }
    change (emax - prec) with 971 in *.
    destruct (e3 <=? 971) eqn:Hle.
    + apply bounded_inv in Hy. destruct Hy as (_ & _ & [Hsub|Hnorm]); [left; lia|].
      destruct (size_bounds p) as [Hlo _]. rewrite Hnorm in Hlo. change (53 - 1) with 52 in Hlo.
      assert (He3 : e3 <= -52).
      { destruct (Z.le_gt_cases e3 (-52)) as [|Hgt]; [assumption|exfalso]. apply (Hbig 52); [lia|assumption|lia]. }
      destruct (Z.eq_dec e3 (-52)) as [->|Hne]; [right; split; [reflexivity|] | left; lia].
      replace (-52 + SC) with (SC - 52) in Hbound by lia.
      rewrite H3 in Hb.
      assert (Hlt : Zpos p * 2 ^ (SC - 52) < 3 * 2 ^ 51 * 2 ^ (SC - 52)) by lia.
      apply Z.mul_lt_mono_pos_r in Hlt; assumption.
    + apply Z.leb_gt in Hle. apply (Hbig 0); [lia|simpl; lia|lia].
Qed.

Lemma Round_small y :
  match Prim2SF y with
  | S754_zero _ => True
  | S754_finite _ m e => e <= -53 \/ (e = -52 /\ Zpos m < 3 * 2 ^ 51)
  | _ => False
  end ->
  GoMath.Round y = 0%float \/ GoMath.Round y = (-0)%float \/ GoMath.Round y = 1%float \/ GoMath.Round y = (-1)%float.
Proof.
  intros H. pose proof (SF2Prim_Prim2SF y) as Hy. pose proof (Prim2SF_valid y) as Hv.
  unfold GoMath.Round. destruct (Prim2SF y) as [s|s| |s m e]; try contradiction.
  - rewrite <- Hy. destruct s; simpl; auto.
  - clear Hy. apply bounded_inv in Hv. destruct Hv as (He & Hsz & _).
    assert (Hneg : (0 <=? e) = false) by (apply Z.leb_gt; lia).
    rewrite Hneg.
    assert (Hm : Zpos m < 2 ^ 53).
    { destruct (size_bounds m) as [_ Hhi].
      assert (2 ^ Zpos (Pos.size m) <= 2 ^ 53) by (apply Z.pow_le_mono_r; lia). lia. }
    set (n := Z.shiftr (Zpos m + Z.shiftl 1 (- e - 1)) (- e)).
    assert (Hn : n = 0 \/ n = 1).
    { unfold n. rewrite Z.shiftl_1_l, Z.shiftr_div_pow2 by lia.
      assert (Hp : 0 < 2 ^ (- e - 1)) by (apply Z.pow_pos_nonneg; lia).
      assert (H2 : 2 ^ (- e) = 2 * 2 ^ (- e - 1)).
      { replace (- e) with (1 + (- e - 1)) at 1 by lia. rewrite pow2_split by lia. reflexivity. }
      assert (Hlt : Zpos m + 2 ^ (- e - 1) < 2 * 2 ^ (- e)).
      { destruct H as [Hle|[-> Hlt]].
        - assert (2 ^ 53 <= 2 ^ (- e)) by (apply Z.pow_le_mono_r; lia). lia.
        - change (2 ^ (- -52 - 1)) with (2 ^ 51). change (2 ^ (- -52)) with (2 * 2 ^ 51). lia. }
      assert (0 <= (Zpos m + 2 ^ (- e - 1)) / 2 ^ (- e)) by (apply Z.div_pos; lia).
      assert ((Zpos m + 2 ^ (- e - 1)) / 2 ^ (- e) < 2) by (apply Z.div_lt_upper_bound; lia).
      lia. }
    destruct Hn as [-> | ->]; destruct s; simpl; auto.
Qed.

(** An amount of magnitude at most 0.01 rounds to 0 or to 0.01 in
    magnitude; it never exceeds the balance threshold. *)
Lemma round2_small v : (abs v <=? 0.01)%float = true ->
  round2 v = 0%float \/ round2 v = (-0)%float \/
  round2 v = 0.01%float \/ round2 v = (-0.01)%float.
Proof.
  intros H. unfold round2, RoundingFactor.
  destruct (Round_small (v * 100)%float (mul100_small v H)) as [-> | [-> | [-> | ->]]];
    vm_compute; auto.
Qed.

Lemma round2_small_below v : (abs v <=? 0.01)%float = true ->
  GoMath.gtb (round2 v) BalanceThreshold = false /\
  (round2 v <? - BalanceThreshold)%float = false /\
  GoMath.gtb (GoMath.Abs (round2 v)) BalanceThreshold = false.
Proof.
  intros H. destruct (round2_small v H) as [-> | [-> | [-> | ->]]];
    repeat split; reflexivity.
Qed.

Lemma ltb_leb a b : (a <? b)%float = true -> (a <=? b)%float = true.
Proof.
  rewrite FloatAxioms.ltb_spec, FloatAxioms.leb_spec. unfold SFltb, SFleb.
  destruct (SFcompare (Prim2SF a) (Prim2SF b)) as [[]|]; congruence.
Qed.

(** Subtracting a float from itself gives +0, or NaN for an infinity
    or a NaN. *)
Lemma sub_diag x : (x - x = 0 \/ x - x = nan)%float.
Proof.
  assert (H : Prim2SF (x - x) = S754_zero false \/ Prim2SF (x - x) = S754_nan).
  { rewrite FloatAxioms.sub_spec. unfold SF64sub, SFsub.
    destruct (Prim2SF x) as [[]|[]| |s m e]; auto.
    rewrite Z.sub_diag. left. reflexivity. }
  destruct H as [H|H]; [left|right]; apply Prim2SF_inj; rewrite H; reflexivity.
Qed.

Lemma sub_nan_r x : (x - nan)%float = nan.
Proof.
  apply Prim2SF_inj. rewrite FloatAxioms.sub_spec.
  change (Prim2SF nan) with S754_nan. unfold SF64sub, SFsub.
  destruct (Prim2SF x) as [[]|[]| |s m e]; reflexivity.
Qed.

Lemma eqb_neg_infinity x : (x =? neg_infinity)%float = true -> x = neg_infinity.
Proof.
  rewrite FloatAxioms.eqb_spec. change (Prim2SF neg_infinity) with (S754_infinity true).
  intros H. apply Prim2SF_inj. change (Prim2SF neg_infinity) with (S754_infinity true).
  unfold SFeqb, SFcompare in H.
  destruct (Prim2SF x) as [[]|[]| |[] m e]; try discriminate; reflexivity.
Qed.

(** [0 - x] and [x] have the same magnitude. *)
Lemma abs_zero_sub x : abs (0 - x)%float = abs x.
Proof.
  apply Prim2SF_inj. rewrite !FloatAxioms.abs_spec, FloatAxioms.sub_spec.
  change (Prim2SF 0) with (S754_zero false). unfold SF64sub, SFsub.
  destruct (Prim2SF x) as [[]|[]| |s m e]; reflexivity.
Qed.

(** A finite float is a zero or has a mantissa and an exponent. *)
Lemma is_finite_inv x : is_finite x = true ->
  match Prim2SF x with
  | S754_zero _ | S754_finite _ _ _ => True
  | _ => False
  end.
Proof.
  unfold is_finite, is_nan, is_infinity.
  rewrite !FloatAxioms.eqb_spec, FloatAxioms.abs_spec.
  change (Prim2SF infinity) with (S754_infinity false).
  destruct (Prim2SF x) as [s|[]| |s m e]; simpl; intros H; try exact I; discriminate.
Qed.

Lemma sub_diag_finite x : is_finite x = true -> (x - x)%float = 0%float.
Proof.
  intros H. apply is_finite_inv in H. apply Prim2SF_inj.
  rewrite FloatAxioms.sub_spec. unfold SF64sub, SFsub.
  destruct (Prim2SF x) as [[]|[]| |s m e]; try contradiction; try reflexivity.
  rewrite Z.sub_diag. reflexivity.
Qed.

End Binary64.

(** ** container/heap: sizes and contents *)

Lemma up_S fuel h j :
  Heap.up (S fuel) h j =
    if ((j - 1) / 2 =? j)%nat || negb (Heap.Less h j ((j - 1) / 2)) then h
    else Heap.up fuel (Heap.Swap h ((j - 1) / 2) j) ((j - 1) / 2).
Proof. reflexivity. Qed.

Lemma down_S fuel h i n :
  Heap.down (S fuel) h i n =
    if (n <=? 2 * i + 1)%nat then h
    else
      let j := if (2 * i + 1 + 1 <? n)%nat && Heap.Less h (2 * i + 1 + 1) (2 * i + 1)
               then 2 * i + 1 + 1 else 2 * i + 1 in
      if negb (Heap.Less h j i) then h
      else Heap.down fuel (Heap.Swap h i j) j n.
Proof. reflexivity. Qed.

Section HeapFacts.

Variable P : personBalance -> Prop.

Lemma Swap_length h i j : length (Heap.Swap h i j) = length h.
Proof.
  unfold Heap.Swap. destruct (h !! i), (h !! j); try reflexivity.
  rewrite !length_insert. reflexivity.
Qed.

Lemma Swap_Forall h i j : Forall P h -> Forall P (Heap.Swap h i j).
Proof.
  intros Hall. unfold Heap.Swap.
  destruct (h !! i) as [a|] eqn:Hi; [|assumption].
  destruct (h !! j) as [b|] eqn:Hj; [|assumption].
  apply Forall_insert; [apply Forall_insert; [assumption|]|].
  - eapply Forall_lookup_1; eassumption.
  - eapply Forall_lookup_1; eassumption.
Qed.

Lemma up_length fuel : forall h j, length (Heap.up fuel h j) = length h.
Proof.
  induction fuel as [|fuel IH]; intros h j; [reflexivity|]. rewrite up_S.
  destruct (_ || _); [reflexivity|]. rewrite IH. apply Swap_length.
Qed.

Lemma up_Forall fuel : forall h j, Forall P h -> Forall P (Heap.up fuel h j).
Proof.
  induction fuel as [|fuel IH]; intros h j Hall; [assumption|]. rewrite up_S.
  destruct (_ || _); [assumption|]. apply IH, Swap_Forall, Hall.
Qed.

Lemma down_length fuel : forall h i n, length (Heap.down fuel h i n) = length h.
Proof.
  induction fuel as [|fuel IH]; intros h i n; [reflexivity|]. rewrite down_S.
  destruct (_ <=? _)%nat; [reflexivity|]. cbv zeta.
  destruct (negb _); [reflexivity|]. rewrite IH. apply Swap_length.
Qed.

Lemma down_Forall fuel : forall h i n, Forall P h -> Forall P (Heap.down fuel h i n).
Proof.
  induction fuel as [|fuel IH]; intros h i n Hall; [assumption|]. rewrite down_S.
  destruct (_ <=? _)%nat; [assumption|]. cbv zeta.
  destruct (negb _); [assumption|]. apply IH, Swap_Forall, Hall.
Qed.

Lemma Push_length h x : length (Heap.Push h x) = S (length h).
Proof. unfold Heap.Push. rewrite up_length, length_app. simpl. lia. Qed.

Lemma Push_Forall h x : Forall P h -> P x -> Forall P (Heap.Push h x).
Proof.
  intros Hall Hx. unfold Heap.Push. apply up_Forall.
  apply Forall_app. split; [assumption | constructor; [assumption | constructor]].
Qed.

Lemma Pop_Some h x h' :
  Heap.Pop h = Some (x, h') -> length h = S (length h') /\ (Forall P h -> P x /\ Forall P h').
Proof.
  unfold Heap.Pop. set (n := length h - 1).
  set (h2 := Heap.down (length h) (Heap.Swap h 0 n) 0 n).
  destruct (h2 !! n) as [y|] eqn:Hn; [|discriminate].
  intros Heq. injection Heq as <- <-.
  assert (Hlen : length h2 = length h) by (unfold h2; rewrite down_length; apply Swap_length).
  apply lookup_lt_Some in Hn as Hlt. split.
  - rewrite length_take. lia.
  - intros Hall.
    assert (Hall2 : Forall P h2) by (apply down_Forall, Swap_Forall, Hall).
    split; [eapply Forall_lookup_1; eassumption | apply Forall_take; assumption].
Qed.

Lemma Pop_None h : Heap.Pop h = None <-> h = [].
Proof.
  unfold Heap.Pop. set (n := length h - 1).
  set (h2 := Heap.down (length h) (Heap.Swap h 0 n) 0 n).
  assert (Hlen : length h2 = length h) by (unfold h2; rewrite down_length; apply Swap_length).
  split.
  - destruct (h2 !! n) as [y|] eqn:Hn; [discriminate|]. intros _.
    apply lookup_ge_None in Hn. destruct h; [reflexivity|]. simpl in *. lia.
  - intros ->. reflexivity.
Qed.

End HeapFacts.

(** The loops of [heap.up] and [heap.down] end before the fuel does:
    more fuel changes nothing. *)
Lemma up_fuel_enough fuel : forall h j, j < fuel -> Heap.up fuel h j = Heap.up (S fuel) h j.
Proof.
  induction fuel as [|fuel IH]; intros h j Hj; [lia|].
  rewrite (up_S (S fuel)), (up_S fuel).
  destruct (((j - 1) / 2 =? j)%nat) eqn:Heq; [reflexivity|].
  simpl orb. destruct (negb _); [reflexivity|].
  apply IH. apply Nat.eqb_neq in Heq.
  assert ((j - 1) / 2 <= j - 1) by (apply Nat.Div0.div_le_upper_bound; lia). lia.
Qed.

Lemma down_fuel_enough fuel : forall h i n,
  n - i <= fuel -> Heap.down fuel h i n = Heap.down (S fuel) h i n.
Proof.
  induction fuel as [|fuel IH]; intros h i n Hn.
  - rewrite down_S. change (Heap.down 0 h i n) with h.
    destruct (n <=? 2 * i + 1)%nat eqn:Hle; [reflexivity|].
    apply Nat.leb_gt in Hle. lia.
  - rewrite (down_S (S fuel)), (down_S fuel).
    destruct (n <=? 2 * i + 1)%nat eqn:Hle; [reflexivity|].
    cbv zeta. destruct (negb _); [reflexivity|]. apply IH.
    apply Nat.leb_gt in Hle. destruct (_ && _); lia.
Qed.

(** ** The settlement loop *)

(** After one iteration at least one of the two popped balances is not
    above the threshold any more: [amount] is one of them, and a float
    minus itself is +0 or NaN. *)
Lemma round2_zero_below : GoMath.gtb (round2 0%float) BalanceThreshold = false.
Proof. reflexivity. Qed.

Lemma round2_nan_below : GoMath.gtb (round2 nan) BalanceThreshold = false.
Proof. reflexivity. Qed.

Lemma sub_self_below x : GoMath.gtb (round2 (x - x)%float) BalanceThreshold = false.
Proof. destruct (sub_diag x) as [-> | ->]; reflexivity. Qed.

Lemma Min_drops c d :
  GoMath.gtb (round2 (c - GoMath.Min c d)%float) BalanceThreshold = false \/
  GoMath.gtb (round2 (d - GoMath.Min c d)%float) BalanceThreshold = false.
Proof.
  unfold GoMath.Min.
  destruct (GoMath.IsNegInf c) eqn:Hc.
  { left. apply eqb_neg_infinity in Hc. subst c. reflexivity. }
  destruct (GoMath.IsNegInf d) eqn:Hd.
  { right. apply eqb_neg_infinity in Hd. subst d. reflexivity. }
  simpl orb. destruct (is_nan c || is_nan d).
  { left. rewrite sub_nan_r. reflexivity. }
  destruct ((c =? 0)%float && (c =? d)%float).
  { destruct (GoMath.Signbit c); [left | right]; apply sub_self_below. }
  destruct (c <? d)%float; [left | right]; apply sub_self_below.
Qed.

Lemma settleStep_None currency st :
  settleStep currency st = None <-> creditorHeap st = [] \/ debtorHeap st = [].
Proof.
  unfold settleStep. split.
  - destruct (Heap.Pop (creditorHeap st)) as [[c ch]|] eqn:Hc.
    + destruct (Heap.Pop (debtorHeap st)) as [[d dh]|] eqn:Hd; [discriminate|].
      intros _. right. apply Pop_None. assumption.
    + intros _. left. apply Pop_None. assumption.
  - intros [H | H].
    + apply Pop_None in H. rewrite H. reflexivity.
    + apply Pop_None in H. rewrite H. destruct (Heap.Pop (creditorHeap st)) as [[c ch]|]; reflexivity.
Qed.

Lemma settleStep_decreases currency st st' :
  settleStep currency st = Some st' -> heapEntries st' < heapEntries st.
Proof.
  unfold settleStep, heapEntries.
  destruct (Heap.Pop (creditorHeap st)) as [[c ch]|] eqn:Hc; [|discriminate].
  destruct (Heap.Pop (debtorHeap st)) as [[d dh]|] eqn:Hd; [|discriminate].
  apply (Pop_Some (fun _ => True)) in Hc as [Hlc _].
  apply (Pop_Some (fun _ => True)) in Hd as [Hld _].
  intros Heq. injection Heq as <-. simpl. rewrite Hlc, Hld.
  pose proof (Min_drops (balance c) (balance d)) as Hdrop.
  destruct (GoMath.gtb (round2 (balance c - _)) BalanceThreshold) eqn:Ec;
    destruct (GoMath.gtb (round2 (balance d - _)) BalanceThreshold) eqn:Ed;
    rewrite ?Push_length; first [lia | destruct Hdrop; discriminate].
Qed.

Lemma partitionEntry_twoDecimals st kv :
  Forall twoDecimals (fst st) -> Forall twoDecimals (snd st) ->
  Forall twoDecimals (fst (partitionEntry st kv)) /\
  Forall twoDecimals (snd (partitionEntry st kv)).
Proof.
  intros Hc Hd. unfold partitionEntry.
  destruct (GoMath.gtb _ _); simpl.
  - split; [|assumption]. apply Push_Forall; [assumption|]. exists (snd kv). left. reflexivity.
  - destruct (_ <? _)%float; simpl.
    + split; [assumption|]. apply Push_Forall; [assumption|]. exists (snd kv). right. reflexivity.
    + split; assumption.
Qed.

Lemma initialState_twoDecimals entries :
  Forall twoDecimals (creditorHeap (initialState entries)) /\
  Forall twoDecimals (debtorHeap (initialState entries)).
Proof.
  unfold initialState. simpl.
  assert (H : forall st, Forall twoDecimals (fst st) -> Forall twoDecimals (snd st) ->
    Forall twoDecimals (fst (fold_left partitionEntry entries st)) /\
    Forall twoDecimals (snd (fold_left partitionEntry entries st))).
  { induction entries as [|kv rest IH]; intros st Hc Hd; simpl; [split; assumption|].
    destruct (partitionEntry_twoDecimals st kv Hc Hd). apply IH; assumption. }
  apply H; constructor.
Qed.

Lemma settleStep_twoDecimals currency st st' :
  settleStep currency st = Some st' ->
  Forall twoDecimals (creditorHeap st) -> Forall twoDecimals (debtorHeap st) ->
  Forall twoDecimals (creditorHeap st') /\ Forall twoDecimals (debtorHeap st').
Proof.
  unfold settleStep.
  destruct (Heap.Pop (creditorHeap st)) as [[c ch]|] eqn:Hc; [|discriminate].
  destruct (Heap.Pop (debtorHeap st)) as [[d dh]|] eqn:Hd; [|discriminate].
  apply (Pop_Some twoDecimals) in Hc as [_ Hc]. apply (Pop_Some twoDecimals) in Hd as [_ Hd].
  intros Heq Hac Had. injection Heq as <-. simpl.
  destruct (Hc Hac) as [_ Hch]. destruct (Hd Had) as [_ Hdh]. split.
  - destruct (GoMath.gtb (round2 (balance c - _)) _); [|assumption].
    apply Push_Forall; [assumption|]. eexists. left. reflexivity.
  - destruct (GoMath.gtb (round2 (balance d - _)) _); [|assumption].
    apply Push_Forall; [assumption|]. eexists. left. reflexivity.
Qed.

(** When the smaller balance is finite it is brought to exactly zero. *)
Lemma Min_zeroes c d : is_finite (GoMath.Min c d) = true ->
  round2 (c - GoMath.Min c d)%float = 0%float \/
  round2 (d - GoMath.Min c d)%float = 0%float.
Proof.
  unfold GoMath.Min.
  destruct (GoMath.IsNegInf c || GoMath.IsNegInf d); [discriminate|].
  destruct (is_nan c || is_nan d); [discriminate|].
  destruct ((c =? 0)%float && (c =? d)%float).
  { destruct (GoMath.Signbit c); intros H; [left | right];
      rewrite (sub_diag_finite _ H); reflexivity. }
  destruct (c <? d)%float; intros H; [left | right];
    rewrite (sub_diag_finite _ H); reflexivity.
Qed.

(** With fuel for [heapEntries st] iterations the loop reaches a state
    in which a heap is empty. *)
Lemma settleLoop_runs currency : forall fuel st,
  heapEntries st <= fuel ->
  exists n, n <= heapEntries st /\
    iterations currency st n (settleLoop fuel currency st) /\
    settleStep currency (settleLoop fuel currency st) = None.
Proof.
  induction fuel as [|fuel IH]; intros st Hle.
  - exists 0. split; [lia|]. split; [constructor|]. simpl.
    apply settleStep_None. unfold heapEntries in Hle.
    destruct (creditorHeap st); [left; reflexivity | simpl in Hle; lia].
  - simpl. destruct (settleStep currency st) as [st1|] eqn:Hstep.
    + pose proof (settleStep_decreases _ _ _ Hstep) as Hdec.
      destruct (IH st1) as (n & Hn & Hrun & Hend); [lia|].
      exists (S n). split; [lia|]. split; [econstructor; eassumption | assumption].
    + exists 0. split; [lia|]. split; [constructor | assumption].
Qed.

(** C9. The loop of [calculateSettlementsForCurrency] terminates on
    every balance map: the heaps hold amounts brought to two decimals,
    from the first loop on and after every iteration; each iteration
    leaves at least one of the two popped members out, so the number of
    heap entries strictly decreases; and the loop stops, with a heap
    empty, after at most as many iterations as there were creditors and
    debtors at the start.  The member left out is the one with the
    smaller balance: the difference is not above the threshold, and is
    exactly zero when that balance is finite. *)
Theorem settle_loop_terminates `{MapOrder} (balances : gmap string float) (currency : string) :
  let st0 := initialState (range ("calculateSettlementsForCurrency:" ++ currency) balances) in
  (Forall twoDecimals (creditorHeap st0) /\ Forall twoDecimals (debtorHeap st0)) /\
  (forall c d : float,
      (GoMath.gtb (round2 (c - GoMath.Min c d)%float) BalanceThreshold = false \/
       GoMath.gtb (round2 (d - GoMath.Min c d)%float) BalanceThreshold = false) /\
      (is_finite (GoMath.Min c d) = true ->
       round2 (c - GoMath.Min c d)%float = 0%float \/
       round2 (d - GoMath.Min c d)%float = 0%float)) /\
  (forall st st',
      settleStep currency st = Some st' ->
      heapEntries st' < heapEntries st /\
      (Forall twoDecimals (creditorHeap st) -> Forall twoDecimals (debtorHeap st) ->
       Forall twoDecimals (creditorHeap st') /\ Forall twoDecimals (debtorHeap st'))) /\
  (exists n st',
      n <= length (creditorHeap st0) + length (debtorHeap st0) /\
      iterations currency st0 n st' /\
      (creditorHeap st' = [] \/ debtorHeap st' = []) /\
      calculateSettlementsForCurrency balances currency = settlements st').
Proof.
  intros st0. split; [apply initialState_twoDecimals|].
  split; [intros c d; split; [apply Min_drops | apply Min_zeroes]|]. split.
  - intros st st' Hstep. split; [eapply settleStep_decreases; eassumption|].
    apply settleStep_twoDecimals with (currency := currency). assumption.
  - destruct (settleLoop_runs currency (heapEntries st0) st0) as (n & Hn & Hrun & Hend); [lia|].
    exists n, (settleLoop (heapEntries st0) currency st0).
    split; [exact Hn|]. split; [exact Hrun|]. split; [|reflexivity].
    apply settleStep_None in Hend. exact Hend.
Qed.

(** ** Settlements of one currency *)

Lemma partitionEntry_small st kv :
  belowThreshold (snd kv) -> partitionEntry st kv = st.
Proof.
  intros H. apply ltb_leb in H.
  destruct (round2_small_below _ H) as (Hgt & Hlt & _).
  unfold partitionEntry. rewrite Hgt, Hlt. reflexivity.
Qed.

Lemma settleEntries_small entries currency :
  Forall (fun kv => belowThreshold (snd kv)) entries -> settleEntries entries currency = [].
Proof.
  intros Hall. unfold settleEntries, initialState.
  assert (Hfold : forall st, fold_left partitionEntry entries st = st).
  { induction Hall as [|kv rest Hkv _ IH]; intros st; simpl; [reflexivity|].
    rewrite partitionEntry_small by assumption. apply IH. }
  rewrite Hfold. reflexivity.
Qed.

Lemma range_Forall `{MapOrder} {V} (Q : string * V -> Prop) site (m : gmap string V) :
  (forall k v, m !! k = Some v -> Q (k, v)) -> Forall Q (range site m).
Proof.
  intros Hm. rewrite (range_perm V site m). apply Forall_forall.
  intros [k v] Hin. apply Hm. apply elem_of_map_to_list. exact Hin.
Qed.

Lemma calculate_small `{MapOrder} (balances : gmap string float) (currency : string) :
  (forall u b, balances !! u = Some b -> belowThreshold b) ->
  calculateSettlementsForCurrency balances currency = [].
Proof.
  intros Hsmall. unfold calculateSettlementsForCurrency.
  apply settleEntries_small. apply range_Forall. intros k v Hkv. simpl. eauto.
Qed.

Lemma abs_opp x : abs (- x)%float = abs x.
Proof.
  apply Prim2SF_inj. rewrite !FloatAxioms.abs_spec, FloatAxioms.opp_spec.
  destruct (Prim2SF x); reflexivity.
Qed.

(** The two orders in which [range] can yield a map of two entries. *)
Lemma range_two `{MapOrder} {V} site (m : gmap string V) (e1 e2 : string * V) :
  map_to_list m = [e1; e2] -> range site m = [e1; e2] \/ range site m = [e2; e1].
Proof.
  intros Hm. pose proof (range_perm V site m) as Hp. rewrite Hm in Hp.
  symmetry in Hp. apply Permutation_length_2_inv in Hp. exact Hp.
Qed.

(** C1. For one currency, the balances [{A: 10.00, B: -10.00}] give
    exactly one settlement, from B to A, of 10.00; two balances that are
    equal and opposite and below 0.01 in magnitude give none (as does
    every map whose balances are all below 0.01 in magnitude), among
    them +1e-16 and -1e-16. *)
Theorem single_currency_settlements `{MapOrder} (currency : string) :
  calculateSettlementsForCurrency simpleCase currency = [edge "B" "A" 10.00%float currency] /\
  (forall (a b : string) (x : float),
      a <> b -> belowThreshold x ->
      calculateSettlementsForCurrency (<[a := x]> (<[b := (- x)%float]> ∅)) currency = []) /\
  (forall balances : gmap string float,
      (forall u b, balances !! u = Some b -> belowThreshold b) ->
      calculateSettlementsForCurrency balances currency = []) /\
  calculateSettlementsForCurrency residueCase currency = [].
Proof.
  split; [|split; [|split]].
  - unfold calculateSettlementsForCurrency.
    destruct (range_two ("calculateSettlementsForCurrency:" ++ currency) simpleCase
                ("A", 10%float) ("B", (-10)%float)) as [-> | ->];
      [vm_compute; reflexivity | vm_compute; reflexivity | vm_compute; reflexivity].
  - intros a b x Hab Hx. apply calculate_small. intros u v Hu.
    destruct (decide (u = a)) as [-> | Hua].
    + rewrite lookup_insert_eq in Hu. injection Hu as <-. exact Hx.
    + rewrite lookup_insert_ne in Hu by congruence.
      destruct (decide (u = b)) as [-> | Hub].
      * rewrite lookup_insert_eq in Hu. injection Hu as <-.
        unfold belowThreshold. rewrite abs_opp. exact Hx.
      * rewrite lookup_insert_ne in Hu by congruence. rewrite lookup_empty in Hu. discriminate.
  - intros balances Hb. apply calculate_small. exact Hb.
  - apply calculate_small. intros u v Hu.
    destruct (decide (u = "A")) as [-> | Hua].
    + vm_compute in Hu. injection Hu as <-. reflexivity.
    + destruct (decide (u = "B")) as [-> | Hub].
      * vm_compute in Hu. injection Hu as <-. reflexivity.
      * unfold residueCase in Hu. rewrite !lookup_insert_ne in Hu by congruence.
        rewrite lookup_empty in Hu. discriminate.
Qed.

(** The residue case of the test suite, obtained from the general
    statement. *)
Lemma single_currency_settlements_witness :
  belowThreshold 0.0000000000000001%float /\
  calculateSettlementsForCurrency
    (<["A" := 0.0000000000000001%float]> (<["B" := (- 0.0000000000000001)%float]> ∅)) "INR" = [].
Proof.
  split; [reflexivity|].
  apply (proj1 (proj2 (single_currency_settlements "INR"))); [discriminate | reflexivity].
Defined.

(** ** Settlements of a group: one run per currency *)

Lemma range_NoDup `{MapOrder} {V} site (m : gmap string V) : NoDup ((range site m).*1).
Proof. rewrite (range_perm V site m). apply NoDup_fst_map_to_list. Qed.

Lemma range_to_map `{MapOrder} {V} site (m : gmap string V) :
  list_to_map (range site m) = m.
Proof.
  rewrite <- (list_to_map_to_list m) at 2.
  apply list_to_map_proper; [apply range_NoDup | apply range_perm].
Qed.

Lemma bucketOf_regroupEntry uid acc kv cur u :
  bucketOf (regroupEntry uid acc kv) cur u =
    if decide (cur = fst kv /\ u = uid) then Some (snd kv) else bucketOf acc cur u.
Proof.
  unfold bucketOf, regroupEntry. destruct kv as [c b]; simpl.
  destruct (decide (cur = c)) as [-> | Hc].
  - rewrite lookup_insert_eq. simpl.
    destruct (decide (u = uid)) as [-> | Hu].
    + rewrite lookup_insert_eq. rewrite decide_True by auto. reflexivity.
    + rewrite lookup_insert_ne by congruence. rewrite decide_False by tauto.
      destruct (acc !! c); simpl; [reflexivity | apply lookup_empty].
  - rewrite lookup_insert_ne by congruence. rewrite decide_False by tauto. reflexivity.
Qed.

Lemma bucketOf_entries uid cur u : forall (l : list (string * float)) acc,
  NoDup (l.*1) ->
  bucketOf (fold_left (regroupEntry uid) l acc) cur u =
    if decide (u = uid)
    then from_option Some (bucketOf acc cur u) ((list_to_map l : gmap string float) !! cur)
    else bucketOf acc cur u.
Proof.
  induction l as [|[c b] rest IH]; intros acc Hnd; simpl.
  - rewrite lookup_empty. simpl. destruct (decide (u = uid)); reflexivity.
  - apply NoDup_cons in Hnd as [Hc Hnd]. rewrite IH by assumption.
    rewrite bucketOf_regroupEntry. simpl.
    destruct (decide (u = uid)) as [-> | Hu].
    + destruct (decide (cur = c)) as [-> | Hcur].
      * rewrite lookup_insert_eq, decide_True by auto.
        rewrite (not_elem_of_list_to_map_1 _ _ Hc). reflexivity.
      * rewrite lookup_insert_ne by congruence. rewrite decide_False by tauto. reflexivity.
    + rewrite decide_False by tauto. reflexivity.
Qed.

Lemma bucketOf_regroupUser `{MapOrder} acc uid cm cur u :
  bucketOf (regroupUser acc (uid, cm)) cur u =
    if decide (u = uid) then from_option Some (bucketOf acc cur u) (cm !! cur)
    else bucketOf acc cur u.
Proof.
  unfold regroupUser. simpl. rewrite bucketOf_entries by apply range_NoDup.
  rewrite range_to_map. reflexivity.
Qed.

Lemma bucketOf_users `{MapOrder} cur u : forall (l : list (string * gmap string float)) acc,
  NoDup (l.*1) ->
  bucketOf (fold_left regroupUser l acc) cur u =
    match (list_to_map l : gmap string (gmap string float)) !! u with
    | Some cm => from_option Some (bucketOf acc cur u) (cm !! cur)
    | None => bucketOf acc cur u
    end.
Proof.
  induction l as [|[uid cm] rest IH]; intros acc Hnd; simpl.
  - rewrite lookup_empty. reflexivity.
  - apply NoDup_cons in Hnd as [Hc Hnd]. rewrite IH by assumption.
    rewrite bucketOf_regroupUser.
    destruct (decide (u = uid)) as [-> | Hu].
    + rewrite lookup_insert_eq. rewrite (not_elem_of_list_to_map_1 _ _ Hc). reflexivity.
    + rewrite lookup_insert_ne by congruence.
      destruct (list_to_map rest !! u); reflexivity.
Qed.

(** The balance recorded for a member in the bucket of a currency is
    the balance the repository reported for that member and currency. *)
Lemma bucketOf_currencyBalances `{MapOrder} bbc cur u :
  bucketOf (currencyBalances bbc) cur u = bbc !! u ≫= (.!! cur).
Proof.
  unfold currencyBalances. rewrite bucketOf_users by apply range_NoDup.
  rewrite range_to_map. destruct (bbc !! u) as [cm|]; simpl.
  - destruct (cm !! cur); reflexivity.
  - reflexivity.
Qed.

Lemma regroupEntry_nonempty uid acc kv : noEmptyBucket acc -> noEmptyBucket (regroupEntry uid acc kv).
Proof.
  intros Hacc cur ub. unfold regroupEntry.
  destruct (decide (cur = fst kv)) as [-> | Hc].
  - rewrite lookup_insert_eq. intros [= <-]. apply insert_non_empty.
  - rewrite lookup_insert_ne by congruence. apply Hacc.
Qed.

Lemma currencyBalances_nonempty `{MapOrder} bbc : noEmptyBucket (currencyBalances bbc).
Proof.
  unfold currencyBalances.
  assert (Hin : forall uid (l : list (string * float)) acc,
             noEmptyBucket acc -> noEmptyBucket (fold_left (regroupEntry uid) l acc)).
  { intros uid l. induction l as [|kv rest IH]; intros acc Hacc; simpl; [assumption|].
    apply IH, regroupEntry_nonempty, Hacc. }
  assert (Hout : forall (l : list (string * gmap string float)) acc,
             noEmptyBucket acc -> noEmptyBucket (fold_left regroupUser l acc)).
  { induction l as [|ukv rest IH]; intros acc Hacc; simpl; [assumption|].
    apply IH. unfold regroupUser. apply Hin, Hacc. }
  apply Hout. intros cur ub. rewrite lookup_empty. discriminate.
Qed.

Lemma partition_known K (entries : list (string * float)) : forall st,
  Forall (fun kv => fst kv ∈ K) entries ->
  Forall (knownMember K) (fst st) -> Forall (knownMember K) (snd st) ->
  Forall (knownMember K) (fst (fold_left partitionEntry entries st)) /\
  Forall (knownMember K) (snd (fold_left partitionEntry entries st)).
Proof.
  induction entries as [|kv rest IH]; intros st Hall Hc Hd; simpl; [split; assumption|].
  apply Forall_cons in Hall as [Hkv Hrest].
  apply IH; [assumption | |]; unfold partitionEntry;
    destruct (GoMath.gtb _ _); simpl; try assumption;
    try (apply Push_Forall; assumption);
    destruct (_ <? _)%float; simpl; try assumption; apply Push_Forall; assumption.
Qed.

Lemma settleStep_within K currency st st' :
  settleStep currency st = Some st' ->
  Forall (knownMember K) (creditorHeap st) -> Forall (knownMember K) (debtorHeap st) ->
  Forall (edgeWithin K currency) (settlements st) ->
  Forall (knownMember K) (creditorHeap st') /\ Forall (knownMember K) (debtorHeap st') /\
  Forall (edgeWithin K currency) (settlements st').
Proof.
  unfold settleStep.
  destruct (Heap.Pop (creditorHeap st)) as [[c ch]|] eqn:Hc; [|discriminate].
  destruct (Heap.Pop (debtorHeap st)) as [[d dh]|] eqn:Hd; [|discriminate].
  apply (Pop_Some (knownMember K)) in Hc as [_ Hc].
  apply (Pop_Some (knownMember K)) in Hd as [_ Hd].
  intros Heq Hac Had Hout. injection Heq as <-. simpl.
  destruct (Hc Hac) as [Hkc Hch]. destruct (Hd Had) as [Hkd Hdh].
  split; [|split].
  - destruct (GoMath.gtb (round2 (balance c - _)) _); [|assumption].
    apply Push_Forall; assumption.
  - destruct (GoMath.gtb (round2 (balance d - _)) _); [|assumption].
    apply Push_Forall; assumption.
  - destruct (GoMath.gtb (round2 (GoMath.Min _ _)) _); [|assumption].
    apply Forall_app. split; [assumption|].
    constructor; [|constructor]. repeat split; assumption.
Qed.

Lemma settleLoop_within K currency : forall fuel st,
  Forall (knownMember K) (creditorHeap st) -> Forall (knownMember K) (debtorHeap st) ->
  Forall (edgeWithin K currency) (settlements st) ->
  Forall (edgeWithin K currency) (settlements (settleLoop fuel currency st)).
Proof.
  induction fuel as [|fuel IH]; intros st Hc Hd Hout; simpl; [assumption|].
  destruct (settleStep currency st) as [st1|] eqn:Hstep; [|assumption].
  destruct (settleStep_within K _ _ _ Hstep Hc Hd Hout) as (Hc1 & Hd1 & Hout1).
  apply IH; assumption.
Qed.

Lemma settleEntries_within entries currency :
  Forall (edgeWithin (entries.*1) currency) (settleEntries entries currency).
Proof.
  unfold settleEntries, initialState.
  destruct (partition_known (entries.*1) entries ([], [])) as [Hc Hd];
    [| constructor | constructor |].
  - apply Forall_forall. intros kv Hin. apply list_elem_of_fmap. exists kv. auto.
  - apply settleLoop_within; simpl; [assumption | assumption | constructor].
Qed.

(** Every settlement of a bucket carries its currency and joins two
    members of the bucket. *)
Lemma calculate_within `{MapOrder} (ub : gmap string float) currency e :
  e ∈ calculateSettlementsForCurrency ub currency ->
  Currency e = currency /\ is_Some (ub !! FromUserID e) /\ is_Some (ub !! ToUserID e).
Proof.
  unfold calculateSettlementsForCurrency. intros Hin.
  set (site := ("calculateSettlementsForCurrency:" ++ currency)%string) in *.
  pose proof (settleEntries_within (range site ub) currency) as Hall.
  rewrite Forall_forall in Hall. destruct (Hall e Hin) as (Hcur & Hfrom & Hto).
  assert (Hkey : forall k, k ∈ (range site ub).*1 -> is_Some (ub !! k)).
  { intros k Hk. apply list_elem_of_fmap in Hk as ([k' v] & -> & Hkv).
    rewrite (range_perm _ site ub) in Hkv. apply elem_of_map_to_list in Hkv.
    simpl. eauto. }
  auto.
Qed.

(** Case analysis on the order in which [range] yields a closed map of
    two entries. *)
Ltac range_cases :=
  match goal with
  | |- context [@range ?O ?V ?site ?m] =>
      let l := eval vm_compute in (map_to_list m) in
      match l with
      | [?e1; ?e2] =>
          let Hl := fresh "Hl" in
          assert (Hl : map_to_list m = [e1; e2]) by (vm_compute; reflexivity);
          destruct (@range_two O V site m e1 e2 Hl) as [-> | ->]; clear Hl
      end
  end.

Lemma currencyBalances_multi `{MapOrder} :
  currencyBalances multiCurrencyCase =
    <["INR" := <["A" := 100.00%float]> (<["B" := (-100.00)%float]> ∅)]>
      (<["USD" := <["A" := 50.00%float]> (<["B" := (-50.00)%float]> ∅)]> ∅).
Proof.
  unfold currencyBalances. range_cases; simpl fold_left; unfold regroupUser; simpl fst; simpl snd;
    range_cases; range_cases; vm_compute; reflexivity.
Qed.

Lemma settlements_multi `{MapOrder} :
  exists l,
    concat (map settleBucket (range "currencyBalances" (currencyBalances multiCurrencyCase))) = l /\
    l ≡ₚ [edge "B" "A" 100.00%float "INR"; edge "B" "A" 50.00%float "USD"].
Proof.
  rewrite currencyBalances_multi. eexists. split; [reflexivity|].
  range_cases; simpl map; unfold settleBucket, calculateSettlementsForCurrency; simpl fst; simpl snd;
    range_cases; range_cases; vm_compute; first [reflexivity | apply perm_swap].
Qed.

(** C2. [CalculateSettlements] regroups the balances by currency and
    runs the computation once for each currency that occurs: a bucket
    holds, for its currency, exactly the balances the repository
    reported, and no bucket is empty; the answer is the concatenation
    of one run per bucket; every settlement carries the currency of the
    bucket it was computed from and joins two members of that bucket.
    For [{A: {INR:100, USD:50}, B: {INR:-100, USD:-50}}] the answer
    consists of the two settlements from B to A, 100 in INR and 50 in
    USD. *)
Theorem settlements_per_currency `{MapOrder} {St} `{GroupRepository St} `{BalanceRepository St}
    (groupID userID : string) (s : St) (bbc : gmap string (gmap string float)) :
  RequireGroupMembership groupID userID s = None ->
  GetGroupMemberBalances groupID s = inr bbc ->
  (forall cur,
      match currencyBalances bbc !! cur with
      | Some ub => ub <> ∅ /\ forall u, ub !! u = bbc !! u ≫= (.!! cur)
      | None => forall u, bbc !! u ≫= (.!! cur) = None
      end) /\
  (exists buckets,
      buckets ≡ₚ map_to_list (currencyBalances bbc) /\
      CalculateSettlements groupID userID s =
        Ok (concat (map (fun cb => calculateSettlementsForCurrency (snd cb) (fst cb)) buckets))) /\
  (forall cur ub e,
      currencyBalances bbc !! cur = Some ub ->
      e ∈ calculateSettlementsForCurrency ub cur ->
      Currency e = cur /\ is_Some (ub !! FromUserID e) /\ is_Some (ub !! ToUserID e)) /\
  (bbc = multiCurrencyCase ->
   exists l, CalculateSettlements groupID userID s = Ok l /\
             l ≡ₚ [edge "B" "A" 100.00%float "INR"; edge "B" "A" 50.00%float "USD"]).
Proof.
  intros Hmember Hbalances.
  assert (Hrun : CalculateSettlements groupID userID s =
            Ok (concat (map settleBucket (range "currencyBalances" (currencyBalances bbc))))).
  { unfold CalculateSettlements. rewrite Hmember, Hbalances. reflexivity. }
  split; [|split; [|split]].
  - intros cur. pose proof (bucketOf_currencyBalances bbc cur) as Hb.
    unfold bucketOf in Hb. destruct (currencyBalances bbc !! cur) as [ub|] eqn:Hcur.
    + split; [eapply currencyBalances_nonempty; eassumption | exact Hb].
    + intros u. symmetry. apply Hb.
  - exists (range "currencyBalances" (currencyBalances bbc)).
    split; [apply range_perm | exact Hrun].
  - intros cur ub e _. apply calculate_within.
  - intros ->. rewrite Hrun. destruct settlements_multi as (l & Hl & Hperm).
    exists l. rewrite Hl. split; [reflexivity | exact Hperm].
Qed.

(** The multi-currency case of the test suite on the in-memory
    repositories. *)
Lemma settlements_per_currency_witness :
  exists l, CalculateSettlements "group1" "user1" (mockOf multiCurrencyCase) = Ok l /\
            l ≡ₚ [edge "B" "A" 100.00%float "INR"; edge "B" "A" 50.00%float "USD"].
Proof.
  destruct (settlements_per_currency "group1" "user1" (mockOf multiCurrencyCase)
              multiCurrencyCase) as (_ & _ & _ & Hcase); [reflexivity | reflexivity |].
  exact (Hcase eq_refl).
Defined.

(** ** Comparisons and differences of finite amounts *)

Section Comparisons.

Local Open Scope Z_scope.

Lemma shr_nonneg mrs e n : 0 <= shr_m mrs -> 0 <= shr_m (fst (shr mrs e n)).
Proof.
  intros Hm. destruct (Z.le_gt_cases 0 n) as [Hn | Hn].
  - destruct (shr_m_e mrs e n Hm Hn) as (mrs' & Heq & Hm'). rewrite Heq. simpl.
    rewrite Hm'. apply Z.shiftr_nonneg. assumption.
  - rewrite shr_m_neg by lia. assumption.
Qed.

Lemma round_aux_not_nan s (p : positive) e :
  binary_round_aux prec emax s (Zpos p) e loc_Exact <> S754_nan.
Proof.
  unfold binary_round_aux, shr_fexp. simpl shr_record_of_loc.
  set (r0 := {| shr_m := Zpos p; shr_r := false; shr_s := false |}).
  pose proof (shr_nonneg r0 e (fexp prec emax (Zdigits2 (Zpos p) + e) - e)) as H1.
  destruct (shr r0 e _) as [mrs1 e1]. simpl in H1. specialize (H1 ltac:(lia)).
  pose proof (rne_bounds (shr_m mrs1) (loc_of_shr_record mrs1)) as H2.
  set (m2 := round_nearest_even (shr_m mrs1) (loc_of_shr_record mrs1)) in *.
  pose proof (shr_nonneg {| shr_m := m2; shr_r := false; shr_s := false |} e1
                (fexp prec emax (Zdigits2 m2 + e1) - e1)) as H3.
  destruct (shr _ e1 _) as [mrs2 e2]. simpl in H3. specialize (H3 ltac:(lia)).
  destruct (shr_m mrs2) as [|q|q]; [discriminate | | lia].
  destruct (e2 <=? emax - prec); discriminate.
Qed.

Lemma normalize_not_nan m e : binary_normalize prec emax m e false <> S754_nan.
Proof.
  unfold binary_normalize, binary_round. destruct m as [|p|p]; [discriminate | |].
  - destruct (shl_align p e _) as [mz ez]. apply round_aux_not_nan.
  - destruct (shl_align p e _) as [mz ez]. apply round_aux_not_nan.
Qed.

(** The difference of two finite floats is a number. *)
Lemma sub_finite_not_nan a b :
  is_finite a = true -> is_finite b = true -> Prim2SF (a - b)%float <> S754_nan.
Proof.
  intros Ha Hb. apply is_finite_inv in Ha. apply is_finite_inv in Hb.
  rewrite FloatAxioms.sub_spec. unfold SF64sub, SFsub.
  destruct (Prim2SF a) as [[]|[]| |sa ma ea]; try contradiction;
    destruct (Prim2SF b) as [[]|[]| |sb mb eb]; try contradiction;
    try discriminate; apply normalize_not_nan.
Qed.

Lemma compare_cont_antisym p q :
  Pos.compare_cont Eq q p = CompOpp (Pos.compare_cont Eq p q).
Proof. rewrite Pos.compare_cont_antisym. reflexivity. Qed.

Lemma SFcompare_antisym a b :
  SFcompare b a = option_map CompOpp (SFcompare a b).
Proof.
  destruct a as [[]|[]| |[] ma ea], b as [[]|[]| |[] mb eb]; try reflexivity; simpl;
    rewrite (Z.compare_antisym ea eb); destruct (ea ?= eb); simpl; try reflexivity;
    rewrite (compare_cont_antisym ma mb); rewrite ?CompOpp_involutive; reflexivity.
Qed.

(** For numbers, [x > t] is the negation of [x <= t]. *)
Lemma gtb_negb_leb x t :
  Prim2SF x <> S754_nan -> Prim2SF t <> S754_nan ->
  GoMath.gtb x t = negb (x <=? t)%float.
Proof.
  intros Hx Ht. unfold GoMath.gtb.
  rewrite FloatAxioms.ltb_spec, FloatAxioms.leb_spec. unfold SFltb, SFleb.
  rewrite (SFcompare_antisym (Prim2SF x) (Prim2SF t)).
  destruct (Prim2SF x) as [[]|[]| |[] mx ex], (Prim2SF t) as [[]|[]| |[] mt et];
    try congruence; try reflexivity; simpl;
    destruct (ex ?= et); simpl; try reflexivity;
    destruct (Pos.compare_cont Eq mx mt); reflexivity.
Qed.

Lemma abs_not_nan x : Prim2SF x <> S754_nan -> Prim2SF (abs x) <> S754_nan.
Proof. rewrite FloatAxioms.abs_spec. destruct (Prim2SF x); simpl; congruence. Qed.

End Comparisons.

(** ** Validation of the amounts of an expense *)

Lemma validate_accepts_iff expense splits :
  let rP := round2 (sumPaid (Expense.Payers expense)) in
  let rT := round2 (Expense.TotalAmount expense) in
  let rS := round2 (sumSplit splits) in
  is_finite rP = true -> is_finite rT = true -> is_finite rS = true ->
  (validateExpenseAmounts expense splits = None <->
   withinTolerance rP rT /\ withinTolerance rS rT).
Proof.
  intros rP rT rS HP HT HS. unfold validateExpenseAmounts, withinTolerance.
  fold rP rT rS. unfold GoMath.Abs.
  assert (Htol : Prim2SF AmountTolerance <> S754_nan) by (vm_compute; discriminate).
  rewrite (gtb_negb_leb (abs (rP - rT)) AmountTolerance)
    by (try apply abs_not_nan; try apply sub_finite_not_nan; assumption).
  rewrite (gtb_negb_leb (abs (rS - rT)) AmountTolerance)
    by (try apply abs_not_nan; try apply sub_finite_not_nan; assumption).
  destruct (abs (rP - rT) <=? AmountTolerance)%float; simpl.
  - destruct (abs (rS - rT) <=? AmountTolerance)%float; simpl.
    + split; auto.
    + split; [discriminate | intros [_ H]; discriminate].
  - split; [discriminate | intros [H _]; discriminate].
Qed.

(** [x > t] is false exactly when [x <= t] or [x] is not a number. *)
Lemma gtb_false_iff x t :
  Prim2SF t <> S754_nan ->
  GoMath.gtb x t = false <-> (x <=? t)%float = true \/ Prim2SF x = S754_nan.
Proof.
  intros Ht. destruct (Prim2SF x) eqn:Hx.
  1,2,4: (rewrite gtb_negb_leb by (try exact Ht; rewrite Hx; discriminate);
          rewrite negb_false_iff; split; [intros Hle; left; exact Hle |];
          intros [Hle | Hnan]; [exact Hle | discriminate Hnan]).
  split; [intros _; right; reflexivity|]. intros _. unfold GoMath.gtb.
  rewrite FloatAxioms.ltb_spec, Hx. unfold SFltb. destruct (Prim2SF t) as [| | |[]]; reflexivity.
Qed.

Lemma abs_nan_iff x : Prim2SF (abs x) = S754_nan <-> Prim2SF x = S754_nan.
Proof.
  rewrite FloatAxioms.abs_spec.
  destruct (Prim2SF x); simpl; split; intros Heq; try discriminate Heq; reflexivity.
Qed.

(** A difference is not a number exactly when an operand is not, or
    both are the same infinity. *)
Lemma sub_nan_iff a b : Prim2SF (a - b)%float = S754_nan <-> notComparable a b.
Proof.
  unfold notComparable. rewrite FloatAxioms.sub_spec. unfold SF64sub, SFsub.
  destruct (Prim2SF a) as [sa|sa| |sa ma ea], (Prim2SF b) as [sb|sb| |sb mb eb];
    try (split; [intros _; auto | reflexivity]);
    try (split; [intros Heq; try (destruct sa, sb; discriminate Heq); discriminate Heq
                | intros [Heq | [Heq | (s & Heq & Heq')]];
                  try discriminate Heq; discriminate Heq']).
  - destruct sa, sb; simpl; split;
      try (intros Heq; discriminate Heq);
      try (intros _; right; right; eexists; split; reflexivity);
      try reflexivity;
      intros [Heq | [Heq | (s & Heq & Heq')]];
      try discriminate Heq; destruct s; try discriminate Heq; discriminate Heq'.
  - split; [intros Heq; exfalso; exact (normalize_not_nan _ _ Heq) |].
    intros [Heq | [Heq | (s & Heq & Heq')]]; try discriminate Heq.
Qed.

Lemma passes_iff a b :
  GoMath.gtb (GoMath.Abs (a - b)) AmountTolerance = false <->
  withinTolerance a b \/ notComparable a b.
Proof.
  assert (Htol : Prim2SF AmountTolerance <> S754_nan) by (vm_compute; discriminate).
  unfold GoMath.Abs, withinTolerance.
  rewrite (gtb_false_iff _ _ Htol), abs_nan_iff, sub_nan_iff. reflexivity.
Qed.

(** Without any condition on the amounts: each side passes when it is
    within the tolerance or cannot be compared. *)
Lemma validate_accepts_always expense splits :
  let rP := round2 (sumPaid (Expense.Payers expense)) in
  let rT := round2 (Expense.TotalAmount expense) in
  let rS := round2 (sumSplit splits) in
  validateExpenseAmounts expense splits = None <->
  (withinTolerance rP rT \/ notComparable rP rT) /\
  (withinTolerance rS rT \/ notComparable rS rT).
Proof.
  intros rP rT rS. rewrite <- !passes_iff.
  unfold validateExpenseAmounts. fold rP rT rS.
  destruct (GoMath.gtb (GoMath.Abs (rP - rT)) AmountTolerance).
  - split; [intros Heq; discriminate Heq | intros [Heq _]; discriminate Heq].
  - destruct (GoMath.gtb (GoMath.Abs (rS - rT)) AmountTolerance).
    + split; [intros Heq; discriminate Heq | intros [_ Heq]; discriminate Heq].
    + split; auto.
Qed.

Lemma validate_rejects expense splits err :
  let rP := round2 (sumPaid (Expense.Payers expense)) in
  let rT := round2 (Expense.TotalAmount expense) in
  let rS := round2 (sumSplit splits) in
  validateExpenseAmounts expense splits = Some err ->
  (GoMath.gtb (GoMath.Abs (rP - rT)) AmountTolerance = true /\
   err = AmountMismatch rP rT "payer") \/
  (GoMath.gtb (GoMath.Abs (rP - rT)) AmountTolerance = false /\
   GoMath.gtb (GoMath.Abs (rS - rT)) AmountTolerance = true /\
   err = AmountMismatch rS rT "split").
Proof.
  intros rP rT rS. unfold validateExpenseAmounts. fold rP rT rS.
  destruct (GoMath.gtb (GoMath.Abs (rP - rT)) AmountTolerance).
  - intros [= <-]. left. auto.
  - destruct (GoMath.gtb (GoMath.Abs (rS - rT)) AmountTolerance); [|discriminate].
    intros [= <-]. right. auto.
Qed.

Lemma validate_payer_first expense splits :
  let rP := round2 (sumPaid (Expense.Payers expense)) in
  let rT := round2 (Expense.TotalAmount expense) in
  GoMath.gtb (GoMath.Abs (rP - rT)) AmountTolerance = true ->
  validateExpenseAmounts expense splits = Some (AmountMismatch rP rT "payer").
Proof.
  intros rP rT H. unfold validateExpenseAmounts. fold rP rT. rewrite H. reflexivity.
Qed.

(** [Create] and [Update] both stop at the verdict of the validation,
    before any command reaches the repository. *)
Lemma create_validates {St} `{GroupRepository St} `{ExpenseRepository St}
    rt userID expense splits (s : St) err :
  RequireGroupMembership (Expense.GroupID expense) userID s = None ->
  validateExpenseAmounts (fst (prepareCreate rt userID expense)) splits = Some err ->
  ExpenseServiceCreate rt userID expense splits s = (Fail (appError err), s).
Proof.
  intros Hm Hv. unfold ExpenseServiceCreate. rewrite Hm.
  destruct (prepareCreate rt userID expense) as [e n]. simpl in Hv. rewrite Hv. reflexivity.
Qed.

Lemma update_validates {St} `{GroupRepository St} `{ExpenseRepository St}
    rt expenseID userID expense splits (s : St) existing err :
  ExpenseGetByID expenseID s = inr existing ->
  RequireGroupMembership (Expense.GroupID existing) userID s = None ->
  validateExpenseAmounts (fst (prepareUpdate rt expenseID existing expense)) splits = Some err ->
  ExpenseServiceUpdate rt expenseID userID expense splits s = (Fail (appError err), s).
Proof.
  intros Hg Hm Hv. unfold ExpenseServiceUpdate. rewrite Hg, Hm.
  destruct (prepareUpdate rt expenseID existing expense) as [e n]. simpl in Hv.
  rewrite Hv. reflexivity.
Qed.

(** C3. The validation shared by [Create] and [Update] accepts an
    expense exactly when, on the payer side and on the split side, the
    rounded sum agrees with the rounded total within 0.001 or cannot be
    compared with it, their difference not being a number (one of the
    two is not a number, or both are the same infinity); for sums and a
    total that are finite numbers after rounding it accepts exactly when
    both rounded sums agree with the rounded total within 0.001.  A
    rejection is an amount mismatch that names "payer" when the payer
    side disagrees, and "split" when only the split side does; both
    services return that error and leave the store as it was.  A total
    of 10.00 paid by one payer and split 3.33/3.33/3.34 is accepted;
    splits adding up to 9.99 are rejected naming "split"; a payer sum of
    9.99 is rejected naming "payer". *)
Theorem validate_expense_amounts (expense : Expense.t) (splits : list Split.t) :
  let rP := round2 (sumPaid (Expense.Payers expense)) in
  let rT := round2 (Expense.TotalAmount expense) in
  let rS := round2 (sumSplit splits) in
  (is_finite rP = true -> is_finite rT = true -> is_finite rS = true ->
   (validateExpenseAmounts expense splits = None <->
    withinTolerance rP rT /\ withinTolerance rS rT)) /\
  (validateExpenseAmounts expense splits = None <->
   (withinTolerance rP rT \/ notComparable rP rT) /\
   (withinTolerance rS rT \/ notComparable rS rT)) /\
  (forall err, validateExpenseAmounts expense splits = Some err ->
     (GoMath.gtb (GoMath.Abs (rP - rT)) AmountTolerance = true /\
      err = AmountMismatch rP rT "payer") \/
     (GoMath.gtb (GoMath.Abs (rP - rT)) AmountTolerance = false /\
      GoMath.gtb (GoMath.Abs (rS - rT)) AmountTolerance = true /\
      err = AmountMismatch rS rT "split")) /\
  (GoMath.gtb (GoMath.Abs (rP - rT)) AmountTolerance = true ->
   validateExpenseAmounts expense splits = Some (AmountMismatch rP rT "payer")) /\
  (forall St (G : GroupRepository St) (E : ExpenseRepository St) rt userID (s : St) err,
     RequireGroupMembership (Expense.GroupID expense) userID s = None ->
     validateExpenseAmounts (fst (prepareCreate rt userID expense)) splits = Some err ->
     ExpenseServiceCreate rt userID expense splits s = (Fail (appError err), s)) /\
  (forall St (G : GroupRepository St) (E : ExpenseRepository St) rt expenseID userID
          (s : St) existing err,
     ExpenseGetByID expenseID s = inr existing ->
     RequireGroupMembership (Expense.GroupID existing) userID s = None ->
     validateExpenseAmounts (fst (prepareUpdate rt expenseID existing expense)) splits = Some err ->
     ExpenseServiceUpdate rt expenseID userID expense splits s = (Fail (appError err), s)) /\
  validateExpenseAmounts onePays10 thirds = None /\
  validateExpenseAmounts onePays10 thirdsShort
    = Some (AmountMismatch 9.99%float 10.00%float "split") /\
  validateExpenseAmounts twoPay999 halves
    = Some (AmountMismatch 9.99%float 10.00%float "payer").
Proof.
  intros rP rT rS.
  split; [apply validate_accepts_iff|].
  split; [apply validate_accepts_always|].
  split; [apply validate_rejects|].
  split; [apply validate_payer_first|].
  split; [intros; eapply create_validates; eassumption|].
  split; [intros; eapply update_validates; eassumption|].
  repeat split; vm_compute; reflexivity.
Qed.

(** The accepted case of the test suite, through the equivalence. *)
Lemma validate_expense_amounts_witness :
  validateExpenseAmounts onePays10 thirds = None.
Proof.
  apply (proj1 (validate_expense_amounts onePays10 thirds));
    [reflexivity | reflexivity | reflexivity | split; reflexivity].
Defined.

(** C3 as stated fails where the amounts overflow: a total of 1e307
    with a payer sum of 5e306 and a split sum of 2e306 is accepted,
    although neither sum is within 0.001 of the total, before the
    rounding or after it: the three rounded values are infinite. *)
Lemma validate_overflow_counterexample :
  validateExpenseAmounts overflowExpense overflowSplits = None /\
  round2 (sumPaid (Expense.Payers overflowExpense)) = infinity /\
  round2 (Expense.TotalAmount overflowExpense) = infinity /\
  round2 (sumSplit overflowSplits) = infinity /\
  ~ withinTolerance (round2 (sumPaid (Expense.Payers overflowExpense)))
                    (round2 (Expense.TotalAmount overflowExpense)) /\
  ~ withinTolerance (round2 (sumSplit overflowSplits))
                    (round2 (Expense.TotalAmount overflowExpense)) /\
  ~ withinTolerance (sumPaid (Expense.Payers overflowExpense))
                    (Expense.TotalAmount overflowExpense) /\
  ~ withinTolerance (sumSplit overflowSplits) (Expense.TotalAmount overflowExpense).
Proof.
  repeat split; try (vm_compute; reflexivity);
    intros Hin; vm_compute in Hin; discriminate Hin.
Qed.

(** ** Updating an expense that has no payer *)

Lemma prepareUpdate_no_payer rt expenseID existing expense :
  Expense.Payers expense = [] ->
  Expense.PaidByUserID expense = None ->
  Expense.PaidByUserID existing = None ->
  Expense.Payers (fst (prepareUpdate rt expenseID existing expense)) = [] /\
  Expense.TotalAmount (fst (prepareUpdate rt expenseID existing expense))
    = Expense.TotalAmount expense.
Proof.
  intros Hp Hu He. unfold prepareUpdate.
  destruct (IsZero _); simpl; rewrite Hp, Hu, He; simpl; auto.
Qed.

(** C10. When [Update] is called without payers and neither the request
    nor the stored expense names a paid-by user, no payer is made up;
    the update is then rejected with the amount mismatch on the payer
    side whenever the rounded total differs from zero by more than
    0.001, and the store, read before the transaction begins, is
    returned as it was. *)
Theorem update_without_payer {St} `{GroupRepository St} `{ExpenseRepository St}
    (rt : Runtime) (expenseID userID : string) (expense existing : Expense.t)
    (splits : list Split.t) (s : St) :
  ExpenseGetByID expenseID s = inr existing ->
  RequireGroupMembership (Expense.GroupID existing) userID s = None ->
  Expense.Payers expense = [] ->
  Expense.PaidByUserID expense = None ->
  Expense.PaidByUserID existing = None ->
  let rT := round2 (Expense.TotalAmount expense) in
  Expense.Payers (fst (prepareUpdate rt expenseID existing expense)) = [] /\
  (GoMath.gtb (GoMath.Abs rT) AmountTolerance = true ->
   ExpenseServiceUpdate rt expenseID userID expense splits s
     = (Fail (appError (AmountMismatch 0%float rT "payer")), s) /\
   ExpenseGetByID expenseID
     (snd (ExpenseServiceUpdate rt expenseID userID expense splits s)) = inr existing).
Proof.
  intros Hget Hmember Hp Hu He rT.
  destruct (prepareUpdate_no_payer rt expenseID existing expense Hp Hu He) as [Hnone Htotal].
  split; [exact Hnone|]. intros Hgt.
  assert (Hupd : ExpenseServiceUpdate rt expenseID userID expense splits s
                 = (Fail (appError (AmountMismatch 0%float rT "payer")), s)).
  { apply update_validates with (existing := existing); [assumption | assumption |].
    unfold validateExpenseAmounts. rewrite Hnone, Htotal. fold rT.
    change (round2 (sumPaid [])) with 0%float.
    unfold GoMath.Abs in *. rewrite abs_zero_sub, Hgt. reflexivity. }
  split; [exact Hupd|]. rewrite Hupd. exact Hget.
Qed.

(** An update of 10.00 without payers, on a stored expense without a
    paid-by user. *)
Lemma update_without_payer_witness :
  ExpenseServiceUpdate testRuntime "e1" "u1" (testExpense 10.00%float None []) halves orphanStore
    = (Fail (appError (AmountMismatch 0%float 10.00%float "payer")), orphanStore).
Proof.
  apply (update_without_payer testRuntime "e1" "u1" (testExpense 10.00%float None [])
           orphanExpense halves orphanStore);
    reflexivity.
Defined.


(** ** Deleting a group *)

Lemma flat_map_nil {A B} (f : A -> list B) (l : list A) :
  flat_map f l = [] <-> Forall (fun x => f x = []) l.
Proof.
  induction l as [|x rest IH]; simpl.
  - split; [constructor | reflexivity].
  - split.
    + intros Happ. apply app_eq_nil in Happ as [Hx Hrest].
      constructor; [assumption | apply IH; assumption].
    + intros Hall. apply Forall_cons in Hall as [Hx Hrest].
      rewrite Hx. simpl. apply IH. assumption.
Qed.

(** The debt of one balance: its rounded magnitude exceeds 0.01. *)
Lemma balancesOfUser_nil `{MapOrder} uid (cm : gmap string float) :
  balancesOfUser (uid, cm) = [] <->
  forall cur b, cm !! cur = Some b ->
    GoMath.gtb (GoMath.Abs (round2 b)) BalanceThreshold = false.
Proof.
  unfold balancesOfUser. rewrite flat_map_nil. simpl.
  rewrite (range_perm _ _ cm). rewrite Forall_forall. split.
  - intros Hall cur b Hb.
    specialize (Hall (cur, b) ltac:(apply elem_of_map_to_list; exact Hb)). simpl in Hall.
    destruct (GoMath.gtb _ _); [discriminate | reflexivity].
  - intros Hcm [cur b] Hin. apply elem_of_map_to_list in Hin. simpl.
    rewrite (Hcm cur b Hin). reflexivity.
Qed.

Lemma calculateBalances_nil `{MapOrder} {St} `{BalanceRepository St} groupID (s : St) bbc :
  GetGroupMemberBalances groupID s = inr bbc ->
  exists l, calculateBalances groupID s = Ok l /\
    (l = [] <->
     forall uid cm cur b, bbc !! uid = Some cm -> cm !! cur = Some b ->
       GoMath.gtb (GoMath.Abs (round2 b)) BalanceThreshold = false).
Proof.
  intros Hb. unfold calculateBalances. rewrite Hb. eexists. split; [reflexivity|].
  rewrite flat_map_nil. rewrite (range_perm _ _ bbc). rewrite Forall_forall. split.
  - intros Hall uid cm cur b Hu Hc.
    specialize (Hall (uid, cm) ltac:(apply elem_of_map_to_list; exact Hu)).
    apply balancesOfUser_nil with (cur := cur) (b := b) in Hall; assumption.
  - intros Hbbc [uid cm] Hin. apply elem_of_map_to_list in Hin.
    apply balancesOfUser_nil. intros cur b Hc. eapply Hbbc; eassumption.
Qed.

(** C4. A member who deletes a group is refused with "cannot delete
    group with debts" when some member holds, in some currency, a
    balance whose magnitude after rounding to two decimals exceeds
    0.01; when every balance is within 0.01 of zero the delete is
    issued and its outcome is the answer.  The refusal is decided by
    the list of computed balances, which holds the rounded balances
    above 0.01 in magnitude, being non-empty. *)
Theorem group_delete_guard `{MapOrder} {St} `{GroupRepository St} `{BalanceRepository St}
    (groupID userID : string) (s : St) (bbc : gmap string (gmap string float)) :
  RequireGroupMembership groupID userID s = None ->
  GetGroupMemberBalances groupID s = inr bbc ->
  ((exists uid cm cur b,
       bbc !! uid = Some cm /\ cm !! cur = Some b /\
       GoMath.gtb (GoMath.Abs (round2 b)) BalanceThreshold = true) ->
   GroupServiceDelete groupID userID s = (Some (appError CannotDeleteGroupWithDebts), s)) /\
  ((forall uid cm cur b,
       bbc !! uid = Some cm -> cm !! cur = Some b -> (abs b <=? 0.01)%float = true) ->
   GroupServiceDelete groupID userID s =
     match GroupDelete groupID s with
     | (Some err, s') => (Some (appError (DatabaseError "deleting group" (errorString err))), s')
     | (None, s') => (None, s')
     end) /\
  (exists computed,
     calculateBalances groupID s = Ok computed /\
     (computed <> [] ->
      GroupServiceDelete groupID userID s = (Some (appError CannotDeleteGroupWithDebts), s)) /\
     (computed = [] ->
      GroupServiceDelete groupID userID s =
        match GroupDelete groupID s with
        | (Some err, s') => (Some (appError (DatabaseError "deleting group" (errorString err))), s')
        | (None, s') => (None, s')
        end)).
Proof.
  intros Hmember Hbalances.
  destruct (calculateBalances_nil groupID s bbc Hbalances) as (l & Hl & Hnil).
  assert (Hrefuse : l <> [] ->
    GroupServiceDelete groupID userID s = (Some (appError CannotDeleteGroupWithDebts), s)).
  { intros Hne. unfold GroupServiceDelete. rewrite Hmember, Hl.
    destruct l; [congruence | reflexivity]. }
  assert (Hissue : l = [] ->
    GroupServiceDelete groupID userID s =
      match GroupDelete groupID s with
      | (Some err, s') => (Some (appError (DatabaseError "deleting group" (errorString err))), s')
      | (None, s') => (None, s')
      end).
  { intros ->. unfold GroupServiceDelete. rewrite Hmember, Hl. reflexivity. }
  split; [|split].
  - intros (uid & cm & cur & b & Hu & Hc & Hgt). apply Hrefuse. intros Heq.
    rewrite (proj1 Hnil Heq uid cm cur b Hu Hc) in Hgt. discriminate.
  - intros Hsmall. apply Hissue. apply Hnil. intros uid cm cur b Hu Hc.
    apply round2_small_below. eapply Hsmall; eassumption.
  - exists l. auto.
Qed.

(** A group whose balances are below a cent is deleted. *)
Lemma group_delete_guard_witness :
  fst (GroupServiceDelete "g1" "u1" (mockOf settledCase)) = None /\
  mockDeleted (snd (GroupServiceDelete "g1" "u1" (mockOf settledCase))) = ["g1"].
Proof.
  destruct (group_delete_guard "g1" "u1" (mockOf settledCase) settledCase)
    as (_ & Hissue & _); [reflexivity | reflexivity |].
  rewrite Hissue; [split; reflexivity|].
  intros uid cm cur b Hu Hc. unfold settledCase in Hu.
  assert (Hcm : cm = <["INR" := 0.004%float]> ∅ \/ cm = <["INR" := (-0.004)%float]> ∅).
  { destruct (decide (uid = "A")) as [-> | HA].
    - rewrite lookup_insert_eq in Hu. left. congruence.
    - rewrite lookup_insert_ne in Hu by congruence.
      destruct (decide (uid = "B")) as [-> | HB].
      + rewrite lookup_insert_eq in Hu. right. congruence.
      + rewrite lookup_insert_ne in Hu by congruence. rewrite lookup_empty in Hu. discriminate. }
  destruct (decide (cur = "INR")) as [-> | HI].
  - destruct Hcm as [-> | ->]; rewrite lookup_insert_eq in Hc; injection Hc as <-; reflexivity.
  - destruct Hcm as [-> | ->]; rewrite lookup_insert_ne in Hc by congruence;
      rewrite lookup_empty in Hc; discriminate.
Defined.


(** ** The order of the floats *)

Section FloatOrder.

Local Open Scope Z_scope.

Lemma SFcompare_Lt a b :
  SFcompare a b = Some Lt <-> a <> S754_nan /\ b <> S754_nan /\ keyLt (orderKey a) (orderKey b).
Proof.
  unfold keyLt.
  destruct a as [[]|[]| |[] ma ea], b as [[]|[]| |[] mb eb]; simpl;
    try (split; [intros Heq; try discriminate Heq; repeat split; try discriminate; lia
                | intros (Ha & Hb & Hk); try congruence; try reflexivity; lia]).
  - destruct (Z.compare_spec ea eb) as [He | He | He]; simpl.
    + subst eb. change (Pos.compare_cont Eq ma mb) with (Pos.compare ma mb).
      destruct (Pos.compare_spec ma mb) as [Hm | Hm | Hm]; simpl;
        (split; [intros Heq; try discriminate Heq; repeat split; try discriminate; lia
                | intros (_ & _ & Hk); try reflexivity; lia]).
    + split; [intros Heq; try discriminate Heq; repeat split; try discriminate; lia
             | intros (_ & _ & Hk); try reflexivity; lia].
    + split; [intros Heq; try discriminate Heq; repeat split; try discriminate; lia
             | intros (_ & _ & Hk); try reflexivity; lia].
  - destruct (Z.compare_spec ea eb) as [He | He | He]; simpl.
    + subst eb. change (Pos.compare_cont Eq ma mb) with (Pos.compare ma mb).
      destruct (Pos.compare_spec ma mb) as [Hm | Hm | Hm]; simpl;
        (split; [intros Heq; try discriminate Heq; repeat split; try discriminate; lia
                | intros (_ & _ & Hk); try reflexivity; lia]).
    + split; [intros Heq; try discriminate Heq; repeat split; try discriminate; lia
             | intros (_ & _ & Hk); try reflexivity; lia].
    + split; [intros Heq; try discriminate Heq; repeat split; try discriminate; lia
             | intros (_ & _ & Hk); try reflexivity; lia].
Qed.

Lemma ltb_key a b :
  (a <? b)%float = true <->
  Prim2SF a <> S754_nan /\ Prim2SF b <> S754_nan /\
  keyLt (orderKey (Prim2SF a)) (orderKey (Prim2SF b)).
Proof.
  rewrite FloatAxioms.ltb_spec. unfold SFltb. rewrite <- SFcompare_Lt.
  destruct (SFcompare (Prim2SF a) (Prim2SF b)) as [[]|]; split; congruence.
Qed.

Lemma ltb_trans a b c :
  (a <? b)%float = true -> (b <? c)%float = true -> (a <? c)%float = true.
Proof.
  rewrite !ltb_key. unfold keyLt. intros (Ha & Hb & Hab) (_ & Hc & Hbc).
  repeat split; try assumption. lia.
Qed.


Lemma ltb_not_nan_l a b : (a <? b)%float = true -> Prim2SF a <> S754_nan.
Proof. rewrite ltb_key. tauto. Qed.

Lemma ltb_not_nan_r a b : (a <? b)%float = true -> Prim2SF b <> S754_nan.
Proof. rewrite ltb_key. tauto. Qed.

End FloatOrder.

(** ** Importing one expense row *)


Section RowFacts.

Variables (rt : Runtime) (expenseID : string) (payerShare : float)
          (memberMapping : gmap string string).









End RowFacts.


Lemma range_elem `{MapOrder} {V} site (m : gmap string V) k v :
  (k, v) ∈ range site m <-> m !! k = Some v.
Proof. rewrite (range_perm V site m). apply elem_of_map_to_list. Qed.







(** ** Friends *)

Lemma isFriendRow_exists userID friendID rows :
  (userID, friendID) ∈ rows -> existsb (isFriendRow userID friendID) rows = true.
Proof.
  intros Hin. apply existsb_exists. exists (userID, friendID).
  split; [apply list_elem_of_In; exact Hin|].
  unfold isFriendRow. simpl. rewrite !String.eqb_refl. reflexivity.
Qed.

(** No error of [friendAdd] is a duplicate error. *)
Lemma friendAdd_not_duplicate userID friendID db err db' :
  friendAdd userID friendID db = (Some err, db') -> IsDuplicateError err = false.
Proof.
  unfold friendAdd.
  destruct (String.eqb userID friendID); [intros [= <- <-]; vm_compute; reflexivity|].
  destruct (existsb _ (friends db)); [discriminate|].
  destruct (negb (userExists db userID)); [intros [= <- <-]; vm_compute; reflexivity|].
  destruct (negb (userExists db friendID)); [intros [= <- <-]; vm_compute; reflexivity|].
  discriminate.
Qed.

(** C7, on the code.  Adding oneself is refused with "cannot add
    self".  Adding a friend who is already one is not refused: the
    insert skips the row on the conflict and reports no error, so the
    service answers with success and "already friends" is never
    returned. *)
Theorem add_friend_by_email (userID email : string) (db : Database) (friendUser : User.t) :
  userGetByEmail email db = inr friendUser ->
  (User.ID friendUser = userID ->
   AddFriendByEmail userID email db = (Some (CannotAddSelf "add as a friend"), db)) /\
  (User.ID friendUser <> userID -> (userID, User.ID friendUser) ∈ friends db ->
   AddFriendByEmail userID email db = (None, db)) /\
  fst (AddFriendByEmail userID email db) <> Some AlreadyFriends.
Proof.
  intros Hget. unfold AddFriendByEmail. rewrite Hget. split; [|split].
  - intros ->. rewrite String.eqb_refl. reflexivity.
  - intros Hne Hin. apply String.eqb_neq in Hne. rewrite Hne.
    unfold friendAdd. rewrite String.eqb_sym, Hne.
    rewrite (isFriendRow_exists _ _ _ Hin). reflexivity.
  - destruct (String.eqb (User.ID friendUser) userID); [discriminate|].
    destruct (friendAdd userID (User.ID friendUser) db) as [[err|] db'] eqn:Hadd;
      [|discriminate].
    rewrite (friendAdd_not_duplicate _ _ _ _ _ Hadd). discriminate.
Qed.

(** Ann adds Bob twice: both calls succeed. *)
Lemma add_friend_by_email_witness :
  AddFriendByEmail "u1" "bob@example.org" demoDB = (None, befriendedDB) /\
  AddFriendByEmail "u1" "bob@example.org" befriendedDB = (None, befriendedDB).
Proof.
  split; [reflexivity|].
  apply (add_friend_by_email "u1" "bob@example.org" befriendedDB
           {| User.ID := "u2"; User.Email := "bob@example.org" |} eq_refl);
    [discriminate | apply list_elem_of_In; simpl; auto].
Defined.

(** ** Reactions *)

Lemma database_eta db :
  {| users := users db; friends := friends db; group_members := group_members db;
     expenses := expenses db; comments := comments db;
     comment_reactions := comment_reactions db |} = db.
Proof. destruct db. reflexivity. Qed.

Lemma filter_keeps_all {A} (f : A -> bool) (l : list A) :
  existsb (fun x => negb (f x)) l = false -> List.filter f l = l.
Proof.
  induction l as [|x rest IH]; simpl; [reflexivity|].
  intros H. apply orb_false_iff in H as [Hx Hrest].
  apply negb_false_iff in Hx. rewrite Hx. f_equal. apply IH, Hrest.
Qed.

Lemma reactionInsert_outcome reaction db :
  let c := Reaction.CommentID reaction in
  let u := Reaction.UserID reaction in
  let e := Reaction.Emoji reaction in
  (exists err, reactionInsert reaction db = (Some err, db) /\
     (IsDuplicateError err = true <->
      ~ freshReactionID (Reaction.ID reaction) db \/ hasReaction c u e db)) \/
  (reactionInsert reaction db
     = (None, {| users := users db; friends := friends db;
                 group_members := group_members db; expenses := expenses db;
                 comments := comments db;
                 comment_reactions := comment_reactions db ++ [reaction] |}) /\
   freshReactionID (Reaction.ID reaction) db /\ ~ hasReaction c u e db).
Proof.
  intros c u e. unfold reactionInsert, freshReactionID, hasReaction. fold c u e.
  destruct (existsb (fun r => String.eqb (Reaction.ID r) (Reaction.ID reaction)) _).
  { left. eexists. split; [reflexivity|]. split; [left; discriminate | vm_compute; reflexivity]. }
  destruct (existsb (sameReaction c u e) _).
  { left. eexists. split; [reflexivity|]. split; [right; reflexivity | vm_compute; reflexivity]. }
  destruct (negb (existsb _ (comments db))).
  { left. eexists. split; [reflexivity|].
    split; [vm_compute; discriminate | intros [H | H]; [contradiction H; reflexivity | discriminate]]. }
  destruct (negb (userExists db u)).
  { left. eexists. split; [reflexivity|].
    split; [vm_compute; discriminate | intros [H | H]; [contradiction H; reflexivity | discriminate]]. }
  right. split; [reflexivity|]. split; [reflexivity | discriminate].
Qed.

Lemma hasReaction_added reaction db :
  hasReaction (Reaction.CommentID reaction) (Reaction.UserID reaction) (Reaction.Emoji reaction)
    {| users := users db; friends := friends db; group_members := group_members db;
       expenses := expenses db; comments := comments db;
       comment_reactions := comment_reactions db ++ [reaction] |}.
Proof.
  unfold hasReaction. simpl. rewrite existsb_app. simpl.
  unfold sameReaction. rewrite !String.eqb_refl. simpl. apply orb_true_r.
Qed.

(** After an add that succeeded with a fresh identifier the reaction is
    stored. *)
Lemma AddReaction_stores newID commentID userID emoji db db1 :
  freshReactionID newID db ->
  AddReaction newID commentID userID emoji db = (None, db1) ->
  hasReaction commentID userID emoji db1 /\
  GetCommentByID commentID db1 = GetCommentByID commentID db /\
  (forall expenseID, checkAccess expenseID userID db1 = checkAccess expenseID userID db) /\
  exists comment, GetCommentByID commentID db = inr comment /\
                  checkAccess (Comment.ExpenseID comment) userID db = None.
Proof.
  intros Hfresh. unfold AddReaction.
  destruct (GetCommentByID commentID db) as [err | comment] eqn:Hget; [discriminate|].
  destruct (checkAccess (Comment.ExpenseID comment) userID db) eqn:Hacc; [discriminate|].
  set (reaction := {| Reaction.ID := newID; Reaction.CommentID := commentID;
                      Reaction.UserID := userID; Reaction.Emoji := emoji |}).
  destruct (reactionInsert_outcome reaction db) as [(err & Hins & Hdup) | (Hins & _ & _)];
    rewrite Hins.
  - destruct (IsDuplicateError err) eqn:Hd; [|discriminate].
    intros [= <-]. split.
    + destruct (proj1 Hdup eq_refl) as [Hn | Hhas]; [contradiction | exact Hhas].
    + split; [exact Hget|]. split; [reflexivity|]. exists comment. auto.
  - intros [= <-]. split; [apply (hasReaction_added reaction)|].
    split; [exact Hget|]. split; [reflexivity|]. exists comment. auto.
Qed.

(** C8. Reactions are idempotent at the service: when an add has
    succeeded, adding the same (comment, user, emoji) again succeeds
    too and changes nothing, the repository's duplicate-key error being
    swallowed; and removing a reaction succeeds whether or not it was
    there, leaving the database as it was when it was not. *)
Theorem reactions_idempotent (db db1 : Database) (id1 commentID userID emoji : string) :
  freshReactionID id1 db ->
  AddReaction id1 commentID userID emoji db = (None, db1) ->
  (forall id2,
      AddReaction id2 commentID userID emoji db1 = (None, db1) /\
      exists err,
        reactionInsert {| Reaction.ID := id2; Reaction.CommentID := commentID;
                          Reaction.UserID := userID; Reaction.Emoji := emoji |} db1
          = (Some err, db1) /\
        IsDuplicateError err = true) /\
  (forall c u e d,
      fst (RemoveReaction c u e d) = None /\
      (~ hasReaction c u e d -> RemoveReaction c u e d = (None, d))).
Proof.
  intros Hfresh Hadd.
  destruct (AddReaction_stores _ _ _ _ _ _ Hfresh Hadd)
    as (Hhas & Hget & Hacc & comment & Hc & Hok).
  split.
  - intros id2.
    set (reaction := {| Reaction.ID := id2; Reaction.CommentID := commentID;
                        Reaction.UserID := userID; Reaction.Emoji := emoji |}).
    destruct (reactionInsert_outcome reaction db1) as [(err & Hins & Hdup) | (_ & _ & Hno)];
      [|contradiction].
    assert (Hd : IsDuplicateError err = true) by (apply Hdup; right; exact Hhas).
    split; [|exists err; auto].
    unfold AddReaction. rewrite Hget, Hc, Hacc, Hok. fold reaction. rewrite Hins, Hd. reflexivity.
  - intros c u e d. split; [reflexivity|]. intros Hno.
    unfold RemoveReaction, reactionDelete. rewrite filter_keeps_all.
    + rewrite database_eta. reflexivity.
    + unfold hasReaction in Hno. apply not_true_is_false in Hno.
      rewrite <- Hno. clear. induction (comment_reactions d) as [|r rest IH]; simpl;
        [reflexivity|]. rewrite negb_involutive, IH. reflexivity.
Qed.

(** Bob reacts to the comment twice. *)
Lemma reactions_idempotent_witness :
  AddReaction "r1" "c1" "u2" thumbsUp demoDB = (None, reactedDB) /\
  AddReaction "r2" "c1" "u2" thumbsUp reactedDB = (None, reactedDB).
Proof.
  split; [reflexivity|].
  apply (reactions_idempotent demoDB reactedDB "r1" "c1" "u2" thumbsUp eq_refl eq_refl).
Defined.


(** ** The sanitiser of the model's answer *)

(** *** Removing whitespace *)

Lemma wsStep_scan st c rest :
  wsResult (wsStep st c) ++
    map markByte (filter (fun m => codeKeeps m = true)
                    (scan (inString (wsStep st c)) (escapeNext (wsStep st c)) rest)) =
  wsResult st ++
    map markByte (filter (fun m => codeKeeps m = true)
                    (scan (inString st) (escapeNext st) (c :: rest))).
Proof.
  unfold wsStep. cbn [scan].
  destruct (escapeNext st) eqn:He.
  { cbn [wsResult inString escapeNext]. rewrite filter_cons_True by (unfold codeKeeps; simpl; apply orb_true_r || (rewrite orb_true_r; reflexivity)).
    cbn [map markByte]. rewrite <- app_assoc. reflexivity. }
  destruct (bool_decide (c = backslash)) eqn:Hb.
  { apply bool_decide_eq_true in Hb. subst c.
    cbn [wsResult inString escapeNext]. rewrite filter_cons_True
      by (unfold codeKeeps; cbn [markByte]; rewrite orb_true_r; reflexivity || (apply orb_true_iff; right; reflexivity)).
    cbn [map markByte]. rewrite <- app_assoc. reflexivity. }
  destruct (bool_decide (c = dquote)) eqn:Hq.
  { cbn [wsResult inString escapeNext]. rewrite filter_cons_True by reflexivity.
    cbn [map markByte]. rewrite <- app_assoc. reflexivity. }
  destruct (inString st) eqn:Hin.
  { cbn [wsResult inString escapeNext]. rewrite filter_cons_True by reflexivity.
    cbn [map markByte]. rewrite <- app_assoc. reflexivity. }
  destruct (isSpace c) eqn:Hs; cbn [negb].
  - rewrite Hin, He. rewrite filter_cons_False; [reflexivity|].
    unfold codeKeeps. cbn [markByte inLiteral escaped]. rewrite Hs. simpl. discriminate.
  - cbn [wsResult inString escapeNext]. rewrite filter_cons_True
      by (unfold codeKeeps; cbn [markByte inLiteral escaped]; rewrite Hs; reflexivity).
    cbn [map markByte]. rewrite <- app_assoc. reflexivity.
Qed.

Lemma fold_wsStep_scan text : forall st,
  wsResult (fold_left wsStep text st) =
  wsResult st ++
    map markByte (filter (fun m => codeKeeps m = true)
                    (scan (inString st) (escapeNext st) text)).
Proof.
  induction text as [|c rest IH]; intros st.
  - simpl. rewrite app_nil_r. reflexivity.
  - cbn [fold_left]. rewrite IH. apply wsStep_scan.
Qed.

(** The loop keeps exactly the bytes that are inside a literal, escaped,
    or not whitespace. *)
Lemma removeWhitespace_keptBytes text : removeWhitespace text = keptBytes text.
Proof. unfold removeWhitespace, keptBytes. rewrite fold_wsStep_scan. reflexivity. Qed.

(** *** Searching for a fence *)

Lemma occursAt_fits substr s i :
  (0 < length substr)%nat -> occursAt substr s i -> (i + length substr <= length s)%nat.
Proof.
  unfold occursAt. intros Hpos Heq.
  apply (f_equal (@length ascii)) in Heq.
  rewrite length_take, length_drop in Heq. lia.
Qed.

Lemma findFrom_spec substr s : forall fuel i,
  (findFrom fuel i s substr = (-1)%Z /\
   forall j, (i <= j < i + fuel)%nat -> ~ occursAt substr s j) \/
  (exists k, findFrom fuel i s substr = Z.of_nat k /\ (i <= k < i + fuel)%nat /\
             occursAt substr s k /\
             forall j, (i <= j < k)%nat -> ~ occursAt substr s j).
Proof.
  induction fuel as [|fuel IH]; intros i.
  - left. split; [reflexivity | intros j Hj; lia].
  - cbn [findFrom]. destruct (bool_decide _) eqn:Hhere.
    + apply bool_decide_eq_true in Hhere. right. exists i.
      repeat split; try lia. exact Hhere.
    + apply bool_decide_eq_false in Hhere.
      destruct (IH (S i)) as [[Hnone Hno] | (k & Hk & Hrange & Hocc & Hfirst)].
      * left. split; [exact Hnone|]. intros j Hj.
        destruct (decide (j = i)) as [->|Hne]; [exact Hhere | apply Hno; lia].
      * right. exists k. repeat split; try lia; try assumption.
        intros j Hj.
        destruct (decide (j = i)) as [->|Hne]; [exact Hhere | apply Hfirst; lia].
Qed.

Lemma findString_spec substr s :
  (0 < length substr)%nat ->
  (findString s substr = (-1)%Z /\ forall j, ~ occursAt substr s j) \/
  (exists k, findString s substr = Z.of_nat k /\ occursAt substr s k /\
             forall j, (j < k)%nat -> ~ occursAt substr s j).
Proof.
  intros Hpos. unfold findString.
  destruct (length s <? length substr)%nat eqn:Hshort.
  - apply Nat.ltb_lt in Hshort. left. split; [reflexivity|].
    intros j Hocc. apply occursAt_fits in Hocc; lia.
  - apply Nat.ltb_ge in Hshort.
    destruct (findFrom_spec substr s (length s - length substr + 1) 0)
      as [[Hnone Hno] | (k & Hk & Hrange & Hocc & Hfirst)].
    + left. split; [exact Hnone|]. intros j Hocc.
      pose proof (occursAt_fits _ _ _ Hpos Hocc). apply (Hno j); [lia | exact Hocc].
    + right. exists k. repeat split; try assumption.
      intros j Hj. apply Hfirst. lia.
Qed.

Lemma findString_none substr s :
  (0 < length substr)%nat -> (forall j, ~ occursAt substr s j) ->
  findString s substr = (-1)%Z.
Proof.
  intros Hpos Hno.
  destruct (findString_spec substr s Hpos) as [[Hnone _] | (k & _ & Hocc & _)].
  - exact Hnone.
  - destruct (Hno k Hocc).
Qed.

Lemma occursAt_drop substr s n j :
  occursAt substr (drop n s) j -> occursAt substr s (n + j).
Proof. unfold occursAt. rewrite drop_drop. intros H; exact H. Qed.

Lemma occursAt_take substr s n j :
  (0 < length substr)%nat ->
  occursAt substr (take n s) j -> occursAt substr s j /\ (j + length substr <= n)%nat.
Proof.
  intros Hpos Hocc.
  pose proof (occursAt_fits _ _ _ Hpos Hocc) as Hfit.
  rewrite length_take in Hfit.
  split; [|lia].
  unfold occursAt in *.
  rewrite take_drop_commute, take_take in Hocc.
  rewrite take_drop_commute.
  replace (Nat.min (j + length substr) n) with (j + length substr)%nat in Hocc by lia.
  exact Hocc.
Qed.

(** *** Trimming the backticks *)

Lemma trimLeading_drop text : exists n, trimLeading text = drop n text.
Proof.
  induction text as [|c rest [n IH]].
  - exists 0%nat. reflexivity.
  - cbn [trimLeading]. destruct (bool_decide (c = backtick)).
    + exists (S n). exact IH.
    + exists 0%nat. reflexivity.
Qed.

Lemma trimLeading_head text : head (trimLeading text) <> Some backtick.
Proof.
  induction text as [|c rest IH].
  - discriminate.
  - cbn [trimLeading]. destruct (bool_decide (c = backtick)) eqn:Hc.
    + exact IH.
    + apply bool_decide_eq_false in Hc. cbn. congruence.
Qed.

Lemma trimTrailing_take : forall fuel text, exists n, trimTrailing fuel text = take n text.
Proof.
  induction fuel as [|fuel IH]; intros text.
  - exists (length text). rewrite firstn_all. reflexivity.
  - cbn [trimTrailing]. destruct (last text) as [c|].
    + destruct (bool_decide (c = backtick)).
      * destruct (IH (take (length text - 1) text)) as [n Hn].
        exists (Nat.min n (length text - 1)). rewrite Hn. apply take_take.
      * exists (length text). rewrite firstn_all. reflexivity.
    + exists (length text). rewrite firstn_all. reflexivity.
Qed.

Lemma trimTrailing_last : forall fuel text,
  (length text <= fuel)%nat -> last (trimTrailing fuel text) <> Some backtick.
Proof.
  induction fuel as [|fuel IH]; intros text Hlen.
  - destruct text; [discriminate | cbn in Hlen; lia].
  - cbn [trimTrailing]. destruct (last text) as [c|] eqn:Hlast.
    + destruct (bool_decide (c = backtick)) eqn:Hc.
      * apply IH. rewrite length_take. lia.
      * apply bool_decide_eq_false in Hc. rewrite Hlast. congruence.
    + rewrite Hlast. discriminate.
Qed.

Lemma head_take {A} (l : list A) n c : head (take n l) = Some c -> head l = Some c.
Proof. destruct n, l; cbn; congruence. Qed.

(** What [removeMarkdownCodeBlocks] returns is a segment of its
    argument that holds no fence and neither starts nor ends with a
    backtick. *)
Lemma removeMarkdownCodeBlocks_clean text :
  let body := removeMarkdownCodeBlocks text in
  (exists i n, body = take n (drop i text)) /\
  findString body fence = (-1)%Z /\
  head body <> Some backtick /\
  last body <> Some backtick.
Proof.
  unfold removeMarkdownCodeBlocks.
  set (start := if negb (findString text fenceJSON =? -1)%Z then _ else _).
  set (tail := drop start text).
  set (end_ := if negb (findString tail fence =? -1)%Z then _ else _).
  set (text1 := take (end_ - start) tail).
  set (text2 := trimLeading text1).
  cbv zeta.
  assert (Hfence : (0 < length fence)%nat) by (cbn; lia).
  assert (H1 : forall j, ~ occursAt fence text1 j).
  { intros j Hocc. subst text1.
    apply occursAt_take in Hocc; [|exact Hfence]. destruct Hocc as [Hocc Hfit].
    subst end_.
    destruct (findString_spec fence tail Hfence) as [[Hnone Hno] | (k & Hk & _ & Hfirst)].
    - exact (Hno j Hocc).
    - rewrite Hk in Hfit.
      replace (negb (Z.of_nat k =? -1)%Z) with true in Hfit
        by (symmetry; apply negb_true_iff, Z.eqb_neq; lia).
      rewrite Nat2Z.id in Hfit. cbn [length fence] in Hfit.
      apply (Hfirst j); [lia | exact Hocc]. }
  destruct (trimLeading_drop text1) as [n2 Hn2]. fold text2 in Hn2.
  destruct (trimTrailing_take (length text2) text2) as [n3 Hn3].
  assert (H3 : forall j, ~ occursAt fence (trimTrailing (length text2) text2) j).
  { intros j Hocc. rewrite Hn3, Hn2 in Hocc.
    apply occursAt_take in Hocc; [|exact Hfence]. destruct Hocc as [Hocc _].
    apply occursAt_drop in Hocc. exact (H1 _ Hocc). }
  split; [|split; [|split]].
  - rewrite Hn3, Hn2. subst text1 tail.
    rewrite skipn_firstn_comm, take_take, drop_drop.
    eexists _, _. reflexivity.
  - apply findString_none; assumption.
  - rewrite Hn3. intros Hh. apply head_take in Hh.
    exact (trimLeading_head text1 Hh).
  - apply trimTrailing_last. lia.
Qed.











(** * Further properties

    ** Package errors: the substring test *)

Lemma substring_zero_prefix (substr : string) : forall s,
  substring 0 (String.length substr) s = substr ->
  exists post, s = (substr ++ post)%string.
Proof.
  induction substr as [|c substr IH]; intros s Hs.
  - exists s. reflexivity.
  - destruct s as [|d s]; [discriminate|].
    cbn in Hs. injection Hs as -> Hs.
    destruct (IH s Hs) as [post ->]. exists post. reflexivity.
Qed.

Lemma substring_occurrence (substr : string) : forall i s,
  (i <= String.length s)%nat ->
  substring i (String.length substr) s = substr ->
  exists pre post, s = (pre ++ substr ++ post)%string /\ String.length pre = i.
Proof.
  induction i as [|i IH]; intros s Hi Hs.
  - destruct (substring_zero_prefix substr s Hs) as [post ->].
    exists "", post. split; reflexivity.
  - destruct s as [|c s]; [cbn in Hi; lia|].
    cbn in Hi. assert (Hs' : substring i (String.length substr) s = substr).
    { destruct substr; exact Hs. }
    destruct (IH s ltac:(lia) Hs') as (pre & post & -> & Hlen).
    exists (String c pre), post. split; [reflexivity | cbn; lia].
Qed.

Lemma substring_prefix_self (substr post : string) :
  substring 0 (String.length substr) (substr ++ post) = substr.
Proof.
  induction substr as [|c substr IH]; [destruct post; reflexivity|].
  change (String c (substring 0 (String.length substr) (substr ++ post)) = String c substr).
  f_equal. exact IH.
Qed.

Lemma substring_at_occurrence (pre substr post : string) :
  substring (String.length pre) (String.length substr) (pre ++ substr ++ post) = substr.
Proof.
  induction pre as [|c pre IH]; [exact (substring_prefix_self substr post)|].
  change (substring (String.length pre) (String.length substr) (pre ++ substr ++ post) = substr).
  exact IH.
Qed.

Lemma string_app_cons c (a b : string) : (String c a ++ b)%string = String c (a ++ b).
Proof. reflexivity. Qed.

Lemma string_length_app (a b : string) :
  String.length (a ++ b) = (String.length a + String.length b)%nat.
Proof.
  induction a as [|c a IH]; [reflexivity|].
  rewrite string_app_cons. simpl. f_equal. exact IH.
Qed.

Lemma string_app_empty (a : string) : (a ++ "")%string = a.
Proof. induction a as [|c a IH]; [reflexivity | rewrite string_app_cons, IH; reflexivity]. Qed.

Lemma containsFrom_true s substr : forall fuel i,
  containsFrom fuel i s substr = true <->
  exists j, (i <= j < i + fuel)%nat /\ substring j (String.length substr) s = substr.
Proof.
  induction fuel as [|fuel IH]; intros i.
  - cbn. split; [discriminate | intros (j & Hj & _); lia].
  - cbn [containsFrom]. destruct (String.eqb _ substr) eqn:Hhere.
    + apply String.eqb_eq in Hhere. split; [|reflexivity].
      intros _. exists i. split; [lia | exact Hhere].
    + apply String.eqb_neq in Hhere. rewrite IH. split.
      * intros (j & Hj & Hocc). exists j. split; [lia | exact Hocc].
      * intros (j & Hj & Hocc). exists j. split; [|exact Hocc].
        destruct (decide (j = i)) as [->|Hne]; [contradiction | lia].
Qed.

Lemma contains_occurs (s substr : string) :
  contains s substr = true <-> exists pre post, s = (pre ++ substr ++ post)%string.
Proof.
  unfold contains, containsHelper. split.
  - intros H. apply andb_true_iff in H as [Hlen H]. apply Nat.leb_le in Hlen.
    apply orb_true_iff in H as [H|H].
    + apply String.eqb_eq in H. subst s. exists "", "".
      change (substr = (substr ++ "")%string). symmetry. apply string_app_empty.
    + apply andb_true_iff in H as [_ H].
      destruct (String.length s <? String.length substr)%nat eqn:Hshort; [discriminate|].
      apply containsFrom_true in H as (j & Hj & Hocc).
      destruct (substring_occurrence substr j s ltac:(lia) Hocc) as (pre & post & Hs & _).
      exists pre, post. exact Hs.
  - intros (pre & post & ->).
    assert (Hlen : (String.length substr
                    <= String.length (pre ++ substr ++ post))%nat)
      by (rewrite !string_length_app; lia).
    apply andb_true_iff. split; [apply Nat.leb_le; exact Hlen|].
    destruct (String.eqb (pre ++ substr ++ post) substr) eqn:Heq; [reflexivity|].
    cbn [orb]. apply andb_true_iff. split.
    + apply Nat.ltb_lt.
      destruct (String.length (pre ++ substr ++ post)) eqn:Hzero; [|lia].
      apply String.eqb_neq in Heq. exfalso. apply Heq.
      rewrite !string_length_app in Hzero.
      destruct pre; [|cbn in Hzero; lia]. destruct substr; [|cbn in Hzero; lia].
      destruct post; [reflexivity | cbn in Hzero; lia].
    + destruct (_ <? _)%nat eqn:Hshort; [apply Nat.ltb_lt in Hshort; lia|].
      apply containsFrom_true. exists (String.length pre). split.
      * rewrite !string_length_app. lia.
      * apply substring_at_occurrence.
Qed.

(** X1. [contains] is the substring test: it answers true exactly when
    [substr] occurs somewhere in [s], the empty string included. *)
Theorem contains_iff_occurs (s substr : string) :
  contains s substr = true <-> exists pre post, s = (pre ++ substr ++ post)%string.
Proof. apply contains_occurs. Qed.





(** ** The sanitiser: search, trimming and whitespace *)

(** X3. [findString] returns the least index at which [substr] occurs
    in [s] with room for all of it, and -1 exactly when there is no
    such index; for the empty [substr] that index is 0. *)
Theorem findString_least_index (s substr : bytes) :
  (findString s substr = (-1)%Z /\
   forall j, (j + length substr <= length s)%nat -> ~ occursAt substr s j) \/
  (exists k, findString s substr = Z.of_nat k /\
             (k + length substr <= length s)%nat /\
             occursAt substr s k /\
             forall j, (j < k)%nat -> ~ occursAt substr s j).
Proof.
  unfold findString.
  destruct (length s <? length substr)%nat eqn:Hshort.
  - apply Nat.ltb_lt in Hshort. left. split; [reflexivity | intros j Hj; lia].
  - apply Nat.ltb_ge in Hshort.
    destruct (findFrom_spec substr s (length s - length substr + 1) 0)
      as [[Hnone Hno] | (k & Hk & Hrange & Hocc & Hfirst)].
    + left. split; [exact Hnone|]. intros j Hj. apply Hno. lia.
    + right. exists k. repeat split; try assumption; [lia|].
      intros j Hj. apply Hfirst. lia.
Qed.

(** The bytes kept from [text] when the scan starts in the given state. *)
Lemma kept_again : forall text inStr esc,
  map markByte (filter (fun m => codeKeeps m = true)
    (scan inStr esc
       (map markByte (filter (fun m => codeKeeps m = true) (scan inStr esc text))))) =
  map markByte (filter (fun m => codeKeeps m = true) (scan inStr esc text)).
Proof.
  induction text as [|c rest IH]; intros inStr esc; [reflexivity|].
  cbn [scan]. destruct esc.
  { rewrite filter_cons_True by (unfold codeKeeps; cbn; apply orb_true_iff; left;
                                  apply orb_true_r).
    cbn [map markByte scan].
    rewrite filter_cons_True by (unfold codeKeeps; cbn; apply orb_true_iff; left;
                                  apply orb_true_r).
    cbn [map markByte]. f_equal. apply IH. }
  destruct (bool_decide (c = backslash)) eqn:Hb.
  { rewrite filter_cons_True by (unfold codeKeeps; cbn;
        apply bool_decide_eq_true in Hb; subst c; apply orb_true_r).
    cbn [map markByte scan]. rewrite Hb.
    rewrite filter_cons_True by (unfold codeKeeps; cbn;
        apply bool_decide_eq_true in Hb; subst c; apply orb_true_r).
    cbn [map markByte]. f_equal. apply IH. }
  destruct (bool_decide (c = dquote)) eqn:Hq.
  { rewrite filter_cons_True by reflexivity.
    cbn [map markByte scan]. rewrite Hb, Hq.
    rewrite filter_cons_True by reflexivity.
    cbn [map markByte]. f_equal. apply IH. }
  destruct (codeKeeps {| markByte := c; inLiteral := inStr; escaped := false |}) eqn:Hk.
  - rewrite filter_cons_True by exact Hk.
    cbn [map markByte scan]. rewrite Hb, Hq.
    rewrite filter_cons_True by exact Hk.
    cbn [map markByte]. f_equal. apply IH.
  - rewrite filter_cons_False by (rewrite Hk; discriminate). apply IH.
Qed.

Lemma kept_sublist : forall text inStr esc,
  sublist (map markByte (filter (fun m => codeKeeps m = true) (scan inStr esc text))) text.
Proof.
  induction text as [|c rest IH]; intros inStr esc; [constructor|].
  cbn [scan].
  repeat match goal with
         | |- context [if ?b then _ else _] => destruct b
         end;
    (rewrite filter_cons; destruct (decide _);
     [cbn [map markByte]; apply sublist_skip | apply sublist_cons]; apply IH).
Qed.

(** X4. [removeWhitespace] only deletes bytes, keeping the others in
    their order, and a second pass deletes nothing more. *)
Theorem removeWhitespace_idempotent (text : bytes) :
  sublist (removeWhitespace text) text /\
  removeWhitespace (removeWhitespace text) = removeWhitespace text.
Proof.
  rewrite !removeWhitespace_keptBytes. unfold keptBytes. split.
  - apply kept_sublist.
  - apply kept_again.
Qed.

Lemma fenceJSON_starts_with_fence text j : occursAt fenceJSON text j -> occursAt fence text j.
Proof.
  unfold occursAt. intros H.
  apply (f_equal (take (length fence))) in H.
  rewrite take_take in H. exact H.
Qed.

Lemma trimLeading_id text : head text <> Some backtick -> trimLeading text = text.
Proof.
  destruct text as [|c rest]; [reflexivity|]. cbn [head trimLeading]. intros Hc.
  destruct (bool_decide (c = backtick)) eqn:Hb; [|reflexivity].
  apply bool_decide_eq_true in Hb. congruence.
Qed.

Lemma trimTrailing_id fuel text : last text <> Some backtick -> trimTrailing fuel text = text.
Proof.
  destruct fuel as [|fuel]; [reflexivity|]. cbn [trimTrailing]. intros Hc.
  destruct (last text) as [c|]; [|reflexivity].
  destruct (bool_decide (c = backtick)) eqn:Hb; [|reflexivity].
  apply bool_decide_eq_true in Hb. congruence.
Qed.

Lemma removeMarkdownCodeBlocks_id text :
  findString text fence = (-1)%Z -> head text <> Some backtick ->
  last text <> Some backtick -> removeMarkdownCodeBlocks text = text.
Proof.
  intros Hnone Hhead Hlast.
  assert (Hfence : (0 < length fence)%nat) by (cbn; lia).
  assert (Hno : forall j, ~ occursAt fence text j).
  { destruct (findString_spec fence text Hfence) as [[_ Hno] | (k & Hk & _)];
      [exact Hno | rewrite Hk in Hnone; lia]. }
  assert (HnoJSON : findString text fenceJSON = (-1)%Z).
  { apply findString_none; [cbn; lia|].
    intros j Hocc. exact (Hno j (fenceJSON_starts_with_fence _ _ Hocc)). }
  unfold removeMarkdownCodeBlocks. rewrite HnoJSON, Hnone.
  change (-1 =? -1)%Z with true. cbn [negb]. cbv zeta.
  rewrite drop_0, Hnone. change (-1 =? -1)%Z with true. cbn [negb].
  rewrite Nat.sub_0_r, firstn_all.
  rewrite (trimLeading_id _ Hhead). apply trimTrailing_id. exact Hlast.
Qed.

Lemma no_backtick_no_fence text : ~ In backtick text -> findString text fence = (-1)%Z.
Proof.
  intros Hno. apply findString_none; [cbn; lia|].
  intros j Hocc. apply Hno. unfold occursAt in Hocc.
  assert (Hin : In backtick (take (length fence) (drop j text)))
    by (rewrite Hocc; left; reflexivity).
  apply list_elem_of_In in Hin.
  apply list_elem_of_In.
  apply (subseteq_take (length fence)) in Hin. apply (subseteq_drop j) in Hin. exact Hin.
Qed.

(** X5. [removeMarkdownCodeBlocks] returns unchanged a text that holds
    no triple backtick and neither starts nor ends with a backtick, in
    particular one without any backtick; what it returns is such a
    text, so applying it twice is applying it once. *)
Theorem removeMarkdownCodeBlocks_idempotent (text : bytes) :
  (findString text fence = (-1)%Z -> head text <> Some backtick ->
   last text <> Some backtick -> removeMarkdownCodeBlocks text = text) /\
  (~ In backtick text -> removeMarkdownCodeBlocks text = text) /\
  removeMarkdownCodeBlocks (removeMarkdownCodeBlocks text) = removeMarkdownCodeBlocks text.
Proof.
  split; [apply removeMarkdownCodeBlocks_id|]. split.
  - intros Hno. apply removeMarkdownCodeBlocks_id.
    + apply no_backtick_no_fence. exact Hno.
    + destruct text as [|c rest]; [discriminate|].
      cbn. intros [= ->]. apply Hno. left. reflexivity.
    + intros Hlast. apply Hno. apply list_elem_of_In.
      apply last_Some_elem_of. exact Hlast.
  - destruct (removeMarkdownCodeBlocks_clean text) as (_ & Hfence & Hhead & Hlast).
    apply removeMarkdownCodeBlocks_id; assumption.
Qed.


(** ** Settlements: direction and number *)

Section Sides.

Variables (C D : string -> Prop) (currency : string).

Lemma partition_sides (entries : list (string * float)) : forall st,
  Forall (fun kv => (GoMath.gtb (round2 (snd kv)) BalanceThreshold = true -> C (fst kv)) /\
                    ((round2 (snd kv) <? - BalanceThreshold)%float = true -> D (fst kv)))
         entries ->
  Forall (fun p => C (userID p)) (fst st) -> Forall (fun p => D (userID p)) (snd st) ->
  Forall (fun p => C (userID p)) (fst (fold_left partitionEntry entries st)) /\
  Forall (fun p => D (userID p)) (snd (fold_left partitionEntry entries st)).
Proof.
  induction entries as [|kv rest IH]; intros st Hall Hc Hd; simpl; [split; assumption|].
  apply Forall_cons in Hall as [[HkC HkD] Hrest].
  apply IH; [assumption | |]; unfold partitionEntry.
  - destruct (GoMath.gtb _ _) eqn:Hgt; simpl.
    + apply Push_Forall; [assumption | apply HkC; reflexivity].
    + destruct (_ <? _)%float; assumption.
  - destruct (GoMath.gtb _ _) eqn:Hgt; simpl; [assumption|].
    destruct (_ <? _)%float eqn:Hlt; simpl; [|assumption].
    apply Push_Forall; [assumption | apply HkD; reflexivity].
Qed.

Lemma settleStep_sides st st' :
  settleStep currency st = Some st' ->
  Forall (fun p => C (userID p)) (creditorHeap st) ->
  Forall (fun p => D (userID p)) (debtorHeap st) ->
  Forall (properEdge C D currency) (settlements st) ->
  Forall (fun p => C (userID p)) (creditorHeap st') /\
  Forall (fun p => D (userID p)) (debtorHeap st') /\
  Forall (properEdge C D currency) (settlements st').
Proof.
  unfold settleStep.
  destruct (Heap.Pop (creditorHeap st)) as [[c ch]|] eqn:Hc; [|discriminate].
  destruct (Heap.Pop (debtorHeap st)) as [[d dh]|] eqn:Hd; [|discriminate].
  apply (Pop_Some (fun p => C (userID p))) in Hc as [_ Hc].
  apply (Pop_Some (fun p => D (userID p))) in Hd as [_ Hd].
  intros Heq Hac Had Hout. injection Heq as <-. simpl.
  destruct (Hc Hac) as [Hkc Hch]. destruct (Hd Had) as [Hkd Hdh].
  split; [|split].
  - destruct (GoMath.gtb (round2 (balance c - _)) _); [|assumption].
    apply Push_Forall; assumption.
  - destruct (GoMath.gtb (round2 (balance d - _)) _); [|assumption].
    apply Push_Forall; assumption.
  - destruct (GoMath.gtb (round2 (GoMath.Min _ _)) _) eqn:Hamount; [|assumption].
    apply Forall_app. split; [assumption|].
    constructor; [|constructor]. unfold properEdge. simpl.
    repeat split; try assumption. eexists. reflexivity.
Qed.

Lemma settleLoop_sides : forall fuel st,
  Forall (fun p => C (userID p)) (creditorHeap st) ->
  Forall (fun p => D (userID p)) (debtorHeap st) ->
  Forall (properEdge C D currency) (settlements st) ->
  Forall (properEdge C D currency) (settlements (settleLoop fuel currency st)).
Proof.
  induction fuel as [|fuel IH]; intros st Hc Hd Hout; simpl; [assumption|].
  destruct (settleStep currency st) as [st1|] eqn:Hstep; [|assumption].
  destruct (settleStep_sides _ _ Hstep Hc Hd Hout) as (Hc1 & Hd1 & Hout1).
  apply IH; assumption.
Qed.

End Sides.

Lemma ltb_irrefl a : (a <? a)%float = false.
Proof.
  destruct (a <? a)%float eqn:H; [|reflexivity].
  apply ltb_key in H as (_ & _ & H). unfold keyLt in H. lia.
Qed.

Lemma creditor_not_debtor r :
  GoMath.gtb r BalanceThreshold = true -> (r <? - BalanceThreshold)%float = true -> False.
Proof.
  unfold GoMath.gtb. intros Hgt Hlt.
  assert (Hmid : (- BalanceThreshold <? BalanceThreshold)%float = true) by reflexivity.
  pose proof (ltb_trans r (- BalanceThreshold)%float BalanceThreshold Hlt Hmid) as Hrt.
  pose proof (ltb_trans r BalanceThreshold r Hrt Hgt) as Hrr.
  rewrite ltb_irrefl in Hrr. discriminate.
Qed.

(** X6. Every settlement of [calculateSettlementsForCurrency] goes from
    a member whose rounded balance is below -0.01 to a member whose
    rounded balance is above 0.01, who are therefore two different
    members; it carries the currency of the call, and its amount is a
    two-decimal rounding that exceeds 0.01. *)
Theorem settlement_from_debtor_to_creditor `{MapOrder}
    (balances : gmap string float) (currency : string) (e : Settlement) :
  e ∈ calculateSettlementsForCurrency balances currency ->
  isDebtor balances (FromUserID e) /\ isCreditor balances (ToUserID e) /\
  FromUserID e <> ToUserID e /\ Currency e = currency /\
  GoMath.gtb (Amount e) BalanceThreshold = true /\ (exists x, Amount e = round2 x).
Proof.
  unfold calculateSettlementsForCurrency, settleEntries. intros Hin.
  set (site := ("calculateSettlementsForCurrency:" ++ currency)%string) in *.
  destruct (partition_sides (isCreditor balances) (isDebtor balances)
              (range site balances) ([], [])) as [Hc Hd]; [| constructor | constructor |].
  { apply range_Forall. intros k v Hkv. simpl.
    split; intros Hr; exists v; split; assumption. }
  pose proof (settleLoop_sides (isCreditor balances) (isDebtor balances) currency
                (heapEntries (initialState (range site balances)))
                (initialState (range site balances)) Hc Hd ltac:(constructor)) as Hall.
  rewrite Forall_forall in Hall.
  destruct (Hall e Hin) as (Hfrom & Hto & Hcur & Hgt & Hx).
  repeat split; try assumption.
  intros Heq. destruct Hfrom as (b & Hb & Hlt). destruct Hto as (b' & Hb' & Hgt').
  rewrite Heq in Hb. rewrite Hb in Hb'. injection Hb' as <-.
  exact (creditor_not_debtor _ Hgt' Hlt).
Qed.

(** Of the three members, B pays A. *)
Lemma settlement_from_debtor_to_creditor_witness :
  isDebtor threeMembers "B" /\ isCreditor threeMembers "A".
Proof.
  assert (Hin : edge "B" "A" 20.00%float "INR"
                ∈ calculateSettlementsForCurrency (H := canonical_order) threeMembers "INR").
  { apply list_elem_of_In. vm_compute. auto. }
  destruct (settlement_from_debtor_to_creditor (H := canonical_order) threeMembers "INR" _ Hin)
    as (Hfrom & Hto & _).
  split; [exact Hfrom | exact Hto].
Defined.

Lemma settleStep_one_more currency st st' :
  settleStep currency st = Some st' ->
  2 <= heapEntries st /\ length (settlements st') <= S (length (settlements st)).
Proof.
  unfold settleStep, heapEntries.
  destruct (Heap.Pop (creditorHeap st)) as [[c ch]|] eqn:Hc; [|discriminate].
  destruct (Heap.Pop (debtorHeap st)) as [[d dh]|] eqn:Hd; [|discriminate].
  apply (Pop_Some (fun _ => True)) in Hc as [Hlc _].
  apply (Pop_Some (fun _ => True)) in Hd as [Hld _].
  intros Heq. injection Heq as <-. simpl. split; [lia|].
  destruct (GoMath.gtb (round2 (GoMath.Min _ _)) _); [|lia].
  rewrite length_app. simpl. lia.
Qed.

Lemma settleLoop_count currency : forall fuel st,
  length (settlements (settleLoop fuel currency st))
    <= length (settlements st) + (heapEntries st - 1).
Proof.
  induction fuel as [|fuel IH]; intros st; simpl; [lia|].
  destruct (settleStep currency st) as [st1|] eqn:Hstep; [|lia].
  destruct (settleStep_one_more _ _ _ Hstep) as [Htwo Hone].
  pose proof (settleStep_decreases _ _ _ Hstep) as Hdec.
  specialize (IH st1). lia.
Qed.

Lemma partition_count (entries : list (string * float)) : forall st,
  length (fst (fold_left partitionEntry entries st))
  + length (snd (fold_left partitionEntry entries st))
    <= length (fst st) + length (snd st) + length entries.
Proof.
  induction entries as [|kv rest IH]; intros st; simpl; [lia|].
  specialize (IH (partitionEntry st kv)).
  assert (Hone : length (fst (partitionEntry st kv)) + length (snd (partitionEntry st kv))
                 <= S (length (fst st) + length (snd st))).
  { unfold partitionEntry. destruct (GoMath.gtb _ _); simpl; [rewrite Push_length; lia|].
    destruct (_ <? _)%float; simpl; [rewrite Push_length; lia | lia]. }
  lia.
Qed.

(** X7. [calculateSettlementsForCurrency] settles [n] members with at
    most [n - 1] payments: an iteration adds at most one settlement,
    needs a creditor and a debtor, and leaves at least one of them out. *)
Theorem settlement_count_bound `{MapOrder} (balances : gmap string float) (currency : string) :
  length (calculateSettlementsForCurrency balances currency) <= size balances - 1.
Proof.
  unfold calculateSettlementsForCurrency, settleEntries.
  set (entries := range ("calculateSettlementsForCurrency:" ++ currency) balances).
  pose proof (settleLoop_count currency (heapEntries (initialState entries))
                (initialState entries)) as Hcount.
  pose proof (partition_count entries ([], [])) as Hheap.
  assert (Hlen : length entries = size balances).
  { unfold entries. rewrite (range_perm _ _ balances). apply length_map_to_list. }
  unfold initialState, heapEntries in *. simpl in *. lia.
Qed.


(** ** Expense service: what a failed write leaves behind *)

Lemma WithTx_failure {St} (fn : Tx St) (s s' : St) err :
  WithTx fn s = (Some err, s') -> s' = s.
Proof. unfold WithTx. destruct (fn s) as [[e|] s1]; intros [= _ <-]; reflexivity. Qed.

(** X8. [Create] and [Update] are all or nothing: when either returns
    an application error, refused before the transaction or failed
    inside it, the store is as it was before the call; and when either
    succeeds, what it returns is the expense as read back from the
    store after the commit. *)
Theorem expense_write_all_or_nothing {St} `{GroupRepository St} `{ExpenseRepository St}
    (rt : Runtime) (expenseID userID : string) (expense : Expense.t)
    (splits : list Split.t) (s s' : St) :
  (forall e, ExpenseServiceCreate rt userID expense splits s = (Fail (appError e), s') -> s' = s) /\
  (forall e, ExpenseServiceUpdate rt expenseID userID expense splits s = (Fail (appError e), s')
             -> s' = s) /\
  (forall stored, ExpenseServiceCreate rt userID expense splits s = (Ok stored, s') ->
                  ExpenseGetByID (uuid rt 0) s' = inr stored) /\
  (forall stored, ExpenseServiceUpdate rt expenseID userID expense splits s = (Ok stored, s') ->
                  ExpenseGetByID expenseID s' = inr stored).
Proof.
  repeat split.
  - intros e. unfold ExpenseServiceCreate.
    destruct (RequireGroupMembership _ _ _); [intros [= _ <-]; reflexivity|].
    destruct (prepareCreate rt userID expense) as [e1 n].
    destruct (validateExpenseAmounts e1 splits); [intros [= _ <-]; reflexivity|].
    destruct (WithTx _ s) as [[err|] s1] eqn:Htx.
    + intros [= _ <-]. eapply WithTx_failure; eassumption.
    + destruct (ExpenseGetByID _ s1); discriminate.
  - intros e. unfold ExpenseServiceUpdate.
    destruct (ExpenseGetByID expenseID s) as [err|existing].
    { destruct (IsNotFoundError err); intros [= _ <-]; reflexivity. }
    destruct (RequireGroupMembership _ _ _); [intros [= _ <-]; reflexivity|].
    destruct (prepareUpdate rt expenseID existing expense) as [e1 n].
    destruct (validateExpenseAmounts e1 splits); [intros [= _ <-]; reflexivity|].
    destruct (WithTx _ s) as [[err|] s1] eqn:Htx.
    + intros [= _ <-]. eapply WithTx_failure; eassumption.
    + destruct (ExpenseGetByID _ s1); discriminate.
  - intros stored. unfold ExpenseServiceCreate.
    destruct (RequireGroupMembership _ _ _); [discriminate|].
    destruct (prepareCreate rt userID expense) as [e1 n] eqn:Hprep.
    assert (Hid : Expense.ID e1 = uuid rt 0).
    { unfold prepareCreate in Hprep.
      destruct (IsZero _) in Hprep; cbn in Hprep;
        destruct (Expense.Payers expense) in Hprep; injection Hprep as <- _; reflexivity. }
    destruct (validateExpenseAmounts e1 splits); [discriminate|].
    destruct (WithTx _ s) as [[err|] s1]; [discriminate|].
    rewrite Hid. destruct (ExpenseGetByID _ s1) eqn:Hget; [discriminate|].
    intros [= <- <-]. exact Hget.
  - intros stored. unfold ExpenseServiceUpdate.
    destruct (ExpenseGetByID expenseID s) as [err|existing].
    { destruct (IsNotFoundError err); discriminate. }
    destruct (RequireGroupMembership _ _ _); [discriminate|].
    destruct (prepareUpdate rt expenseID existing expense) as [e1 n].
    destruct (validateExpenseAmounts e1 splits); [discriminate|].
    destruct (WithTx _ s) as [[err|] s1]; [discriminate|].
    destruct (ExpenseGetByID _ s1) eqn:Hget; [discriminate|].
    intros [= <- <-]. exact Hget.
Qed.

(** ** The payer the service makes up *)

Lemma zero_add t : Prim2SF t <> S754_zero true -> (0 + t)%float = t.
Proof.
  intros Hnz. apply Prim2SF_inj. rewrite FloatAxioms.add_spec.
  change (Prim2SF 0%float) with (S754_zero false).
  unfold SF64add, SFadd. destruct (Prim2SF t) as [[]|[]| |[] m e]; try reflexivity.
  congruence.
Qed.

Lemma made_up_sum_agrees t :
  GoMath.gtb (GoMath.Abs (round2 (0 + t) - round2 t)) AmountTolerance = false.
Proof.
  destruct (Prim2SF t) as [[]|s| |s m e] eqn:Ht.
  - assert (Hneg : t = (-0)%float).
    { rewrite <- (SF2Prim_Prim2SF t), Ht. reflexivity. }
    subst t. reflexivity.
  - rewrite zero_add by congruence.
    destruct (sub_diag (round2 t)) as [-> | ->]; reflexivity.
  - rewrite zero_add by congruence.
    destruct (sub_diag (round2 t)) as [-> | ->]; reflexivity.
  - rewrite zero_add by congruence.
    destruct (sub_diag (round2 t)) as [-> | ->]; reflexivity.
  - rewrite zero_add by congruence.
    destruct (sub_diag (round2 t)) as [-> | ->]; reflexivity.
Qed.

Lemma solo_payer_passes (e : Expense.t) id expenseID u splits err :
  Expense.Payers e = [soloPayer id expenseID u (Expense.TotalAmount e)] ->
  validateExpenseAmounts e splits = Some err ->
  err = AmountMismatch (round2 (sumSplit splits)) (round2 (Expense.TotalAmount e)) "split".
Proof.
  intros Hp. unfold validateExpenseAmounts. rewrite Hp.
  change (sumPaid [soloPayer id expenseID u (Expense.TotalAmount e)])
    with (0 + Expense.TotalAmount e)%float.
  rewrite made_up_sum_agrees.
  destruct (GoMath.gtb _ _); [intros [= <-]; reflexivity | discriminate].
Qed.

(** X9. When a request names no payers, [Create] makes the paid-by
    user, or else the caller, the single payer of the total, and
    [Update] does so with the paid-by user of the request or of the
    stored expense; the validation of such an expense never fails on
    the payer side, whatever the total: it can only report the
    splits. *)
Theorem made_up_payer_passes (rt : Runtime) (userID expenseID : string)
    (expense existing : Expense.t) (splits : list Split.t) :
  Expense.Payers expense = [] ->
  (let e := fst (prepareCreate rt userID expense) in
   Expense.Payers e =
     [soloPayer (uuid rt 1) (uuid rt 0) (default userID (Expense.PaidByUserID expense))
                (Expense.TotalAmount expense)] /\
   forall err, validateExpenseAmounts e splits = Some err ->
     err = AmountMismatch (round2 (sumSplit splits))
                          (round2 (Expense.TotalAmount expense)) "split") /\
  (forall u,
      match Expense.PaidByUserID expense with
      | Some p => Some p
      | None => Expense.PaidByUserID existing
      end = Some u ->
      let e := fst (prepareUpdate rt expenseID existing expense) in
      Expense.Payers e = [soloPayer (uuid rt 0) expenseID u (Expense.TotalAmount expense)] /\
      forall err, validateExpenseAmounts e splits = Some err ->
        err = AmountMismatch (round2 (sumSplit splits))
                             (round2 (Expense.TotalAmount expense)) "split").
Proof.
  intros Hnone. split.
  - assert (Hp : Expense.Payers (fst (prepareCreate rt userID expense)) =
                 [soloPayer (uuid rt 1) (uuid rt 0)
                    (default userID (Expense.PaidByUserID expense))
                    (Expense.TotalAmount expense)]).
    { unfold prepareCreate. destruct (IsZero _); cbn; rewrite Hnone; reflexivity. }
    assert (Ht : Expense.TotalAmount (fst (prepareCreate rt userID expense)) =
                 Expense.TotalAmount expense).
    { unfold prepareCreate. destruct (IsZero _); cbn; rewrite Hnone; reflexivity. }
    cbv zeta. split; [exact Hp|]. intros err Herr. rewrite <- Ht.
    rewrite <- Ht in Hp. eapply solo_payer_passes; eassumption.
  - intros u Hu.
    assert (Hp : Expense.Payers (fst (prepareUpdate rt expenseID existing expense)) =
                 [soloPayer (uuid rt 0) expenseID u (Expense.TotalAmount expense)]).
    { unfold prepareUpdate. destruct (IsZero _); cbn; rewrite Hnone;
        (destruct (Expense.PaidByUserID expense) as [p|];
         [injection Hu as -> | rewrite Hu]; reflexivity). }
    assert (Ht : Expense.TotalAmount (fst (prepareUpdate rt expenseID existing expense)) =
                 Expense.TotalAmount expense).
    { unfold prepareUpdate. destruct (IsZero _); cbn; rewrite Hnone;
        (destruct (Expense.PaidByUserID expense) as [p|];
         [injection Hu as -> | rewrite Hu]; reflexivity). }
    cbv zeta. split; [exact Hp|]. intros err Herr. rewrite <- Ht.
    rewrite <- Ht in Hp. eapply solo_payer_passes; eassumption.
Qed.

(** A lunch of 12.50 with no payer named, split 5 and 5: only the
    splits are reported. *)
Lemma made_up_payer_passes_witness :
  validateExpenseAmounts (fst (prepareCreate testRuntime "u1" lunchRequest)) halves =
    Some (AmountMismatch 10.00%float 12.50%float "split").
Proof.
  destruct (made_up_payer_passes testRuntime "u1" "e1" lunchRequest orphanExpense halves
              eq_refl) as [[_ Hcreate] _].
  destruct (validateExpenseAmounts (fst (prepareCreate testRuntime "u1" lunchRequest)) halves)
    as [err|] eqn:Hv; [|vm_compute in Hv; discriminate].
  rewrite (Hcreate err eq_refl). vm_compute. reflexivity.
Defined.


(** ** Group service: the balances behind the guards *)

(** What [calculateBalances] lists: for every member and currency whose
    balance, rounded, exceeds the threshold in magnitude, that rounded
    balance. *)
Lemma calculateBalances_lists `{MapOrder} {St} `{BalanceRepository St}
    groupID (s : St) bbc computed :
  GetGroupMemberBalances groupID s = inr bbc ->
  calculateBalances groupID s = Ok computed ->
  forall x, In x computed <->
    exists cm cur b, bbc !! BalanceUserID x = Some cm /\ cm !! cur = Some b /\
                     OwedAmount x = round2 b /\
                     GoMath.gtb (GoMath.Abs (round2 b)) BalanceThreshold = true.
Proof.
  unfold calculateBalances. intros -> [= <-] x. rewrite in_flat_map. split.
  - intros ([uid cm] & Hu & Hx). unfold balancesOfUser in Hx. cbn [fst snd] in Hx.
    apply in_flat_map in Hx as ([cur b] & Hc & Hx). cbn [fst snd] in Hx.
    destruct (GoMath.gtb _ _) eqn:Hgt; [|destruct Hx].
    destruct Hx as [<- | []]. cbn.
    apply list_elem_of_In, range_elem in Hu. apply list_elem_of_In, range_elem in Hc.
    exists cm, cur, b. auto.
  - intros (cm & cur & b & Hu & Hc & Hamount & Hgt).
    exists (BalanceUserID x, cm). split.
    + apply list_elem_of_In, range_elem. exact Hu.
    + unfold balancesOfUser. cbn [fst snd]. apply in_flat_map.
      exists (cur, b). split; [apply list_elem_of_In, range_elem; exact Hc|].
      cbn [fst snd]. rewrite Hgt. left. destruct x; cbn in *. congruence.
Qed.

(** X10. A member of the group may remove a member exactly when that
    member holds no balance that, rounded to two decimals, exceeds 0.01
    in magnitude in some currency: otherwise the call is refused with
    one of these balances in the error and the store is left alone.
    The balances of the other members play no part. *)
Theorem remove_member_guard `{MapOrder} {St} `{GroupRepository St} `{BalanceRepository St}
    `{GroupDetailRepository St}
    (groupID userID memberToRemoveID : string) (s : St) (bbc : gmap string (gmap string float)) :
  RequireGroupMembership groupID userID s = None ->
  GetGroupMemberBalances groupID s = inr bbc ->
  ((exists cm cur b,
       bbc !! memberToRemoveID = Some cm /\ cm !! cur = Some b /\
       GoMath.gtb (GoMath.Abs (round2 b)) BalanceThreshold = true) ->
   exists cm cur b,
     bbc !! memberToRemoveID = Some cm /\ cm !! cur = Some b /\
     GoMath.gtb (GoMath.Abs (round2 b)) BalanceThreshold = true /\
     GroupServiceRemoveMember groupID userID memberToRemoveID s =
       (Some (appError (CannotRemoveMemberWithBalance (round2 b))), s)) /\
  ((forall cm cur b,
       bbc !! memberToRemoveID = Some cm -> cm !! cur = Some b ->
       GoMath.gtb (GoMath.Abs (round2 b)) BalanceThreshold = false) ->
   GroupServiceRemoveMember groupID userID memberToRemoveID s =
     match GroupRemoveMember groupID memberToRemoveID s with
     | (Some err, s') =>
         (Some (appError (DatabaseError "removing member" (errorString err))), s')
     | (None, s') => (None, s')
     end).
Proof.
  intros Hmember Hbalances.
  unfold GroupServiceRemoveMember. rewrite Hmember.
  destruct (calculateBalances groupID s) as [computed|err] eqn:Hcalc;
    [|unfold calculateBalances in Hcalc; rewrite Hbalances in Hcalc; discriminate].
  pose proof (calculateBalances_lists groupID s bbc computed Hbalances Hcalc) as Hlist.
  split.
  - intros (cm & cur & b & Hu & Hc & Hgt).
    destruct (find _ computed) as [x|] eqn:Hfind.
    + apply find_some in Hfind as [Hin Hx].
      apply andb_true_iff in Hx as [Hid _]. apply String.eqb_eq in Hid.
      apply Hlist in Hin as (cm' & cur' & b' & Hu' & Hc' & Hamount & Hgt').
      rewrite Hid in Hu'. exists cm', cur', b'. rewrite Hamount. auto.
    + exfalso.
      pose proof (find_none _ _ Hfind
                    {| BalanceUserID := memberToRemoveID; OwedAmount := round2 b |}) as Hnone.
      cbn [BalanceUserID OwedAmount] in Hnone. rewrite String.eqb_refl, Hgt in Hnone.
      assert (Hin : In {| BalanceUserID := memberToRemoveID; OwedAmount := round2 b |} computed).
      { apply Hlist. exists cm, cur, b. auto. }
      specialize (Hnone Hin). discriminate.
  - intros Hsettled.
    destruct (find _ computed) as [x|] eqn:Hfind; [|reflexivity].
    apply find_some in Hfind as [Hin Hx].
    apply andb_true_iff in Hx as [Hid _]. apply String.eqb_eq in Hid.
    apply Hlist in Hin as (cm' & cur' & b' & Hu' & Hc' & _ & Hgt').
    rewrite Hid in Hu'. rewrite (Hsettled _ _ _ Hu' Hc') in Hgt'. discriminate.
Qed.

(** B, who owes 100, cannot be removed; a member without balances can. *)
Lemma remove_member_guard_witness :
  GroupServiceRemoveMember (H := canonical_order) "g1" "A" "B" (mockOf oneDebtCase) =
    (Some (appError (CannotRemoveMemberWithBalance (-100.00)%float)), mockOf oneDebtCase) /\
  fst (GroupServiceRemoveMember (H := canonical_order) "g1" "A" "C" (mockOf oneDebtCase)) = None.
Proof.
  assert (Hmember : RequireGroupMembership "g1" "A" (mockOf oneDebtCase) = None)
    by reflexivity.
  assert (Hbalances : GetGroupMemberBalances "g1" (mockOf oneDebtCase) = inr oneDebtCase)
    by reflexivity.
  pose proof (remove_member_guard (H := canonical_order) "g1" "A" "B" (mockOf oneDebtCase)
                oneDebtCase Hmember Hbalances) as [Hrefused _].
  pose proof (remove_member_guard (H := canonical_order) "g1" "A" "C" (mockOf oneDebtCase)
                oneDebtCase Hmember Hbalances) as [_ Hremoved].
  split.
  - destruct Hrefused as (cm & cur & b & Hu & Hc & _ & Hres).
    { exists (<["INR" := (-100.00)%float]> ∅), "INR", (-100.00)%float.
      split; [|split].
      - unfold oneDebtCase. rewrite lookup_insert_ne, lookup_insert_eq by discriminate.
        reflexivity.
      - rewrite lookup_insert_eq. reflexivity.
      - vm_compute. reflexivity. }
    rewrite Hres.
    unfold oneDebtCase in Hu. rewrite lookup_insert_ne, lookup_insert_eq in Hu by discriminate.
    injection Hu as <-.
    destruct (decide (cur = "INR")) as [->|Hne].
    + rewrite lookup_insert_eq in Hc. injection Hc as <-.
      assert (Hr : round2 (-100.00)%float = (-100.00)%float) by (vm_compute; reflexivity).
      rewrite Hr. exact eq_refl.
    + rewrite lookup_insert_ne, lookup_empty in Hc by (intros Heq; exact (Hne (eq_sym Heq))).
      discriminate Hc.
  - rewrite Hremoved; [exact eq_refl|].
    intros cm cur b Hu. unfold oneDebtCase in Hu.
    rewrite !lookup_insert_ne, lookup_empty in Hu by (intros Heq; discriminate Heq).
    discriminate Hu.
Defined.

Lemma computed_above `{MapOrder} {St} `{BalanceRepository St} groupID (s : St) computed :
  calculateBalances groupID s = Ok computed ->
  existsb (fun b => GoMath.gtb (GoMath.Abs (OwedAmount b)) BalanceThreshold) computed
    = (0 <? length computed)%nat.
Proof.
  intros Hcalc. destruct computed as [|x rest]; [reflexivity|].
  cbn [existsb length]. 
  assert (Hx : GoMath.gtb (GoMath.Abs (OwedAmount x)) BalanceThreshold = true).
  { unfold calculateBalances in Hcalc.
    destruct (GetGroupMemberBalances groupID s) as [err|bbc] eqn:Hb; [discriminate|].
    destruct (calculateBalances_lists groupID s bbc (x :: rest) Hb) with (x := x)
      as [Hin _].
    { unfold calculateBalances. rewrite Hb. exact Hcalc. }
    destruct Hin as (cm & cur & b & _ & _ & -> & Hgt); [left; reflexivity | exact Hgt]. }
  rewrite Hx. reflexivity.
Qed.

(** X11. The flag [HasDebts] that [GetByID] reports is the guard of
    [Delete]: on the same store, a member reads [HasDebts] as true
    exactly when deleting the group is refused with "cannot delete
    group with debts", which is exactly when the list of balances
    returned with the group is not empty. *)
Theorem has_debts_is_delete_guard `{MapOrder} {St} `{GroupRepository St}
    `{BalanceRepository St} `{GroupDetailRepository St}
    (groupID userID : string) (s : St) (group : Group.t) :
  GroupServiceGetByID groupID userID s = Ok group ->
  (Group.HasDebts group = true <->
   GroupServiceDelete groupID userID s = (Some (appError CannotDeleteGroupWithDebts), s)) /\
  (Group.HasDebts group = true <-> Group.Balances group <> []) /\
  calculateBalances groupID s = Ok (Group.Balances group).
Proof.
  unfold GroupServiceGetByID, GroupServiceDelete.
  destruct (RequireGroupMembership groupID userID s); [discriminate|].
  destruct (GroupGetByID groupID s) as [err|g]; [destruct (IsNotFoundError err); discriminate|].
  destruct (calculateBalances groupID s) as [computed|err] eqn:Hcalc; [|discriminate].
  destruct (GetGroupTotalSpend groupID s) as [err|total]; [discriminate|].
  intros [= <-]. cbn [Group.HasDebts Group.Balances].
  rewrite (computed_above groupID s computed Hcalc).
  split; [|split; [|reflexivity]].
  - destruct computed as [|x rest]; cbn [length Nat.ltb Nat.leb].
    + split; [discriminate|].
      destruct (GroupDelete groupID s) as [[err|] s']; intros Heq; discriminate Heq.
    + split; reflexivity.
  - destruct computed as [|x rest]; cbn; split; congruence.
Qed.

(** With the debt of 100 the group shows [HasDebts]. *)
Lemma has_debts_is_delete_guard_witness :
  GroupServiceDelete (H := canonical_order) "g1" "A" (mockOf oneDebtCase) =
    (Some (appError CannotDeleteGroupWithDebts), mockOf oneDebtCase).
Proof.
  destruct (GroupServiceGetByID (H := canonical_order) "g1" "A" (mockOf oneDebtCase))
    as [group|err] eqn:Hget; [|vm_compute in Hget; discriminate Hget].
  destruct (has_debts_is_delete_guard (H := canonical_order) "g1" "A" (mockOf oneDebtCase)
              group Hget) as [Hguard _].
  apply Hguard. vm_compute in Hget. injection Hget as <-. exact eq_refl.
Defined.


(** ** Comments and reactions *)

(** X12. Commenting needs membership: when the expense is not stored
    the call fails with "expense not found", and when the caller is no
    member of the group of the expense it fails with "not a group
    member"; so does a reaction to a comment on such an expense.  In
    each case the database is left as it was. *)
Theorem comment_needs_membership (newID expenseID userID text : string) (db : Database) :
  (find (fun e => String.eqb (Expense.ID e) expenseID) (expenses db) = None ->
   AddComment newID expenseID userID text db = (Fail (appError ExpenseNotFound), db)) /\
  (forall expense,
      find (fun e => String.eqb (Expense.ID e) expenseID) (expenses db) = Some expense ->
      existsb (fun m => String.eqb (fst m) (Expense.GroupID expense) && String.eqb (snd m) userID)
              (group_members db) = false ->
      AddComment newID expenseID userID text db = (Fail (appError NotGroupMember), db) /\
      forall commentID comment emoji,
        GetCommentByID commentID db = inr comment ->
        Comment.ExpenseID comment = expenseID ->
        AddReaction newID commentID userID emoji db = (Some NotGroupMember, db)).
Proof.
  split.
  - intros Hnone. unfold AddComment, checkAccess, dbExpenseGetByID. rewrite Hnone.
    reflexivity.
  - intros expense Hfound Hout.
    assert (Hacc : checkAccess expenseID userID db = Some NotGroupMember).
    { unfold checkAccess, dbExpenseGetByID, dbIsMember. rewrite Hfound, Hout. reflexivity. }
    split.
    + unfold AddComment. rewrite Hacc. reflexivity.
    + intros commentID comment emoji Hget Hexp. unfold AddReaction.
      rewrite Hget, Hexp, Hacc. reflexivity.
Qed.

(** Cy, who is in no group, cannot comment on the dinner. *)
Lemma comment_needs_membership_witness :
  AddComment "c2" "e1" "u3" "me too" outsiderDB = (Fail (appError NotGroupMember), outsiderDB).
Proof.
  destruct (comment_needs_membership "c2" "e1" "u3" "me too" outsiderDB) as [_ Hout].
  destruct (Hout orphanExpense eq_refl eq_refl) as [Hcomment _]. exact Hcomment.
Defined.

Lemma checkAccess_member expenseID userID db :
  checkAccess expenseID userID db = None -> memberOfExpense expenseID userID db = true.
Proof.
  unfold checkAccess, dbExpenseGetByID, dbIsMember, memberOfExpense.
  destruct (find _ (expenses db)) as [e|] eqn:Hfind;
    [|destruct (IsNotFoundError _); discriminate].
  destruct (existsb _ (group_members db)) eqn:Hm; [|discriminate]. intros _.
  apply find_some in Hfind as [Hin Hid].
  apply existsb_exists. exists e. split; [exact Hin|]. rewrite Hid, Hm. reflexivity.
Qed.

Lemma find_app_fresh {A} (f : A -> bool) (l : list A) (x : A) :
  existsb f l = false -> f x = true -> find f (l ++ [x]) = Some x.
Proof.
  induction l as [|y rest IH]; simpl; intros Hno Hx; [rewrite Hx; reflexivity|].
  apply orb_false_iff in Hno as [Hy Hrest]. rewrite Hy. apply IH; assumption.
Qed.

Lemma find_app_other {A} (f : A -> bool) (l : list A) (x : A) :
  f x = false -> find f (l ++ [x]) = find f l.
Proof.
  intros Hx. induction l as [|y rest IH]; simpl; [rewrite Hx; reflexivity|].
  destruct (f y); [reflexivity | exact IH].
Qed.

Lemma filter_out_fresh {A} (f : A -> bool) (l : list A) (x : A) :
  existsb f l = false -> f x = true ->
  List.filter (fun y => negb (f y)) (l ++ [x]) = l.
Proof.
  intros Hall Hx. rewrite List.filter_app. simpl. rewrite Hx. simpl. rewrite app_nil_r.
  apply filter_keeps_all. rewrite <- Hall. clear.
  induction l as [|y rest IH]; [reflexivity|].
  simpl. rewrite negb_involutive, IH. reflexivity.
Qed.

(** X13. The life of a comment.  A member of the expense's group who
    is a stored user adds a comment under a new identifier: the call
    returns the comment, which [GetCommentByID] then finds, and no
    other comment is touched.  Anybody else is refused when deleting
    it, with the database unchanged; its author deletes it, which puts
    the comments back as they were and removes the reactions to it. *)
Theorem comment_lifecycle (newID expenseID userID text : string) (db : Database) :
  checkAccess expenseID userID db = None ->
  freshCommentID newID db ->
  userExists db userID = true ->
  let comment := {| Comment.ID := newID; Comment.ExpenseID := expenseID;
                    Comment.UserID := userID; Comment.CommentText := text |} in
  exists db1,
    AddComment newID expenseID userID text db = (Ok comment, db1) /\
    GetCommentByID newID db1 = inr comment /\
    (forall id, id <> newID -> GetCommentByID id db1 = GetCommentByID id db) /\
    (forall other, other <> userID ->
       DeleteComment newID other db1 =
         (Some (Unauthorized "You can only delete your own comments"), db1)) /\
    exists db2,
      DeleteComment newID userID db1 = (None, db2) /\
      comments db2 = comments db /\
      comment_reactions db2 =
        List.filter (fun r => negb (String.eqb (Reaction.CommentID r) newID))
                    (comment_reactions db) /\
      GetCommentByID newID db2 = inl ("getting comment: " ++ ErrNoRows)%string.
Proof.
  intros Hacc Hfresh Huser comment.
  set (db1 := {| users := users db; friends := friends db;
                 group_members := group_members db; expenses := expenses db;
                 comments := comments db ++ [comment];
                 comment_reactions := comment_reactions db |}).
  assert (Hadd : AddComment newID expenseID userID text db = (Ok comment, db1)).
  { unfold AddComment. rewrite Hacc. fold comment. unfold commentInsert.
    cbn [Comment.ExpenseID Comment.UserID Comment.ID comment].
    rewrite (checkAccess_member _ _ _ Hacc). unfold freshCommentID in Hfresh.
    rewrite Hfresh, Huser. reflexivity. }
  assert (Hget : GetCommentByID newID db1 = inr comment).
  { unfold GetCommentByID. cbn [comments db1].
    rewrite (find_app_fresh _ _ comment Hfresh); [reflexivity|].
    cbn. apply String.eqb_refl. }
  exists db1. split; [exact Hadd|]. split; [exact Hget|]. split; [|split].
  - intros id Hid. unfold GetCommentByID. cbn [comments db1].
    rewrite find_app_other; [reflexivity|]. cbn. apply String.eqb_neq. congruence.
  - intros other Hother. unfold DeleteComment. rewrite Hget.
    cbn [Comment.UserID comment].
    replace (String.eqb userID other) with false
      by (symmetry; apply String.eqb_neq; congruence).
    reflexivity.
  - eexists. split; [|split; [|split]].
    + unfold DeleteComment. rewrite Hget. cbn [Comment.UserID comment].
      rewrite String.eqb_refl. reflexivity.
    + cbn [comments db1].
      apply (filter_out_fresh (fun c => String.eqb (Comment.ID c) newID));
        [exact Hfresh | apply String.eqb_refl].
    + reflexivity.
    + unfold GetCommentByID. cbn [comments db1].
      rewrite (filter_out_fresh (fun c => String.eqb (Comment.ID c) newID))
        by (exact Hfresh || apply String.eqb_refl).
      unfold freshCommentID in Hfresh.
      destruct (find _ (comments db)) as [c|] eqn:Hfind; [|reflexivity].
      apply find_some in Hfind as [Hin Hid].
      assert (Hex : existsb (fun c => String.eqb (Comment.ID c) newID) (comments db) = true)
        by (apply existsb_exists; exists c; auto).
      rewrite Hfresh in Hex. discriminate Hex.
Qed.

(** Ann comments on the dinner. *)
Lemma comment_lifecycle_witness :
  fst (AddComment "c2" "e1" "u1" "my pleasure" demoDB) =
    Ok {| Comment.ID := "c2"; Comment.ExpenseID := "e1"; Comment.UserID := "u1";
          Comment.CommentText := "my pleasure" |}.
Proof.
  destruct (comment_lifecycle "c2" "e1" "u1" "my pleasure" demoDB eq_refl eq_refl eq_refl)
    as (db1 & Hadd & _).
  rewrite Hadd. reflexivity.
Defined.

Lemma reactionDelete_absent commentID userID emoji db :
  ~ hasReaction commentID userID emoji db ->
  reactionDelete commentID userID emoji db = (None, db).
Proof.
  unfold hasReaction, reactionDelete. intros Hno.
  apply not_true_is_false in Hno.
  rewrite filter_keeps_all.
  - rewrite database_eta. reflexivity.
  - rewrite <- Hno. clear.
    induction (comment_reactions db) as [|r rest IH]; [reflexivity|].
    simpl. rewrite negb_involutive, IH. reflexivity.
Qed.

(** X14. Removing undoes adding: when a user adds a reaction they had
    not given, a removal of it afterwards returns the database to what
    it was before the add.  A removal deletes only the reaction named
    by its three arguments: every other stored reaction stays, and the
    named one is gone. *)
Theorem reaction_remove_undoes_add (db db1 : Database) (newID commentID userID emoji : string) :
  ~ hasReaction commentID userID emoji db ->
  AddReaction newID commentID userID emoji db = (None, db1) ->
  RemoveReaction commentID userID emoji db1 = (None, db) /\
  (forall d r,
      In r (comment_reactions d) -> sameReaction commentID userID emoji r = false ->
      In r (comment_reactions (snd (RemoveReaction commentID userID emoji d)))) /\
  (forall d, ~ hasReaction commentID userID emoji (snd (RemoveReaction commentID userID emoji d))).
Proof.
  intros Hno Hadd. split; [|split].
  - unfold AddReaction in Hadd.
    destruct (GetCommentByID commentID db) as [err | comment]; [discriminate Hadd|].
    destruct (checkAccess (Comment.ExpenseID comment) userID db); [discriminate Hadd|].
    set (reaction := {| Reaction.ID := newID; Reaction.CommentID := commentID;
                        Reaction.UserID := userID; Reaction.Emoji := emoji |}) in Hadd.
    destruct (reactionInsert_outcome reaction db) as [(err & Hins & _) | (Hins & _ & _)];
      rewrite Hins in Hadd.
    + destruct (IsDuplicateError err); [|discriminate Hadd].
      injection Hadd as <-. unfold RemoveReaction.
      rewrite (reactionDelete_absent _ _ _ _ Hno). reflexivity.
    + injection Hadd as <-. unfold RemoveReaction, reactionDelete.
      cbn [comment_reactions users friends group_members expenses comments].
      rewrite (filter_out_fresh (sameReaction commentID userID emoji)).
      * rewrite database_eta. reflexivity.
      * apply not_true_is_false. exact Hno.
      * unfold sameReaction, reaction. cbn. rewrite !String.eqb_refl. reflexivity.
  - intros d r Hin Hother. unfold RemoveReaction, reactionDelete. cbn.
    apply List.filter_In. split; [exact Hin|]. rewrite Hother. reflexivity.
  - intros d. unfold RemoveReaction, reactionDelete, hasReaction. cbn.
    intros Hhas. apply existsb_exists in Hhas as (r & Hin & Hsame).
    apply List.filter_In in Hin as [_ Hkept]. rewrite Hsame in Hkept. discriminate Hkept.
Qed.

(** Bob reacts to his comment and takes the reaction back. *)
Lemma reaction_remove_undoes_add_witness :
  RemoveReaction "c1" "u2" thumbsUp reactedDB = (None, demoDB).
Proof.
  assert (Hno : ~ hasReaction "c1" "u2" thumbsUp demoDB) by (intros H; discriminate H).
  assert (Hadd : AddReaction "r1" "c1" "u2" thumbsUp demoDB = (None, reactedDB))
    by reflexivity.
  exact (proj1 (reaction_remove_undoes_add demoDB reactedDB "r1" "c1" "u2" thumbsUp Hno Hadd)).
Defined.


(** ** Importing one payment row *)

Section Parties.

Variables (row : SplitwiseRow) (memberMapping : gmap string string).


End Parties.



(** ** Adding a member to a group *)

Lemma groupAddMember_not_duplicate groupID userID g err g' :
  groupAddMember groupID userID g = (Some err, g') -> IsDuplicateError err = false.
Proof.
  unfold groupAddMember.
  destruct (existsb _ (group_members (tables g))); [intros Heq; discriminate Heq|].
  destruct (negb (existsb _ (groups g))); [intros [= <- <-]; vm_compute; reflexivity|].
  destruct (negb (userExists _ userID)); [intros [= <- <-]; vm_compute; reflexivity|].
  intros Heq; discriminate Heq.
Qed.

(** X16. [AddMember] never answers "already a member": the insert
    skips a member who is already there and reports no error, so
    inviting a member of the group again succeeds and changes nothing;
    and whoever is invited, the tables change at most by the one new
    membership row. *)
Theorem add_member_never_already_member (groupID userID newMemberEmail : string)
    (g : GroupTables) :
  fst (GroupServiceAddMember groupID userID newMemberEmail g) <> Some AlreadyMember /\
  (forall user,
      dbIsMember groupID userID (tables g) = inr true ->
      userGetByEmail newMemberEmail (tables g) = inr user ->
      dbIsMember groupID (User.ID user) (tables g) = inr true ->
      GroupServiceAddMember groupID userID newMemberEmail g = (None, g)) /\
  (forall g', snd (GroupServiceAddMember groupID userID newMemberEmail g) = g' ->
      g' = g \/
      exists user, userGetByEmail newMemberEmail (tables g) = inr user /\
        group_members (tables g') = group_members (tables g) ++ [(groupID, User.ID user)]).
Proof.
  unfold GroupServiceAddMember. split; [|split].
  - destruct (dbIsMember groupID userID (tables g)) as [err|[]];
      [intros Heq; discriminate Heq | | intros Heq; discriminate Heq].
    destruct (userGetByEmail newMemberEmail (tables g)) as [err|user].
    { destruct (IsNotFoundError err); intros Heq; discriminate Heq. }
    destruct (groupAddMember groupID (User.ID user) g) as [[err|] g'] eqn:Hadd;
      [|intros Heq; discriminate Heq].
    rewrite (groupAddMember_not_duplicate _ _ _ _ _ Hadd). intros Heq; discriminate Heq.
  - intros user Hmember Hget Hthere. rewrite Hmember, Hget.
    unfold groupAddMember. unfold dbIsMember in Hthere. injection Hthere as Hthere.
    unfold isMemberRow. rewrite Hthere. reflexivity.
  - intros g' <-.
    destruct (dbIsMember groupID userID (tables g)) as [err|[]]; try (left; reflexivity).
    destruct (userGetByEmail newMemberEmail (tables g)) as [err|user].
    { destruct (IsNotFoundError err); left; reflexivity. }
    unfold groupAddMember.
    destruct (existsb _ (group_members (tables g))); [left; reflexivity|].
    destruct (negb (existsb _ (groups g))).
    { destruct (IsDuplicateError _); left; reflexivity. }
    destruct (negb (userExists _ _)).
    { destruct (IsDuplicateError _); left; reflexivity. }
    right. exists user. split; reflexivity.
Qed.

(** Ann invites Bob, who is in the group already. *)
Lemma add_member_never_already_member_witness :
  GroupServiceAddMember "g1" "u1" "bob@example.org" demoGroups = (None, demoGroups).
Proof.
  destruct (add_member_never_already_member "g1" "u1" "bob@example.org" demoGroups)
    as (_ & Hagain & _).
  apply (Hagain {| User.ID := "u2"; User.Email := "bob@example.org" |}); reflexivity.
Defined.


(** ** Friends: one direction, and back *)

Lemma userGetByEmail_exists email db user :
  userGetByEmail email db = inr user -> userExists db (User.ID user) = true.
Proof.
  unfold userGetByEmail, userExists.
  destruct (find _ (users db)) as [u|] eqn:Hfind; [|intros Heq; discriminate Heq].
  intros [= <-]. apply find_some in Hfind as [Hin _].
  apply existsb_exists. exists u. split; [exact Hin | apply String.eqb_refl].
Qed.

(** X17. Friendship is stored in one direction.  When a stored user
    adds by email somebody else who is not yet their friend, exactly
    the row (user, friend) is added: the friend is then a friend of the
    user, whether the user is a friend of the friend is as before, and
    [RemoveFriend] by the user puts the database back as it was. *)
Theorem friendship_is_directed (userID email : string) (db : Database) (friendUser : User.t) :
  userGetByEmail email db = inr friendUser ->
  User.ID friendUser <> userID ->
  userExists db userID = true ->
  friendIsFriend userID (User.ID friendUser) db = inr false ->
  exists db1,
    AddFriendByEmail userID email db = (None, db1) /\
    friends db1 = friends db ++ [(userID, User.ID friendUser)] /\
    friendIsFriend userID (User.ID friendUser) db1 = inr true /\
    friendIsFriend (User.ID friendUser) userID db1 = friendIsFriend (User.ID friendUser) userID db /\
    RemoveFriend userID (User.ID friendUser) db1 = (None, db).
Proof.
  intros Hget Hne Huser Hnot.
  unfold friendIsFriend in Hnot. injection Hnot as Hnot.
  pose proof (userGetByEmail_exists _ _ _ Hget) as Hfriend.
  eexists. split; [|split; [|split; [|split]]].
  - unfold AddFriendByEmail. rewrite Hget.
    replace (String.eqb (User.ID friendUser) userID) with false
      by (symmetry; apply String.eqb_neq; exact Hne).
    unfold friendAdd.
    replace (String.eqb userID (User.ID friendUser)) with false
      by (symmetry; apply String.eqb_neq; congruence).
    rewrite Hnot, Huser, Hfriend. reflexivity.
  - reflexivity.
  - unfold friendIsFriend. cbn [friends]. rewrite existsb_app. cbn [existsb].
    unfold isFriendRow at 2. cbn [fst snd]. rewrite !String.eqb_refl.
    rewrite orb_true_r. reflexivity.
  - unfold friendIsFriend. cbn [friends]. rewrite existsb_app. cbn [existsb].
    unfold isFriendRow at 2. cbn [fst snd].
    replace (String.eqb userID (User.ID friendUser)) with false
      by (symmetry; apply String.eqb_neq; congruence).
    rewrite !orb_false_r. reflexivity.
  - unfold RemoveFriend, friendRemove.
    cbn [friends users group_members expenses comments comment_reactions].
    rewrite (filter_out_fresh (isFriendRow userID (User.ID friendUser)));
      [rewrite database_eta; reflexivity | exact Hnot |].
    unfold isFriendRow. cbn [fst snd]. rewrite !String.eqb_refl. reflexivity.
Qed.

(** Ann adds Bob and removes him again. *)
Lemma friendship_is_directed_witness :
  RemoveFriend "u1" "u2" befriendedDB = (None, demoDB).
Proof.
  destruct (friendship_is_directed "u1" "bob@example.org" demoDB
              {| User.ID := "u2"; User.Email := "bob@example.org" |}
              eq_refl ltac:(intros Heq; discriminate Heq) eq_refl eq_refl)
    as (db1 & Hadd & _ & _ & _ & Hremove).
  assert (Hdb1 : db1 = befriendedDB).
  { assert (Hrun : AddFriendByEmail "u1" "bob@example.org" demoDB = (None, befriendedDB))
      by reflexivity.
    rewrite Hrun in Hadd. injection Hadd as <-. reflexivity. }
  rewrite <- Hdb1. exact Hremove.
Defined.

(** ** A group without debts has nothing to settle *)

Lemma abs_above r :
  GoMath.gtb r BalanceThreshold = true \/ (r <? - BalanceThreshold)%float = true ->
  GoMath.gtb (GoMath.Abs r) BalanceThreshold = true.
Proof.
  unfold GoMath.gtb, GoMath.Abs. rewrite !ltb_key, FloatAxioms.abs_spec.
  change (Prim2SF BalanceThreshold) with (S754_finite false m001 (-59)).
  change (Prim2SF (- BalanceThreshold)%float) with (S754_finite true m001 (-59)).
  unfold keyLt.
  destruct (Prim2SF r) as [[]|[]| |[] m e]; cbn [orderKey SFabs fst snd];
    intros [(H1 & H2 & H3) | (H1 & H2 & H3)];
    try (exfalso; apply H1; reflexivity); try (exfalso; apply H2; reflexivity);
    (split; [intros Heq; discriminate Heq
            | split; [intros Heq; discriminate Heq | cbn [fst snd] in *; lia]]).
Qed.

Lemma partitionEntry_settled st kv :
  GoMath.gtb (GoMath.Abs (round2 (snd kv))) BalanceThreshold = false ->
  partitionEntry st kv = st.
Proof.
  intros Hsettled. unfold partitionEntry.
  destruct (GoMath.gtb (round2 (snd kv)) BalanceThreshold) eqn:Hgt.
  { rewrite abs_above in Hsettled by (left; exact Hgt). discriminate Hsettled. }
  destruct (round2 (snd kv) <? - BalanceThreshold)%float eqn:Hlt; [|reflexivity].
  rewrite abs_above in Hsettled by (right; exact Hlt). discriminate Hsettled.
Qed.

Lemma settleEntries_settled entries currency :
  Forall (fun kv => GoMath.gtb (GoMath.Abs (round2 (snd kv))) BalanceThreshold = false)
         entries ->
  settleEntries entries currency = [].
Proof.
  intros Hall. unfold settleEntries, initialState.
  assert (Hfold : forall st, fold_left partitionEntry entries st = st).
  { induction Hall as [|kv rest Hkv _ IH]; intros st; simpl; [reflexivity|].
    rewrite partitionEntry_settled by assumption. apply IH. }
  rewrite Hfold. reflexivity.
Qed.

(** X18. A group that [Delete] would accept has nothing to settle: on a
    store where the list of balances that guards [Delete],
    [RemoveMember] and [HasDebts] is empty, [CalculateSettlements]
    returns no settlement for a member of the group. *)
Theorem no_debts_no_settlements `{MapOrder} {St} `{GroupRepository St} `{BalanceRepository St}
    (groupID userID : string) (s : St) :
  RequireGroupMembership groupID userID s = None ->
  calculateBalances groupID s = Ok [] ->
  CalculateSettlements groupID userID s = Ok [].
Proof.
  intros Hmember Hcalc. unfold CalculateSettlements. rewrite Hmember.
  destruct (GetGroupMemberBalances groupID s) as [err|bbc] eqn:Hb.
  { unfold calculateBalances in Hcalc. rewrite Hb in Hcalc. discriminate Hcalc. }
  pose proof (calculateBalances_lists groupID s bbc [] Hb Hcalc) as Hlist.
  f_equal. apply concat_nil_Forall, Forall_map, Forall_forall.
  intros [cur ub] Hin. apply range_elem in Hin.
  unfold settleBucket, calculateSettlementsForCurrency. cbn [fst snd].
  apply settleEntries_settled, range_Forall. intros u b Hu. cbn [snd].
  destruct (GoMath.gtb (GoMath.Abs (round2 b)) BalanceThreshold) eqn:Hgt; [|reflexivity].
  exfalso.
  pose proof (bucketOf_currencyBalances bbc cur u) as Hbucket.
  unfold bucketOf in Hbucket. rewrite Hin in Hbucket. cbn in Hbucket. rewrite Hu in Hbucket.
  destruct (bbc !! u) as [cm|] eqn:Hcm; [|discriminate Hbucket]. cbn in Hbucket.
  apply (proj2 (Hlist {| BalanceUserID := u; OwedAmount := round2 b |})).
  exists cm, cur, b. cbn. auto.
Qed.

(** The settled group of the delete guard. *)
Lemma no_debts_no_settlements_witness :
  CalculateSettlements "g1" "u1" (mockOf settledCase) = Ok [].
Proof.
  assert (Hmember : RequireGroupMembership "g1" "u1" (mockOf settledCase) = None)
    by reflexivity.
  assert (Hcalc : calculateBalances "g1" (mockOf settledCase) = Ok [])
    by (vm_compute; reflexivity).
  exact (no_debts_no_settlements "g1" "u1" (mockOf settledCase) Hmember Hcalc).
Defined.


(** ** The balance heaps are max-heaps *)

Lemma gtb_nan_l x : GoMath.gtb nan x = false.
Proof.
  unfold GoMath.gtb. destruct (x <? nan)%float eqn:Hlt; [|reflexivity].
  apply ltb_not_nan_r in Hlt. exfalso. apply Hlt. reflexivity.
Qed.

Lemma gtb_nan_r x : GoMath.gtb x nan = false.
Proof.
  unfold GoMath.gtb. destruct (nan <? x)%float eqn:Hlt; [|reflexivity].
  apply ltb_not_nan_l in Hlt. exfalso. apply Hlt. reflexivity.
Qed.

Lemma gtb_asym x y : GoMath.gtb x y = true -> GoMath.gtb y x = false.
Proof.
  unfold GoMath.gtb. intros Hyx. destruct (x <? y)%float eqn:Hxy; [|reflexivity].
  pose proof (ltb_trans x y x Hxy Hyx) as Hxx. rewrite ltb_irrefl in Hxx. discriminate Hxx.
Qed.

Lemma notAbove_trans x y z :
  Prim2SF y <> S754_nan ->
  GoMath.gtb x y = false -> GoMath.gtb y z = false -> GoMath.gtb x z = false.
Proof.
  unfold GoMath.gtb. intros Hy Hxy Hyz.
  destruct (z <? x)%float eqn:Hzx; [|reflexivity]. exfalso.
  apply ltb_key in Hzx as (Hz & Hx & Hlt).
  assert (Hor : keyLt (orderKey (Prim2SF y)) (orderKey (Prim2SF x)) \/
                keyLt (orderKey (Prim2SF z)) (orderKey (Prim2SF y))).
  { revert Hlt. unfold keyLt.
    destruct (orderKey (Prim2SF x)) as [[x1 x2] x3], (orderKey (Prim2SF y)) as [[y1 y2] y3],
             (orderKey (Prim2SF z)) as [[z1 z2] z3]. cbn [fst snd]. lia. }
  destruct Hor as [Hlt1 | Hlt1].
  - assert (Hyx : (y <? x)%float = true) by (apply ltb_key; auto).
    rewrite Hyx in Hxy. discriminate Hxy.
  - assert (Hzy : (z <? y)%float = true) by (apply ltb_key; auto).
    rewrite Hzy in Hyz. discriminate Hyz.
Qed.

Lemma Less_balanceAt h i j :
  Heap.Less h i j = GoMath.gtb (balanceAt h i) (balanceAt h j).
Proof.
  unfold Heap.Less, balanceAt.
  destruct (h !! i) as [a|]; [destruct (h !! j) as [b|]|]; [reflexivity| |].
  - symmetry. apply gtb_nan_r.
  - symmetry. apply gtb_nan_l.
Qed.

Lemma Swap_balanceAt h i j k :
  i < length h -> j < length h ->
  balanceAt (Heap.Swap h i j) k =
    if (k =? i)%nat then balanceAt h j
    else if (k =? j)%nat then balanceAt h i else balanceAt h k.
Proof.
  intros Hi Hj. unfold Heap.Swap, balanceAt.
  destruct (lookup_lt_is_Some_2 h i Hi) as [a Ha].
  destruct (lookup_lt_is_Some_2 h j Hj) as [b Hb].
  rewrite Ha, Hb.
  destruct (Nat.eqb_spec k i) as [->|Hki].
  { rewrite list_lookup_insert_eq by (rewrite length_insert; exact Hi). reflexivity. }
  rewrite list_lookup_insert_ne by (intros Heq; exact (Hki (eq_sym Heq))).
  destruct (Nat.eqb_spec k j) as [->|Hkj].
  { rewrite list_lookup_insert_eq by exact Hj. reflexivity. }
  rewrite list_lookup_insert_ne by (intros Heq; exact (Hkj (eq_sym Heq))). reflexivity.
Qed.

Lemma Swap_lookup_other h i j k :
  k <> i -> k <> j -> Heap.Swap h i j !! k = h !! k.
Proof.
  intros Hki Hkj. unfold Heap.Swap.
  destruct (h !! i) as [a|]; [|reflexivity]. destruct (h !! j) as [b|]; [|reflexivity].
  rewrite !list_lookup_insert_ne; [reflexivity | |];
    intros Heq; [exact (Hkj (eq_sym Heq)) | exact (Hki (eq_sym Heq))].
Qed.

Lemma balanceAt_number h k :
  Forall isNumber h -> k < length h -> Prim2SF (balanceAt h k) <> S754_nan.
Proof.
  intros Hall Hk. unfold balanceAt.
  destruct (lookup_lt_is_Some_2 h k Hk) as [x Hx]. rewrite Hx.
  exact (Forall_lookup_1 _ _ _ _ Hall Hx).
Qed.

Lemma parent_cases c : 0 < c -> c = 2 * parent c + 1 \/ c = 2 * parent c + 2.
Proof.
  intros Hc. unfold parent.
  pose proof (Nat.div_mod_eq (c - 1) 2) as Hdiv.
  pose proof (Nat.mod_upper_bound (c - 1) 2) as Hmod. lia.
Qed.

Lemma parent_zero : parent 0 = 0.
Proof. reflexivity. Qed.

Lemma parent_child_l i : parent (2 * i + 1) = i.
Proof. pose proof (parent_cases (2 * i + 1)). lia. Qed.

Lemma parent_child_r i : parent (2 * i + 1 + 1) = i.
Proof. pose proof (parent_cases (2 * i + 1 + 1)). lia. Qed.

(** [heap.up] restores the heap order. *)
Lemma up_heapOrdered fuel : forall h j,
  j < fuel -> j < length h -> Forall isNumber h ->
  orderedButUp h j (length h) ->
  heapOrdered (Heap.up fuel h j) (length h).
Proof.
  induction fuel as [|fuel IH]; intros h j Hfuel Hj Hnum [Hrest Hgrand]; [lia|].
  rewrite up_S. fold (parent j).
  destruct (Nat.eqb_spec (parent j) j) as [Hroot|Hup]; cbn [orb].
  { intros c Hc. apply Hrest; [exact Hc|].
    destruct (Nat.eq_dec j 0) as [->|Hj0]; [lia|]. pose proof (parent_cases j). lia. }
  assert (Hpos : 0 < j).
  { destruct (Nat.eq_dec j 0) as [->|Hj0]; [|lia]. exfalso. apply Hup. reflexivity. }
  pose proof (parent_cases j Hpos) as Hpj.
  rewrite Less_balanceAt.
  destruct (GoMath.gtb (balanceAt h j) (balanceAt h (parent j))) eqn:Hless; cbn [negb].
  2:{ intros c Hc. destruct (Nat.eq_dec c j) as [->|Hcj]; [exact Hless|].
      apply Hrest; assumption. }
  set (i := parent j) in *.
  assert (Hi : i < length h) by lia.
  rewrite <- (Swap_length h i j).
  apply IH; [lia | rewrite Swap_length; exact Hi | apply Swap_Forall; exact Hnum |].
  rewrite Swap_length.
  assert (Hij : GoMath.gtb (balanceAt h i) (balanceAt h j) = false)
    by (apply gtb_asym; exact Hless).
  assert (Hnumi : Prim2SF (balanceAt h i) <> S754_nan)
    by (apply balanceAt_number; assumption).
  split.
  - intros c Hc Hci. pose proof (parent_cases c (proj1 Hc)) as Hpc.
    rewrite !Swap_balanceAt by assumption.
    destruct (Nat.eqb_spec c i) as [Heq|_]; [contradiction|].
    destruct (Nat.eqb_spec c j) as [->|Hcj].
    + fold i. rewrite Nat.eqb_refl. exact Hij.
    + destruct (Nat.eqb_spec (parent c) i) as [Hpi|Hpi].
      * apply (notAbove_trans _ (balanceAt h i)); [exact Hnumi | | exact Hij].
        rewrite <- Hpi. apply Hrest; assumption.
      * destruct (Nat.eqb_spec (parent c) j) as [Hpcj|Hpcj].
        -- apply Hgrand; assumption.
        -- apply Hrest; assumption.
  - intros c Hc Hpi Hipos. pose proof (parent_cases c (proj1 Hc)) as Hpc.
    pose proof (parent_cases i Hipos) as Hppi.
    rewrite !Swap_balanceAt by assumption.
    destruct (Nat.eqb_spec c i) as [Heq|_]; [lia|].
    destruct (Nat.eqb_spec (parent i) i) as [Heq|_]; [lia|].
    destruct (Nat.eqb_spec (parent i) j) as [Heq|_]; [lia|].
    assert (Hip : GoMath.gtb (balanceAt h i) (balanceAt h (parent i)) = false)
      by (apply Hrest; lia).
    destruct (Nat.eqb_spec c j) as [->|Hcj]; [exact Hip|].
    apply (notAbove_trans _ (balanceAt h i)); [exact Hnumi | | exact Hip].
    rewrite <- Hpi. apply Hrest; assumption.
Qed.

(** [heap.down] restores the heap order of the first [n] entries. *)
Lemma down_heapOrdered n fuel : forall h i,
  n - i <= fuel -> n <= length h -> Forall isNumber h ->
  orderedButDown h i n ->
  heapOrdered (Heap.down fuel h i n) n.
Proof.
  induction fuel as [|fuel IH]; intros h i Hfuel Hn Hnum [Hrest Hgrand].
  { intros c Hc. apply Hrest; [exact Hc|].
    pose proof (parent_cases c (proj1 Hc)). simpl. lia. }
  rewrite down_S.
  destruct (Nat.leb_spec n (2 * i + 1)) as [Hleaf|Hchild].
  { intros c Hc. apply Hrest; [exact Hc|].
    pose proof (parent_cases c (proj1 Hc)). lia. }
  cbv zeta. rewrite !Less_balanceAt.
  set (j1 := 2 * i + 1) in *. set (j2 := j1 + 1) in *.
  set (j := if (j2 <? n)%nat && GoMath.gtb (balanceAt h j2) (balanceAt h j1) then j2 else j1).
  assert (Hj : (j = j1 \/ j = j2) /\ j < n /\
               GoMath.gtb (balanceAt h j1) (balanceAt h j) = false /\
               (j2 < n -> GoMath.gtb (balanceAt h j2) (balanceAt h j) = false)).
  { unfold j. destruct (Nat.ltb_spec j2 n) as [Hlt2|Hge2]; cbn [andb].
    - destruct (GoMath.gtb (balanceAt h j2) (balanceAt h j1)) eqn:H21.
      + repeat split; [right; reflexivity | exact Hlt2 | apply gtb_asym; exact H21 |].
        intros _. apply ltb_irrefl.
      + repeat split; [left; reflexivity | exact Hchild | apply ltb_irrefl |].
        intros _. exact H21.
    - repeat split; [left; reflexivity | exact Hchild | apply ltb_irrefl | lia]. }
  clearbody j. destruct Hj as (Hj12 & Hjn & Hj1 & Hj2).
  assert (Hpj : parent j = i).
  { destruct Hj12 as [-> | ->]; [apply parent_child_l | apply parent_child_r]. }
  assert (Hchildren : forall c, 0 < c < n -> parent c = i ->
            GoMath.gtb (balanceAt h c) (balanceAt h j) = false).
  { intros c Hc Hpc. pose proof (parent_cases c (proj1 Hc)) as Hcases.
    destruct Hcases as [Hc1 | Hc2].
    - replace c with j1 by (unfold j1; lia). exact Hj1.
    - replace c with j2 by (unfold j2, j1; lia). apply Hj2. unfold j2, j1. lia. }
  assert (Hnumj : Prim2SF (balanceAt h j) <> S754_nan)
    by (apply balanceAt_number; [assumption | lia]).
  destruct (GoMath.gtb (balanceAt h j) (balanceAt h i)) eqn:Hless; cbn [negb].
  2:{ intros c Hc. destruct (Nat.eq_dec (parent c) i) as [Hpc|Hpc].
      - rewrite Hpc. apply (notAbove_trans _ (balanceAt h j)); [exact Hnumj | | exact Hless].
        apply Hchildren; assumption.
      - apply Hrest; assumption. }
  assert (Hij : GoMath.gtb (balanceAt h i) (balanceAt h j) = false)
    by (apply gtb_asym; exact Hless).
  assert (Hilt : i < j) by (unfold j2, j1 in *; lia).
  apply IH; [lia | rewrite Swap_length; exact Hn | apply Swap_Forall; exact Hnum |].
  split.
  - intros c Hc Hpcj. pose proof (parent_cases c (proj1 Hc)) as Hpc.
    rewrite !Swap_balanceAt by lia.
    destruct (Nat.eqb_spec (parent c) j) as [Heq|_]; [contradiction|].
    destruct (Nat.eqb_spec c i) as [->|Hci].
    + destruct (Nat.eqb_spec (parent i) i) as [Heq|_]; [lia|].
      apply Hgrand; [lia | exact Hpj | lia].
    + destruct (Nat.eqb_spec c j) as [->|Hcj].
      * rewrite Hpj, Nat.eqb_refl. exact Hij.
      * destruct (Nat.eqb_spec (parent c) i) as [Hpi|Hpi].
        -- apply Hchildren; assumption.
        -- apply Hrest; assumption.
  - intros c Hc Hpcj Hjpos. pose proof (parent_cases c (proj1 Hc)) as Hpc.
    rewrite !Swap_balanceAt by lia. rewrite Hpj, Nat.eqb_refl.
    destruct (Nat.eqb_spec c i) as [Heq|_]; [lia|].
    destruct (Nat.eqb_spec c j) as [Heq|_]; [lia|].
    rewrite <- Hpcj. apply Hrest; [exact Hc | lia].
Qed.

(** [heap.down] leaves the entries from [n] on where they are. *)
Lemma down_lookup_ge n fuel : forall h i k,
  i <= n -> n <= k -> Heap.down fuel h i n !! k = h !! k.
Proof.
  induction fuel as [|fuel IH]; intros h i k Hi Hk; [reflexivity|].
  rewrite down_S. destruct (Nat.leb_spec n (2 * i + 1)) as [Hleaf|Hchild]; [reflexivity|].
  cbv zeta.
  set (j := if (2 * i + 1 + 1 <? n)%nat && Heap.Less h (2 * i + 1 + 1) (2 * i + 1)
            then 2 * i + 1 + 1 else 2 * i + 1).
  assert (Hj : i < j < n).
  { unfold j. destruct (Nat.ltb_spec (2 * i + 1 + 1) n); cbn [andb]; [|lia].
    destruct (Heap.Less _ _ _); lia. }
  clearbody j. destruct (negb _); [reflexivity|].
  rewrite IH by lia. apply Swap_lookup_other; lia.
Qed.

(** In a heap the root is the largest entry. *)
Lemma heapOrdered_root h n :
  n <= length h -> Forall isNumber h -> heapOrdered h n ->
  forall k, k < n -> GoMath.gtb (balanceAt h k) (balanceAt h 0) = false.
Proof.
  intros Hn Hnum Hheap k. induction k as [k IH] using lt_wf_ind. intros Hk.
  destruct (Nat.eq_dec k 0) as [->|Hpos]; [apply ltb_irrefl|].
  pose proof (parent_cases k ltac:(lia)) as Hpk.
  apply (notAbove_trans _ (balanceAt h (parent k))).
  - apply balanceAt_number; [assumption | lia].
  - apply Hheap. lia.
  - apply IH; lia.
Qed.

Lemma balanceAt_app_l h x k : k < length h -> balanceAt (h ++ [x]) k = balanceAt h k.
Proof. intros Hk. unfold balanceAt. rewrite lookup_app_l by exact Hk. reflexivity. Qed.

Lemma Push_maxHeap h x : maxHeap h -> isNumber x -> maxHeap (Heap.Push h x).
Proof.
  intros [Hnum Hheap] Hx. split; [apply Push_Forall; assumption|].
  rewrite Push_length. unfold Heap.Push.
  assert (Hlen : length (h ++ [x]) = S (length h)) by (rewrite length_app; simpl; lia).
  rewrite <- Hlen.
  apply up_heapOrdered; [lia | lia | |].
  - apply Forall_app. split; [assumption | constructor; [assumption | constructor]].
  - rewrite Hlen. split.
    + intros c Hc Hne. pose proof (parent_cases c (proj1 Hc)) as Hpc.
      rewrite !balanceAt_app_l by lia. apply Hheap. lia.
    + intros c Hc Hpc. pose proof (parent_cases c (proj1 Hc)). lia.
Qed.

Lemma Pop_maxHeap h x h' :
  maxHeap h -> Heap.Pop h = Some (x, h') -> largestOf h x /\ maxHeap h'.
Proof.
  intros [Hnum Hheap] Hpop.
  destruct (Pop_Some isNumber h x h' Hpop) as [Hlen Hall].
  destruct (Hall Hnum) as [_ Hnum'].
  revert Hpop. unfold Heap.Pop. set (n := length h - 1).
  set (hs := Heap.Swap h 0 n). set (h2 := Heap.down (length h) hs 0 n).
  destruct (h2 !! n) as [y|] eqn:Hy; [|intros Hpop; discriminate Hpop].
  intros Hpop. injection Hpop as -> <-.
  assert (Hn : n < length h) by lia.
  assert (Hroot : h !! 0 = Some x).
  { rewrite <- Hy. unfold h2. rewrite down_lookup_ge by lia. unfold hs, Heap.Swap.
    destruct (lookup_lt_is_Some_2 h 0 ltac:(lia)) as [a Ha].
    destruct (lookup_lt_is_Some_2 h n Hn) as [b Hb]. rewrite Ha, Hb.
    destruct (Nat.eq_dec n 0) as [Hn0|Hn0].
    - rewrite Hn0 in *. rewrite list_lookup_insert_eq by (rewrite length_insert; lia).
      congruence.
    - rewrite list_lookup_insert_ne by lia. rewrite list_lookup_insert_eq by lia.
      reflexivity. }
  split.
  - split; [apply list_elem_of_In, (list_elem_of_lookup_2 _ 0); exact Hroot|].
    intros z Hz. apply list_elem_of_In, list_elem_of_lookup_1 in Hz as [k Hk].
    pose proof (heapOrdered_root h (length h) (le_n _) Hnum Hheap k
                  (lookup_lt_Some _ _ _ Hk)) as Hmax.
    unfold balanceAt in Hmax. rewrite Hk, Hroot in Hmax. exact Hmax.
  - split; [exact Hnum'|].
    assert (Hlen2 : length h2 = length h)
      by (unfold h2, hs; rewrite down_length; apply Swap_length).
    rewrite length_take, Hlen2. replace (n `min` length h) with n by lia.
    assert (Hordered : heapOrdered h2 n).
    { unfold h2. apply down_heapOrdered.
      - lia.
      - unfold hs. rewrite Swap_length. lia.
      - apply Swap_Forall. exact Hnum.
      - split.
        + intros c Hc Hpc. pose proof (parent_cases c (proj1 Hc)) as Hcases.
          unfold hs. rewrite !Swap_balanceAt by lia.
          destruct (Nat.eqb_spec c 0) as [Heq|_]; [lia|].
          destruct (Nat.eqb_spec c n) as [Heq|_]; [lia|].
          destruct (Nat.eqb_spec (parent c) 0) as [Heq|_]; [contradiction|].
          destruct (Nat.eqb_spec (parent c) n) as [Heq|_]; [lia|].
          apply Hheap. lia.
        + intros c _ _ Hpos. lia. }
    intros c Hc. pose proof (parent_cases c (proj1 Hc)) as Hcases.
    unfold balanceAt. rewrite !lookup_take_lt by lia. apply Hordered. exact Hc.
Qed.

Lemma partition_maxHeap (entries : list (string * float)) : forall st,
  maxHeap (fst st) -> maxHeap (snd st) ->
  maxHeap (fst (fold_left partitionEntry entries st)) /\
  maxHeap (snd (fold_left partitionEntry entries st)).
Proof.
  induction entries as [|kv rest IH]; intros st Hc Hd; simpl; [split; assumption|].
  apply IH; unfold partitionEntry.
  - destruct (GoMath.gtb _ _) eqn:Hgt; simpl.
    + apply Push_maxHeap; [assumption|]. exact (ltb_not_nan_r _ _ Hgt).
    + destruct (_ <? _)%float; assumption.
  - destruct (GoMath.gtb _ _) eqn:Hgt; simpl; [assumption|].
    destruct (_ <? _)%float eqn:Hlt; simpl; [|assumption].
    apply Push_maxHeap; [assumption|]. apply abs_not_nan. exact (ltb_not_nan_l _ _ Hlt).
Qed.

Lemma settleStep_maxHeap currency st st' :
  settleStep currency st = Some st' ->
  maxHeap (creditorHeap st) -> maxHeap (debtorHeap st) ->
  maxHeap (creditorHeap st') /\ maxHeap (debtorHeap st').
Proof.
  unfold settleStep.
  destruct (Heap.Pop (creditorHeap st)) as [[c ch]|] eqn:Hc; [|intros Heq; discriminate Heq].
  destruct (Heap.Pop (debtorHeap st)) as [[d dh]|] eqn:Hd; [|intros Heq; discriminate Heq].
  intros Heq Hch Hdh. injection Heq as <-. simpl.
  destruct (Pop_maxHeap _ _ _ Hch Hc) as [_ Hch']. destruct (Pop_maxHeap _ _ _ Hdh Hd) as [_ Hdh'].
  split.
  - destruct (GoMath.gtb (round2 (balance c - _)) _) eqn:Hgt; [|assumption].
    apply Push_maxHeap; [assumption|]. exact (ltb_not_nan_r _ _ Hgt).
  - destruct (GoMath.gtb (round2 (balance d - _)) _) eqn:Hgt; [|assumption].
    apply Push_maxHeap; [assumption|]. exact (ltb_not_nan_r _ _ Hgt).
Qed.

Lemma iterations_maxHeap currency st n st' :
  iterations currency st n st' ->
  maxHeap (creditorHeap st) -> maxHeap (debtorHeap st) ->
  maxHeap (creditorHeap st') /\ maxHeap (debtorHeap st').
Proof.
  induction 1 as [st|st st1 st2 n Hstep _ IH]; intros Hc Hd; [split; assumption|].
  destruct (settleStep_maxHeap _ _ _ Hstep Hc Hd) as [Hc1 Hd1]. apply IH; assumption.
Qed.

Lemma maxHeap_nil : maxHeap [].
Proof. split; [constructor|]. intros c Hc. simpl in Hc. lia. Qed.

(** X19. The loop is greedy: in every iteration it reaches, the two
    entries it pops are a creditor that no creditor still in the heap is
    above and a debtor that no debtor still in the heap is above; the
    settlement it records, if the rounded amount is above the threshold,
    goes from that debtor to that creditor for the smaller of the two
    balances, rounded to two decimals. *)
Theorem settlement_pairs_largest `{MapOrder} (balances : gmap string float)
    (currency : string) (n : nat) (st st' : settleState) :
  iterations currency
    (initialState (range ("calculateSettlementsForCurrency:" ++ currency) balances)) n st ->
  settleStep currency st = Some st' ->
  exists creditor debtor,
    largestOf (creditorHeap st) creditor /\
    largestOf (debtorHeap st) debtor /\
    settlements st' =
      if GoMath.gtb (round2 (GoMath.Min (balance creditor) (balance debtor))) BalanceThreshold
      then settlements st ++
             [edge (userID debtor) (userID creditor)
                   (round2 (GoMath.Min (balance creditor) (balance debtor))) currency]
      else settlements st.
Proof.
  intros Hrun Hstep.
  destruct (partition_maxHeap
              (range ("calculateSettlementsForCurrency:" ++ currency) balances)
              ([], []) maxHeap_nil maxHeap_nil) as [Hc0 Hd0].
  destruct (iterations_maxHeap _ _ _ _ Hrun Hc0 Hd0) as [Hch Hdh].
  revert Hstep. unfold settleStep.
  destruct (Heap.Pop (creditorHeap st)) as [[c ch]|] eqn:Hc; [|intros Heq; discriminate Heq].
  destruct (Heap.Pop (debtorHeap st)) as [[d dh]|] eqn:Hd; [|intros Heq; discriminate Heq].
  intros Heq. injection Heq as <-. simpl.
  exists c, d.
  split; [exact (proj1 (Pop_maxHeap _ _ _ Hch Hc))|].
  split; [exact (proj1 (Pop_maxHeap _ _ _ Hdh Hd))|].
  reflexivity.
Qed.

(** Of the three members, the first iteration pairs the largest creditor
    with the largest debtor. *)
Lemma settlement_pairs_largest_witness :
  exists st' creditor debtor,
    settleStep "INR"
      (initialState (range (MapOrder := canonical_order) "calculateSettlementsForCurrency:INR"
                           threeMembers)) = Some st' /\
    largestOf (creditorHeap (initialState
                 (range (MapOrder := canonical_order) "calculateSettlementsForCurrency:INR"
                        threeMembers))) creditor /\
    largestOf (debtorHeap (initialState
                 (range (MapOrder := canonical_order) "calculateSettlementsForCurrency:INR"
                        threeMembers))) debtor.
Proof.
  destruct (settleStep "INR"
      (initialState (range (MapOrder := canonical_order) "calculateSettlementsForCurrency:INR"
                           threeMembers))) as [st'|] eqn:Hstep;
    [|vm_compute in Hstep; discriminate Hstep].
  destruct (settlement_pairs_largest (H := canonical_order) threeMembers "INR" 0 _ st'
              (iterations_none _ _) Hstep) as (creditor & debtor & Hc & Hd & _).
  exists st', creditor, debtor. split; [reflexivity | split; assumption].
Defined.
